(** * Renamer: the reconciliation engine of the image watcher

    A shallow embedding of [rename_images_watcher.py] (module [Original]) and
    of [rename_images_watcher_CORRECTED.py] (module [Corrected]), and the
    properties of the renaming pass checked on it.

    Conventions of the embedding.
    - A [Path] inside the watched directory is represented by its [name];
      [directory / item] and [file_path.parent / temp] stay in that directory
      (the prefix holds no path separator).
    - Strings are byte strings; [str.lower] is modelled on ASCII letters.
    - Times are integers: [time.time] and the delays in milliseconds,
      [os.path.getctime] in any unit, since only its order is used.
    - The watched directory is a finite map from names to what the operating
      system answers about each entry.  The order in which [os.listdir] or
      [glob] enumerate it is not part of the directory: it is an input of each
      pass.  [print] is modelled by a list of messages, and does not raise.
    - What [os.path.getctime] reports of a file after a rename depends on the
      platform.  On Windows it is the creation time, which as a rule moves
      with the entry; on POSIX it is the time of the last change of the
      inode, which a rename sets on most file systems.  Each entry carries
      the values that its renames to come will give to [st_ctime], none
      where renames leave it alone. *)

From Stdlib Require Import ZArith Lia Ascii String.
From stdpp Require Import base strings pretty gmap list sorting.

(** ** Text: the [str] operations the source uses *)

Module Text.

Definition is_upper (c : ascii) : bool :=
  let n := nat_of_ascii c in (65 <=? n) && (n <=? 90).

Definition lower_char (c : ascii) : ascii :=
  if is_upper c then ascii_of_nat (nat_of_ascii c + 32) else c.

(** [s.lower()] *)
Fixpoint lower (s : string) : string :=
  match s with
  | EmptyString => EmptyString
  | String c s' => String (lower_char c) (lower s')
  end.

(** [s.endswith(suffix)] *)
Fixpoint endswith (s suffix : string) : bool :=
  if String.eqb s suffix then true
  else match s with
       | EmptyString => false
       | String _ s' => endswith s' suffix
       end.

(** [s.startswith(pre)] *)
Definition startswith (s pre : string) : bool := String.prefix pre s.

(** [s.rfind(c)], with [None] for Python's -1 *)
Fixpoint rfind (s : string) (c : ascii) : option nat :=
  match s with
  | EmptyString => None
  | String a s' =>
      match rfind s' c with
      | Some i => Some (S i)
      | None => if Ascii.eqb a c then Some 0 else None
      end
  end.

(** [s[i:]] *)
Fixpoint slice_from (i : nat) (s : string) : string :=
  match i, s with
  | 0, _ => s
  | S i', String _ s' => slice_from i' s'
  | S _, EmptyString => EmptyString
  end.

Definition digit_char (d : nat) : ascii := ascii_of_nat (48 + d).

Definition is_digit (c : ascii) : bool :=
  let n := nat_of_ascii c in (48 <=? n) && (n <=? 57).

Fixpoint digits_fuel (fuel n : nat) : string :=
  match fuel with
  | 0 => EmptyString
  | S fuel' =>
      if n <? 10 then String (digit_char n) EmptyString
      else digits_fuel fuel' (n / 10) +:+ String (digit_char (n mod 10)) EmptyString
  end.

(** [str(n)] for a natural number *)
Definition str_of_nat (n : nat) : string := digits_fuel (S n) n.

(** The format specification [:02d]: decimal, zero-padded to width 2. *)
Definition fmt_02d (n : nat) : string :=
  let s := str_of_nat n in
  if String.length s <? 2 then "0" +:+ s else s.

Fixpoint count_char (c : ascii) (s : string) : nat :=
  match s with
  | EmptyString => 0
  | String a s' => (if Ascii.eqb a c then 1 else 0) + count_char c s'
  end.

Fixpoint all_digits (s : string) : bool :=
  match s with
  | EmptyString => true
  | String a s' => is_digit a && all_digits s'
  end.

(** Reads the decimal number a string starts with: the value read so far,
    and what follows the digits. *)
Fixpoint read_nat (acc : nat) (s : string) : nat * string :=
  match s with
  | EmptyString => (acc, EmptyString)
  | String a s' =>
      if is_digit a then read_nat (10 * acc + (nat_of_ascii a - 48)) s'
      else (acc, s)
  end.

(** The string is empty or starts with something else than a digit. *)
Definition no_digit_ahead (s : string) : Prop :=
  match s with EmptyString => True | String a _ => is_digit a = false end.

End Text.

(** ** [pathlib]: the suffix of a file name *)

Module PurePath.
Import Text.

(** [PurePath.suffix]: the text from the last dot on, unless that dot is
    the first or the last character of the name. *)
Definition suffix (name : string) : string :=
  match rfind name "."%char with
  | Some i =>
      if (0 <? i) && (i <? String.length name - 1) then slice_from i name
      else EmptyString
  | None => EmptyString
  end.

End PurePath.

(** ** The watched directory *)

Module FS.

Record stat_result := { st_size : Z; st_ctime : Z }.

(** What an entry is, for the rules of a rename. *)
Inductive kind :=
  | File                          (* anything but a directory *)
  | Folder (empty : bool).        (* a directory, with entries or without *)

(** What the operating system answers about one directory entry.  The
    answers are independent of one another: a phantom entry can be listed
    and [stat] while no byte of it can be read. *)
Record node := {
  n_kind : kind;
  n_is_file : option bool;        (* Path.is_file(); None when it raises *)
  n_exists : option bool;         (* Path.exists(); None when it raises *)
  n_stat : option stat_result;    (* Path.stat(); None when it raises OSError *)
  n_readable : bool;              (* open(path, 'rb') and read(1) succeed *)
  n_ctimes : list Z;              (* st_ctime after each rename to come, where
                                     a rename changes it; empty where it is
                                     the creation time *)
}.

Global Instance stat_result_eq_dec : EqDecision stat_result.
Proof. solve_decision. Defined.

Global Instance kind_eq_dec : EqDecision kind.
Proof. solve_decision. Defined.

Global Instance node_eq_dec : EqDecision node.
Proof. solve_decision. Defined.

Abbreviation dir := (gmap string node).

(** An enumeration of the whole directory: every entry once, in some
    order. *)
Definition enumerates (d : dir) (listing : list string) : Prop :=
  listing ≡ₚ (map_to_list d).*1.

Global Instance enumerates_dec (d : dir) (listing : list string) :
  Decision (enumerates d listing).
Proof. unfold enumerates. apply _. Defined.

(** [Path.is_file()] and [Path.exists()]: false for a name the directory
    does not hold, None when the call raises (a [PermissionError], which
    pathlib does not take for an absent file). *)
Definition is_file (d : dir) (name : string) : option bool :=
  match d !! name with Some nd => n_is_file nd | None => Some false end.

Definition exists_ (d : dir) (name : string) : option bool :=
  match d !! name with Some nd => n_exists nd | None => Some false end.

(** [Path.stat()]: None when it raises. *)
Definition stat (d : dir) (name : string) : option stat_result :=
  nd ← d !! name; n_stat nd.

(** Whether [open(path, 'rb')] and [read(1)] succeed. *)
Definition can_read (d : dir) (name : string) : bool :=
  match d !! name with Some nd => n_readable nd | None => false end.

(** [os.path.getctime]: None when [stat] raises. *)
Definition getctime (d : dir) (name : string) : option Z :=
  nd ← d !! name; st ← n_stat nd; Some (st_ctime st).

(** The entry once it is renamed: [st_ctime] becomes the next of the times
    the entry carries, if it carries any. *)
Definition renamed (nd : node) : node :=
  match n_ctimes nd with
  | [] => nd
  | now :: later =>
      {| n_kind := n_kind nd; n_is_file := n_is_file nd; n_exists := n_exists nd;
         n_stat := (λ st, {| st_size := st_size st; st_ctime := now |}) <$> n_stat nd;
         n_readable := n_readable nd; n_ctimes := later |}
  end.

(** No rename changes what [getctime] reports: it is the creation time. *)
Definition keeps_ctime (d : dir) : Prop := map_Forall (λ _ nd, n_ctimes nd = []) d.

Global Instance keeps_ctime_dec (d : dir) : Decision (keeps_ctime d).
Proof. unfold keeps_ctime. apply _. Defined.

(** [Path.rename(target)].  It raises (None) when the source is missing or
    when the operating system refuses; [refuses] stands for its reasons,
    which depend on the platform.  A rename that succeeds moves the entry
    to the target name, taking the place of whatever was there. *)
Definition rename (refuses : dir → string → string → bool)
    (d : dir) (src dst : string) : option dir :=
  match d !! src with
  | None => None
  | Some nd =>
      if refuses d src dst then None
      else Some (<[dst := renamed nd]> (delete src d))
  end.

(** Windows: FileExistsError when the target exists. *)
Definition windows_refuses (d : dir) (src dst : string) : bool :=
  negb (String.eqb src dst) && bool_decide (is_Some (d !! dst)).

(** POSIX: a file replaces an existing file silently, and a directory an
    existing directory that is empty; a file onto a directory, a directory
    onto a file or onto a directory with entries is an error. *)
Definition posix_refuses (d : dir) (src dst : string) : bool :=
  negb (String.eqb src dst) &&
  match d !! src, d !! dst with
  | Some s, Some t =>
      match n_kind s, n_kind t with
      | File, File => false
      | Folder _, Folder true => false
      | _, _ => true
      end
  | _, _ => false
  end.

End FS.

(** ** Stable sorting by key, as [list.sort(key=...)] *)

Module Sort.

Fixpoint insert_by_key {A} (x : Z * A) (l : list (Z * A)) : list (Z * A) :=
  match l with
  | [] => [x]
  | y :: l' => if (x.1 <=? y.1)%Z then x :: l else y :: insert_by_key x l'
  end.

(** Insertion from the right end: an element goes before the elements
    after it that have the same key, so equal keys keep their order. *)
Definition sort_decorated {A} (l : list (Z * A)) : list (Z * A) :=
  foldr insert_by_key [] l.

(** [l.sort(key=key)]: every key is computed first (one that raises makes
    the whole sort raise: None), then the list is sorted stably. *)
Definition sort_by_key {A} (key : A → option Z) (l : list A) : option (list A) :=
  keys ← mapM key l;
  Some ((sort_decorated (zip keys l)).*2).

End Sort.

(** ** State shared by both implementations *)

(** One planned rename: [(file_path, temp, final)]. *)
Abbreviation entry := (string * string * string)%type.

Definition e_path (e : entry) : string := e.1.1.
Definition e_temp (e : entry) : string := e.1.2.
Definition e_final (e : entry) : string := e.2.

(** What the pass prints. *)
Inductive msg :=
  | MsgAccessibleCount (n : nat)
  | MsgNoImage
  | MsgAlreadyOrdered
  | MsgReorganizing (n : nat)
  | MsgPhase1 (name temp : string)
  | MsgPhase1Error (name temp : string)
  | MsgRenamed (old final : string)
  | MsgFinalError (temp final : string)
  | MsgReorganized (n : nat)
  | MsgReorganizeError
  | MsgRetry (name : string)
  | MsgNotFound (name : string)
  | MsgFound (name : string)
  | MsgProcessError (name : string)
  | MsgAlreadyRenamed (name : string)
  | MsgBusy (name : string)
  | MsgWaiting (name : string)
  | MsgNotStable (name : string)
  | MsgNewFile (name : string).

Global Instance msg_eq_dec : EqDecision msg.
Proof. solve_decision. Defined.


(** The fields of [ImageRenameHandler]; [processing_lock] only makes the
    test-and-set of [processing] atomic. *)
Record handler := {
  prefix : string;
  processing : bool;
  last_event_time : gmap string Z;
  debounce_delay : Z;
  temp_files : gset string;
}.

Global Instance handler_eq_dec : EqDecision handler.
Proof. solve_decision. Defined.

Definition new_handler (p : string) : handler :=
  {| prefix := p; processing := false; last_event_time := ∅;
     debounce_delay := 1500; temp_files := ∅ |}.

Definition set_processing (b : bool) (h : handler) : handler :=
  {| prefix := prefix h; processing := b; last_event_time := last_event_time h;
     debounce_delay := debounce_delay h; temp_files := temp_files h |}.

Definition set_prefix (p : string) (h : handler) : handler :=
  {| prefix := p; processing := processing h; last_event_time := last_event_time h;
     debounce_delay := debounce_delay h; temp_files := temp_files h |}.

Definition set_temp_files (t : gset string) (h : handler) : handler :=
  {| prefix := prefix h; processing := processing h; last_event_time := last_event_time h;
     debounce_delay := debounce_delay h; temp_files := t |}.

Definition set_last_event_time (m : gmap string Z) (h : handler) : handler :=
  {| prefix := prefix h; processing := processing h; last_event_time := m;
     debounce_delay := debounce_delay h; temp_files := temp_files h |}.

(** The state a pass threads through its two loops. *)
Record run := {
  r_fs : FS.dir;
  r_temp_files : gset string;
  r_phase1 : list entry;          (* successful_phase1 *)
  r_count : nat;                  (* successful_renames / renamed_count *)
  r_out : list msg;
}.

(** A loop that an exception can leave: the state reached either way. *)
Inductive flow :=
  | Completed (st : run)
  | Raised (st : run).

Definition flow_run (f : flow) : run :=
  match f with Completed st | Raised st => st end.

Definition image_exts : list string := [".png"; ".jpg"; ".jpeg"].

Definition image_name (name : string) : bool :=
  let ext := Text.lower name in
  Text.endswith ext ".png" || Text.endswith ext ".jpg" || Text.endswith ext ".jpeg".

(** [f"{prefix}_{i+1:02d}{ext}"] and [f"TEMP_{i+1:02d}_{prefix}{ext}"], with
    [ext = file_path.suffix.lower()]. *)
Definition expected_name (pfx : string) (i : nat) (name : string) : string :=
  pfx +:+ "_" +:+ Text.fmt_02d (i + 1) +:+ Text.lower (PurePath.suffix name).

Definition temp_name (pfx : string) (i : nat) (name : string) : string :=
  "TEMP_" +:+ Text.fmt_02d (i + 1) +:+ "_" +:+ pfx +:+ Text.lower (PurePath.suffix name).

(** ** The stability probe ([_wait_file_stable], [wait_for_file_stable]) *)

Module Probe.

(** What the file system answers when the probe looks at the file. *)
Inductive poll :=
  | Gone                (* exists() is false; stat() raises FileNotFoundError *)
  | StatError           (* exists() or stat() raises OSError *)
  | Size (z : Z).       (* stat().st_size *)

(** One evaluation of the loop test: the clock it reads, and what the file
    system answers right after it (to the body when the test passes, to the
    final check when it fails). *)
Abbreviation tick := (Z * poll)%type.

Inductive loop_exit :=
  | Returned (b : bool)                          (* a [return] inside the loop *)
  | TimedOut (last_size : Z) (stable_count : nat) (final : poll)
  | ScriptEnded.                                 (* the script says no more *)

Fixpoint wait_loop (timeout start_time : Z) (script : list tick)
    (last_size : Z) (stable_count : nat) : loop_exit :=
  match script with
  | [] => ScriptEnded
  | (now, p) :: rest =>
      if negb (now - start_time <? timeout)%Z then TimedOut last_size stable_count p
      else
        match p with
        | Gone => Returned false
        | StatError => Returned false
        | Size current_size =>
            if (0 <? current_size)%Z then
              if (current_size =? last_size)%Z then
                let stable_count := S stable_count in
                if 2 <=? stable_count then Returned true
                else wait_loop timeout start_time rest current_size stable_count
              else wait_loop timeout start_time rest current_size 0
            else wait_loop timeout start_time rest current_size stable_count
        end
  end.

(** The code after the loop: [stat] once more. *)
Definition final_check (p : poll) : bool :=
  match p with
  | Size final_size => (0 <? final_size)%Z
  | Gone | StatError => false
  end.

Definition wait_file_stable (timeout start_time : Z) (script : list tick) : option bool :=
  match wait_loop timeout start_time script (-1) 0 with
  | Returned b => Some b
  | TimedOut _ _ p => Some (final_check p)
  | ScriptEnded => None
  end.

End Probe.

(** ** The corrected implementation: [rename_images_watcher_CORRECTED.py] *)

Module Corrected.
Import FS.

Section Handler.

(** The platform's reasons to refuse a rename. *)
Variable refuses : dir → string → string → bool.

(** [re.match(pattern, filename, re.IGNORECASE)] for the pattern
    [is_already_renamed] builds from the prefix.  The prefix is pasted
    into the pattern as a regular expression; the matcher is an input,
    None when the pattern is not a regular expression and [re.match]
    raises [re.error]. *)
Variable re_match_renamed : string → string → option bool.

(** The loop of [get_real_image_files].  [is_file()] is called outside
    the inner [try]: when it raises, the outer handler ends the loop
    (its message is left out) and the files found so far are returned.
    What raises inside the inner [try] skips the item. *)
Fixpoint get_real_image_files_loop (d : dir) (all_items : list string)
    (real_files : list string) : list string :=
  match all_items with
  | [] => real_files
  | item :: rest =>
      let continue := get_real_image_files_loop d rest real_files in
      match is_file d item with
      | None => real_files
      | Some false => continue
      | Some true =>
          if negb (image_name item) then continue
          else
            match exists_ d item with
            | Some true =>
                match stat d item with
                | None => continue
                | Some stat_info =>
                    if (st_size stat_info <=? 0)%Z then continue
                    else if negb (can_read d item) then continue
                    else get_real_image_files_loop d rest (real_files ++ [item])
                end
            | Some false | None => continue
            end
      end
  end.

(** [all_items] is what [os.listdir] returns, None when it raises. *)
Definition get_real_image_files (d : dir) (all_items : option (list string)) : list string :=
  match all_items with
  | None => []
  | Some items => get_real_image_files_loop d items []
  end.

(** The loop that prepares [renames]. *)
Fixpoint plan_loop (pfx : string) (i : nat) (existing_files : list string)
    (renames : list entry) : list entry :=
  match existing_files with
  | [] => renames
  | file_path :: rest =>
      let expected := expected_name pfx i file_path in
      if negb (String.eqb file_path expected) then
        let temp := temp_name pfx i file_path in
        plan_loop pfx (S i) rest (renames ++ [(file_path, temp, expected)])
      else plan_loop pfx (S i) rest renames
  end.

Definition compute_plan (pfx : string) (existing_files : list string) : list entry :=
  plan_loop pfx 0 existing_files [].

(** Phase 1: every entry is tried; one that raises is reported and
    the loop goes on. *)
Fixpoint phase1 (renames : list entry) (st : run) : run :=
  match renames with
  | [] => st
  | (file_path, temp, final) :: rest =>
      let temps := {[temp]} ∪ r_temp_files st in
      match rename refuses (r_fs st) file_path temp with
      | Some d' =>
          phase1 rest
            {| r_fs := d'; r_temp_files := temps;
               r_phase1 := r_phase1 st ++ [(file_path, temp, final)];
               r_count := r_count st;
               r_out := r_out st ++ [MsgPhase1 file_path temp] |}
      | None =>
          phase1 rest
            {| r_fs := r_fs st; r_temp_files := temps;
               r_phase1 := r_phase1 st;
               r_count := r_count st;
               r_out := r_out st ++ [MsgPhase1Error file_path temp] |}
      end
  end.

(** Phase 2, over [successful_phase1].  [exists()] is called before the
    [try]: when it raises, the loop is left. *)
Fixpoint phase2 (successful_phase1 : list entry) (st : run) : flow :=
  match successful_phase1 with
  | [] => Completed st
  | (file_path, temp, final) :: rest =>
      match exists_ (r_fs st) temp with
      | None => Raised st
      | Some false => phase2 rest st
      | Some true =>
          match rename refuses (r_fs st) temp final with
          | Some d' =>
              phase2 rest
                {| r_fs := d'; r_temp_files := r_temp_files st ∖ {[temp]};
                   r_phase1 := r_phase1 st;
                   r_count := S (r_count st);
                   r_out := r_out st ++
                     [match getctime d' final with
                      | Some _ => MsgRenamed file_path final
                      | None => MsgFinalError temp final
                      end] |}
          | None =>
              phase2 rest
                {| r_fs := r_fs st; r_temp_files := r_temp_files st;
                   r_phase1 := r_phase1 st;
                   r_count := r_count st;
                   r_out := r_out st ++ [MsgFinalError temp final] |}
          end
      end
  end.

Definition start_run (h : handler) (d : dir) (out : list msg) : run :=
  {| r_fs := d; r_temp_files := temp_files h; r_phase1 := [];
     r_count := 0; r_out := out |}.

Definition say (m : msg) (st : run) : run :=
  {| r_fs := r_fs st; r_temp_files := r_temp_files st; r_phase1 := r_phase1 st;
     r_count := r_count st; r_out := r_out st ++ [m] |}.

(** The files of the pass in the order they are numbered: the accessible
    images sorted by [os.path.getctime]; None when the sort raises. *)
Definition sorted_files (d : dir) (all_items : option (list string)) : option (list string) :=
  Sort.sort_by_key (getctime d) (get_real_image_files d all_items).

(** [reorganize_all_files].  The listing of the first ten files and the
    final verification only print and are left out. *)
Definition reorganize_all_files (h : handler) (d : dir)
    (all_items : option (list string)) : run :=
  let existing_files := get_real_image_files d all_items in
  let st := start_run h d [MsgAccessibleCount (length existing_files)] in
  if bool_decide (existing_files = []) then say MsgNoImage st
  else
    match Sort.sort_by_key (getctime d) existing_files with
    | None => say MsgReorganizeError st
    | Some existing_files =>
        let renames := compute_plan (prefix h) existing_files in
        if bool_decide (renames = []) then say MsgAlreadyOrdered st
        else
          let st := say (MsgReorganizing (length renames)) st in
          let st := phase1 renames st in
          match phase2 (r_phase1 st) st with
          | Completed st => say (MsgReorganized (r_count st)) st
          | Raised st => say MsgReorganizeError st
          end
    end.

(** The plan of that pass. *)
Definition rename_plan (h : handler) (d : dir) (all_items : option (list string)) : list entry :=
  match sorted_files d all_items with
  | Some existing_files => compute_plan (prefix h) existing_files
  | None => []
  end.

Definition is_already_renamed (h : handler) (filename : string) : option bool :=
  re_match_renamed (prefix h) filename.

Definition _should_process_file (h : handler) (file_path : string) : bool :=
  if negb (image_name file_path) then false
  else negb (Text.startswith file_path "TEMP_" || bool_decide (file_path ∈ temp_files h)).

(** [_debounced_process]: the handler afterwards, and whether a thread
    running [process_new_file] is started. *)
Definition _debounced_process (h : handler) (current_time : Z) (file_path : string)
    : handler * bool :=
  match last_event_time h !! file_path with
  | Some last =>
      if (current_time - last <? debounce_delay h)%Z then (h, false)
      else (set_last_event_time (<[file_path := current_time]> (last_event_time h)) h, true)
  | None =>
      (set_last_event_time (<[file_path := current_time]> (last_event_time h)) h, true)
  end.

Definition _cleanup_cache (h : handler) (current_time : Z) : handler :=
  let cutoff := (current_time - debounce_delay h * 5)%Z in
  set_last_event_time (filter (λ kv, cutoff < kv.2)%Z (last_event_time h)) h.

Definition _wait_file_stable := Probe.wait_file_stable 5000.

(** [process_new_file], run by the thread an accepted event starts.
    [d] is the directory when the file is looked for, [d_late] the
    directory one second later, after the [sleep] of the retry.  None
    when the probe's script is too short to decide.  The handler of
    [except Exception] is reached by [exists()] and [is_already_renamed]
    when they raise; it resets [processing] whoever holds it. *)
Definition process_new_file (h : handler) (d d_late : dir) (file_path : string)
    (all_items : option (list string))
    (start_time : Z) (script : list Probe.tick) (end_time : Z)
    : option (handler * dir * list msg) :=
  let failed (d : dir) (out : list msg) :=
    Some (set_processing false h, d, out ++ [MsgProcessError file_path]) in
  let found (d : dir) (out : list msg) :=
    match is_already_renamed h file_path with
    | None => failed d out
    | Some true => Some (h, d, out ++ [MsgAlreadyRenamed file_path])
    | Some false =>
        if processing h then
          Some (h, d, out ++ [MsgBusy file_path])
        else
          let h := set_processing true h in
          stable ← _wait_file_stable start_time script;
          if negb stable then
            Some (set_processing false h, d,
                  out ++ [MsgWaiting file_path; MsgNotStable file_path])
          else
            let st := reorganize_all_files h d all_items in
            let h := set_temp_files (r_temp_files st) h in
            let h := _cleanup_cache h end_time in
            Some (set_processing false h, r_fs st,
                  out ++ [MsgWaiting file_path; MsgNewFile file_path] ++ r_out st)
    end in
  match exists_ d file_path with
  | None => failed d []
  | Some true => found d []
  | Some false =>
      match exists_ d_late file_path with
      | None => failed d_late [MsgRetry file_path]
      | Some false => Some (h, d_late, [MsgRetry file_path; MsgNotFound file_path])
      | Some true => found d_late [MsgRetry file_path; MsgFound file_path]
      end
  end.

(** One choice typed in [run_interactive_menu]: choice 3 changes the
    prefix to what is typed (when not empty), choice 4 reorganizes; the
    others leave the handler and the directory alone. *)
Definition run_interactive_menu (choice typed : string) (h : handler) (d : dir)
    (all_items : option (list string)) : handler * dir * list msg :=
  if String.eqb choice "3" then
    if negb (String.eqb typed "") then (set_prefix typed h, d, []) else (h, d, [])
  else if String.eqb choice "4" then
    let st := reorganize_all_files h d all_items in
    (set_temp_files (r_temp_files st) h, r_fs st, r_out st)
  else (h, d, []).

End Handler.

End Corrected.

(** ** The original implementation: [rename_images_watcher.py] *)

Module Original.
Import FS.

Section Handler.

Variable refuses : dir → string → string → bool.

(** How [Path.glob] compares names with a pattern: with the case on
    POSIX, without it on Windows. *)
Variable case_sensitive : bool.

(** Whether [name] matches the pattern ["*" + tail]. *)
Definition fnmatch_star (tail name : string) : bool :=
  if case_sensitive then Text.endswith name tail
  else Text.endswith (Text.lower name) (Text.lower tail).

(** [directory.glob("*" + tail)]: the entries that match, in the order
    of the enumeration. *)
Definition glob (listing : list string) (tail : string) : list string :=
  filter (λ name, fnmatch_star tail name) listing.

(** The six [glob] calls, for ["*.png"], ["*.PNG"], ["*.jpg"], ... *)
Definition image_files (listing : list string) : list string :=
  glob listing ".png" ++ glob listing ".PNG" ++
  glob listing ".jpg" ++ glob listing ".JPG" ++
  glob listing ".jpeg" ++ glob listing ".JPEG".

Definition get_creation_time (d : dir) (file_path : string) : option Z :=
  getctime d file_path.

(** The loop that fills [temp_names] and [files_to_rename]. *)
Fixpoint plan_loop (pfx : string) (i : nat) (all_files : list string)
    (temp_names : list entry) (files_to_rename : list string)
    : list entry * list string :=
  match all_files with
  | [] => (temp_names, files_to_rename)
  | file_path :: rest =>
      let expected_name := expected_name pfx i file_path in
      let current_name := file_path in
      if negb (String.eqb current_name expected_name) then
        let temp_name := temp_name pfx i file_path in
        plan_loop pfx (S i) rest
          (temp_names ++ [(file_path, temp_name, expected_name)])
          (files_to_rename ++ [file_path])
      else plan_loop pfx (S i) rest temp_names files_to_rename
  end.

Definition compute_plan (pfx : string) (all_files : list string) : list entry :=
  (plan_loop pfx 0 all_files [] []).1.

(** Phase 1: no handler around the rename, so the first one that raises
    leaves the loop, and the function. *)
Fixpoint phase1 (temp_names : list entry) (st : run) : flow :=
  match temp_names with
  | [] => Completed st
  | (file_path, temp_name, final_name) :: rest =>
      let st := {| r_fs := r_fs st; r_temp_files := {[temp_name]} ∪ r_temp_files st;
                   r_phase1 := r_phase1 st; r_count := r_count st;
                   r_out := r_out st |} in
      match rename refuses (r_fs st) file_path temp_name with
      | Some d' =>
          phase1 rest
            {| r_fs := d'; r_temp_files := r_temp_files st;
               r_phase1 := r_phase1 st ++ [(file_path, temp_name, final_name)];
               r_count := r_count st; r_out := r_out st |}
      | None => Raised st
      end
  end.

(** Phase 2, over all of [temp_names]. *)
Fixpoint phase2 (temp_names : list entry) (st : run) : flow :=
  match temp_names with
  | [] => Completed st
  | (file_path, temp_name, final_name) :: rest =>
      match rename refuses (r_fs st) temp_name final_name with
      | Some d' =>
          let st := {| r_fs := d'; r_temp_files := r_temp_files st ∖ {[temp_name]};
                       r_phase1 := r_phase1 st; r_count := r_count st;
                       r_out := r_out st |} in
          match get_creation_time d' final_name with
          | Some _ =>
              phase2 rest
                {| r_fs := r_fs st; r_temp_files := r_temp_files st;
                   r_phase1 := r_phase1 st; r_count := S (r_count st);
                   r_out := r_out st ++ [MsgRenamed file_path final_name] |}
          | None => Raised st
          end
      | None => Raised st
      end
  end.

Definition sorted_files (d : dir) (listing : list string) : option (list string) :=
  Sort.sort_by_key (get_creation_time d) (image_files listing).

Definition reorganize_all_files (h : handler) (d : dir) (listing : list string) : run :=
  let image_files := image_files listing in
  let st := Corrected.start_run h d [] in
  if bool_decide (image_files = []) then st
  else
    match Sort.sort_by_key (get_creation_time d) image_files with
    | None => Corrected.say MsgReorganizeError st
    | Some all_files =>
        let '(temp_names, files_to_rename) := plan_loop (prefix h) 0 all_files [] [] in
        if bool_decide (files_to_rename = []) then Corrected.say MsgAlreadyOrdered st
        else
          let st := Corrected.say (MsgReorganizing (length files_to_rename)) st in
          match phase1 temp_names st with
          | Raised st => Corrected.say MsgReorganizeError st
          | Completed st =>
              match phase2 temp_names st with
              | Raised st => Corrected.say MsgReorganizeError st
              | Completed st => Corrected.say (MsgReorganized (r_count st)) st
              end
          end
    end.

Definition rename_plan (h : handler) (d : dir) (listing : list string) : list entry :=
  match sorted_files d listing with
  | Some all_files => compute_plan (prefix h) all_files
  | None => []
  end.

Definition wait_for_file_stable (timeout : Z) := Probe.wait_file_stable timeout.

End Handler.

End Original.

(** ** The two implementations side by side *)

Inductive implementation :=
  | original (case_sensitive : bool)   (* and how its [glob] compares names *)
  | corrected.

Global Instance implementation_eq_dec : EqDecision implementation.
Proof. solve_decision. Defined.

Module Either.
Import FS.

(** The files a pass considers, before it sorts them. *)
Definition image_files (impl : implementation) (d : dir) (listing : list string)
    : list string :=
  match impl with
  | original cs => Original.image_files cs listing
  | corrected => Corrected.get_real_image_files d (Some listing)
  end.

Definition sorted_files (impl : implementation) (d : dir) (listing : list string)
    : option (list string) :=
  match impl with
  | original cs => Original.sorted_files cs d listing
  | corrected => Corrected.sorted_files d (Some listing)
  end.

Definition rename_plan (impl : implementation) (h : handler) (d : dir)
    (listing : list string) : list entry :=
  match impl with
  | original cs => Original.rename_plan cs h d listing
  | corrected => Corrected.rename_plan h d (Some listing)
  end.

Definition reorganize_all_files (refuses : dir → string → string → bool)
    (impl : implementation) (h : handler) (d : dir) (listing : list string) : run :=
  match impl with
  | original cs => Original.reorganize_all_files refuses cs h d listing
  | corrected => Corrected.reorganize_all_files refuses h d (Some listing)
  end.

End Either.

(** ** The plan as the specification words it *)

(** A number zero-padded to two digits: its decimal writing, with a zero
    before it when that is one digit. *)
Definition zero_padded (n : nat) : string :=
  if decide (n < 10) then "0" +:+ pretty n else pretty n.

(** For index [i] in the ordered list the target is
    [<prefix>_<i+1 padded to 2 digits><extension in lower case>], the temporary
    name [TEMP_<i+1 padded>_<prefix><extension>], the extension being the
    suffix of the name with its dot; a file is in the plan when its current
    name differs from its target, in ascending index order. *)
Definition computePlan_spec (pfx : string) (orderedFiles : list string) : list entry :=
  omap (λ '(i, name),
          let ext := Text.lower (PurePath.suffix name) in
          let finalName := pfx +:+ "_" +:+ zero_padded (i + 1) +:+ ext in
          let temporaryName := "TEMP_" +:+ zero_padded (i + 1) +:+ "_" +:+ pfx +:+ ext in
          if bool_decide (name ≠ finalName)
          then Some (name, temporaryName, finalName)
          else None)
       (imap (λ i name, (i, name)) orderedFiles).

(** ** Auxiliary notions of the proofs *)

(** The plan of the files numbered from [i] on, by recursion on the list. *)
Fixpoint plan_from (pfx : string) (i : nat) (files : list string) : list entry :=
  match files with
  | [] => []
  | name :: rest =>
      if bool_decide (name ≠ expected_name pfx i name)
      then (name, temp_name pfx i name, expected_name pfx i name) :: plan_from pfx (S i) rest
      else plan_from pfx (S i) rest
  end.

(** A sequence of renames that all succeed. *)
Fixpoint rename_all (refuses : FS.dir → string → string → bool)
    (moves : list (string * string)) (d : FS.dir) : option FS.dir :=
  match moves with
  | [] => Some d
  | (src, dst) :: rest => d' ← FS.rename refuses d src dst; rename_all refuses rest d'
  end.

(** The renames of the two phases of a plan. *)
Definition phase1_moves (plan : list entry) : list (string * string) :=
  (λ e, (e_path e, e_temp e)) <$> plan.

Definition phase2_moves (plan : list entry) : list (string * string) :=
  (λ e, (e_temp e, e_final e)) <$> plan.

(** The tests of [get_real_image_files] on one item. *)
Definition accessible (d : FS.dir) (item : string) : bool :=
  bool_decide (FS.is_file d item = Some true) && image_name item &&
  bool_decide (FS.exists_ d item = Some true) &&
  match FS.stat d item with
  | None => false
  | Some stat_info => negb (FS.st_size stat_info <=? 0)%Z && FS.can_read d item
  end.

(** The items the loop of [get_real_image_files] comes to: those before the
    first one on which [is_file()] raises. *)
Fixpoint reached (d : FS.dir) (all_items : list string) : list string :=
  match all_items with
  | [] => []
  | item :: rest =>
      match FS.is_file d item with
      | None => []
      | Some _ => item :: reached d rest
      end
  end.

(** [is_file()] answers for every entry of the directory. *)
Definition is_file_answers (d : FS.dir) : Prop :=
  map_Forall (λ _ nd, is_Some (FS.n_is_file nd)) d.

Global Instance is_file_answers_dec (d : FS.dir) : Decision (is_file_answers d).
Proof. unfold is_file_answers. apply _. Defined.

(** The directory [process_new_file] goes on with: the one it finds a second
    later when it did not find the file at first. *)
Definition seen_directory (d d_late : FS.dir) (file_path : string) : FS.dir :=
  match FS.exists_ d file_path with
  | Some false => d_late
  | Some true | None => d
  end.

(** Whether [process_new_file] is left for the handler of its [except]:
    [exists()] raises, or the file is found and the pattern of
    [is_already_renamed] is not a regular expression. *)
Definition leaves_by_exception (re_match_renamed : string → string → option bool)
    (h : handler) (d d_late : FS.dir) (file_path : string) : bool :=
  match FS.exists_ (seen_directory d d_late file_path) file_path with
  | None => true
  | Some true => bool_decide (re_match_renamed (prefix h) file_path = None)
  | Some false => false
  end.

(** A file with the key the sort gives it (0 where there is none). *)
Definition decorate {A} (key : A → option Z) (x : A) : Z * A := (default 0%Z (key x), x).

(** The order of the sort on decorated files. *)
Definition key_le {A} (x y : Z * A) : Prop := (x.1 ≤ y.1)%Z.

Global Instance key_le_trans {A} : Transitive (@key_le A).
Proof. intros x y z. unfold key_le. lia. Qed.

Global Instance decorate_inj {A} (key : A → option Z) : Inj (=) (=) (decorate key).
Proof. by intros a b [= _ ->]. Qed.

(** The patterns of the six [glob] calls of the original, without the star,
    and whether a name matches one of them. *)
Definition patterns : list string := [".png"; ".PNG"; ".jpg"; ".JPG"; ".jpeg"; ".JPEG"].

Definition matched (case_sensitive : bool) (name : string) : bool :=
  existsb (λ tail, Original.fnmatch_star case_sensitive tail name) patterns.

(** The test an implementation makes on one name of the enumeration. *)
Definition candidate (impl : implementation) (d : FS.dir) (name : string) : bool :=
  match impl with
  | original cs => matched cs name
  | corrected => accessible d name
  end.

(** The part of the enumeration an implementation comes to look at. *)
Definition considered (impl : implementation) (d : FS.dir) (listing : list string)
    : list string :=
  match impl with
  | original _ => listing
  | corrected => reached d listing
  end.

(** [is_file()] raises on no entry, where the implementation calls it. *)
Definition answering (impl : implementation) (d : FS.dir) : Prop :=
  match impl with
  | original _ => True
  | corrected => is_file_answers d
  end.

Global Instance answering_dec (impl : implementation) (d : FS.dir) :
  Decision (answering impl d).
Proof. destruct impl; apply _. Defined.

(** One case for each implementation. *)
Ltac either_case impl :=
  destruct impl as [[|]|];
  cbn [Either.image_files Either.sorted_files Either.rename_plan
       Either.reorganize_all_files candidate considered answering] in *.

(** Closed statements about the examples are decided by evaluation. *)
Ltac evaluated := apply (bool_decide_unpack _); vm_compute; exact I.

(** Membership in a list written with [++] and [::]. *)
Ltac in_list :=
  repeat (rewrite fmap_app || rewrite fmap_cons || rewrite elem_of_app
          || rewrite elem_of_cons);
  tauto.

(** ** The naming format of the specification *)

(** [^<prefix>_\d{2,}\.(png|jpg|jpeg)$] for a prefix taken literally: the
    prefix, an underscore, at least two digits, a dot and one of the three
    extensions in lower case. *)
Definition wire_format (pfx name : string) : Prop :=
  ∃ digits ext,
    name = pfx +:+ "_" +:+ digits +:+ "." +:+ ext ∧
    Text.all_digits digits = true ∧ 2 ≤ String.length digits ∧
    ext ∈ ["png"; "jpg"; "jpeg"].

(** ** Example directories *)

Module Examples.
Import FS.

(** A complete image file of the given size and creation time. *)
Definition image (size ctime : Z) : node :=
  {| n_kind := File; n_is_file := Some true; n_exists := Some true;
     n_stat := Some {| st_size := size; st_ctime := ctime |}; n_readable := true;
     n_ctimes := [] |}.

(** A phantom entry: it is listed and [stat] answers, no byte can be read. *)
Definition phantom (size ctime : Z) : node :=
  {| n_kind := File; n_is_file := Some true; n_exists := Some true;
     n_stat := Some {| st_size := size; st_ctime := ctime |}; n_readable := false;
     n_ctimes := [] |}.

Definition subdirectory (ctime : Z) : node :=
  {| n_kind := Folder true; n_is_file := Some false; n_exists := Some true;
     n_stat := Some {| st_size := 4096; st_ctime := ctime |}; n_readable := false;
     n_ctimes := [] |}.

Definition horizon : handler := new_handler "Horizon".

(** The scenario of the specification: three files created at 10:00:00,
    10:00:05 and 10:00:10. *)
Definition holiday : dir :=
  list_to_map [("vacation.png", image 2048 36000); ("IMG_002.jpg", image 4096 36005);
               ("Horizon_01.jpeg", image 1024 36010)].
Definition holiday_listing : list string :=
  ["Horizon_01.jpeg"; "IMG_002.jpg"; "vacation.png"].

(** Two files with the same creation time. *)
Definition twins : dir :=
  list_to_map [("a.png", image 10 7); ("b.png", image 10 7)].

(** The same, with two extensions. *)
Definition mixed_twins : dir :=
  list_to_map [("a.png", image 10 7); ("b.jpg", image 10 7)].

(** An image file on a file system that sets [st_ctime] at each rename:
    it carries the times of its renames to come. *)
Definition stamped (size ctime : Z) (ctimes : list Z) : node :=
  {| n_kind := File; n_is_file := Some true; n_exists := Some true;
     n_stat := Some {| st_size := size; st_ctime := ctime |}; n_readable := true;
     n_ctimes := ctimes |}.

(** Three files on such a file system, one of them out of place.  The
    renames of a first pass happen at 100 and 101, those of a second pass
    at 200 and 201. *)
Definition restamped : dir :=
  list_to_map [("Horizon_01.png", stamped 10 1 [200; 201]%Z);
               ("shot.png", stamped 10 2 [100; 101; 200; 201]%Z);
               ("Horizon_03.png", stamped 10 3 [200; 201]%Z)].
Definition restamped_listing : list string :=
  ["Horizon_01.png"; "Horizon_03.png"; "shot.png"].
Definition restamped_listing' : list string :=
  ["Horizon_01.png"; "Horizon_02.png"; "Horizon_03.png"].

(** A file whose whole name is an extension. *)
Definition bare : dir := list_to_map [(".png", image 10 1)].

(** The same file, older than an ordinary image. *)
Definition stray : dir := list_to_map [(".png", image 10 1); ("b.png", image 10 2)].

(** One file, already under its final name. *)
Definition settled : dir := list_to_map [("Horizon_01.png", image 10 1)].

(** A phantom entry next to a real file. *)
Definition haunted : dir :=
  list_to_map [("ghost.png", phantom 10 1); ("real.png", image 10 2)].
Definition haunted_listing : list string := ["ghost.png"; "real.png"].

(** Two files, and a directory that bears the first temporary name. *)
Definition blocked : dir :=
  list_to_map [("a.png", image 10 1); ("b.png", image 10 2);
               ("TEMP_01_Horizon.png", subdirectory 3)].
Definition blocked_listing : list string := ["a.png"; "b.png"; "TEMP_01_Horizon.png"].

(** A subdirectory with an image name, older than the one image file. *)
Definition album : dir :=
  list_to_map [("album.png", subdirectory 1); ("a.png", image 10 2)].
Definition album_listing : list string := ["a.png"; "album.png"].

(** A handler while a pass started by an event is running. *)
Definition busy : handler := set_processing true horizon.

(** A slow copy: the size still grows when the five seconds are over. *)
Definition slow_copy : list Probe.tick :=
  [(1000, Probe.Size 10); (1200, Probe.Size 20); (6200, Probe.Size 30)]%Z.

End Examples.

(** ** The event handlers *)

(** A watchdog event; [dest_path] is read for moved events only.  As for
    the files of a pass, a path stands for the name in the watched
    directory. *)
Record event := {
  is_directory : bool;
  src_path : string;
  dest_path : string;
}.

(** The handlers of [rename_images_watcher_CORRECTED.py].  Each returns the
    handler afterwards and the path [process_new_file] is started on, if a
    thread is started.  [on_modified] calls [is_already_renamed], and is
    left by its exception when the prefix is not a regular expression:
    None. *)
Module CorrectedEvents.

Section Handler.

Variable re_match_renamed : string → string → option bool.

Definition _handle_file_event (h : handler) (current_time : Z) (file_path : string)
    : handler * option string :=
  if Corrected._should_process_file h file_path then
    let '(h', started) := Corrected._debounced_process h current_time file_path in
    (h', if started then Some file_path else None)
  else (h, None).

Definition on_created (h : handler) (current_time : Z) (ev : event)
    : handler * option string :=
  if negb (is_directory ev) then _handle_file_event h current_time (src_path ev)
  else (h, None).

Definition on_modified (h : handler) (current_time : Z) (ev : event)
    : option (handler * option string) :=
  if negb (is_directory ev) then
    match Corrected.is_already_renamed re_match_renamed h (src_path ev) with
    | None => None
    | Some true => Some (h, None)
    | Some false => Some (_handle_file_event h current_time (src_path ev))
    end
  else Some (h, None).

Definition on_moved (h : handler) (current_time : Z) (ev : event)
    : handler * option string :=
  if negb (is_directory ev) then _handle_file_event h current_time (dest_path ev)
  else (h, None).

End Handler.

End CorrectedEvents.

(** The handlers of [rename_images_watcher.py]. *)
Module OriginalEvents.

Section Handler.

Variable re_match_renamed : string → string → option bool.

Definition is_already_renamed (h : handler) (filename : string) : option bool :=
  re_match_renamed (prefix h) filename.

Definition _debounced_process (h : handler) (current_time : Z) (file_path : string)
    : handler * bool :=
  match last_event_time h !! file_path with
  | Some last =>
      let time_diff := (current_time - last)%Z in
      if (time_diff <? debounce_delay h)%Z then (h, false)
      else (set_last_event_time (<[file_path := current_time]> (last_event_time h)) h, true)
  | None =>
      (set_last_event_time (<[file_path := current_time]> (last_event_time h)) h, true)
  end.

Definition _cleanup_event_cache (h : handler) (current_time : Z) : handler :=
  let cutoff_time := (current_time - debounce_delay h * 5)%Z in
  set_last_event_time
    (filter (λ '(path, timestamp), cutoff_time < timestamp)%Z (last_event_time h)) h.

(** What a handler returns after [_debounced_process]: the path the
    thread is started on, when one is started. *)
Definition start (r : handler * bool) (file_path : string) : handler * option string :=
  (r.1, if r.2 then Some file_path else None).

Definition on_created (h : handler) (current_time : Z) (ev : event)
    : handler * option string :=
  if negb (is_directory ev) then
    if image_name (src_path ev) then
      let file_name := src_path ev in
      if Text.startswith file_name "TEMP_" || bool_decide (file_name ∈ temp_files h)
      then (h, None)
      else start (_debounced_process h current_time (src_path ev)) (src_path ev)
    else (h, None)
  else (h, None).

Definition on_modified (h : handler) (current_time : Z) (ev : event)
    : option (handler * option string) :=
  if negb (is_directory ev) then
    if image_name (src_path ev) then
      let file_name := src_path ev in
      if Text.startswith file_name "TEMP_" || bool_decide (file_name ∈ temp_files h)
      then Some (h, None)
      else
        match is_already_renamed h file_name with
        | None => None
        | Some true => Some (h, None)
        | Some false =>
            Some (start (_debounced_process h current_time (src_path ev)) (src_path ev))
        end
    else Some (h, None)
  else Some (h, None).

Definition on_moved (h : handler) (current_time : Z) (ev : event)
    : handler * option string :=
  if negb (is_directory ev) then
    if image_name (dest_path ev) then
      let file_name := dest_path ev in
      if Text.startswith file_name "TEMP_" then (h, None)
      else start (_debounced_process h current_time (dest_path ev)) (dest_path ev)
    else (h, None)
  else (h, None).

End Handler.

End OriginalEvents.

(** What reaches the event cache of a handler, in the order it happens: an
    event that passed the filters, or the cleanup at the end of a pass. *)
Inductive occurrence :=
  | Arrives (current_time : Z) (file_path : string)
  | Cleans (current_time : Z).

Definition occurrence_time (o : occurrence) : Z :=
  match o with Arrives t _ | Cleans t => t end.

(** The occurrences played one after the other: the handler afterwards and
    the events accepted, each with its time. *)
Fixpoint replay (h : handler) (log : list occurrence) : handler * list (Z * string) :=
  match log with
  | [] => (h, [])
  | Arrives t p :: rest =>
      let '(h', started) := Corrected._debounced_process h t p in
      let '(h'', accepted) := replay h' rest in
      (h'', if started then (t, p) :: accepted else accepted)
  | Cleans t :: rest => replay (Corrected._cleanup_cache h t) rest
  end.

(** ** The configuration file ([ConfigManager]) *)

Module Config.

(** A Python [dict] with string keys: the keys in insertion order. *)
Abbreviation dict V := (list (string * V)).

(** [key in m], [m[key]] *)
Fixpoint dict_get {V} (key : string) (m : dict V) : option V :=
  match m with
  | [] => None
  | (k, v) :: rest => if String.eqb k key then Some v else dict_get key rest
  end.

(** [m[key] = v]: a key the dict has keeps its place. *)
Fixpoint dict_set {V} (key : string) (v : V) (m : dict V) : dict V :=
  match m with
  | [] => [(key, v)]
  | (k, v') :: rest =>
      if String.eqb k key then (k, v) :: rest else (k, v') :: dict_set key v rest
  end.

(** One object of [watcher_config.txt].  A field is None when the object
    has no such key; for [name] and [path], also when it holds null. *)
Record config := {
  c_path : option string;
  c_name : option string;
  c_prefix : option string;
  c_last_used : option string;
}.

(** What is on the disk: no file, a file that is empty or is not JSON, or
    a JSON object of such objects. *)
Inductive file :=
  | Missing
  | Garbled
  | Holds (configs : dict config).

(** The truth value of a string or None. *)
Definition truthy (s : option string) : bool :=
  match s with
  | Some s => negb (String.eqb s "")
  | None => false
  end.

Section Manager.

(** Whether [open(config_file, 'w')] succeeds. *)
Variable writable : bool.

Definition save_configs (f : file) (configs : dict config) : file :=
  if writable then Holds configs else f.

Definition load_configs (f : file) : file * dict config :=
  match f with
  | Missing => (save_configs f [], [])
  | Garbled => (f, [])
  | Holds configs => (f, configs)
  end.

(** The dict comprehension of [get_paths], entry after entry. *)
Fixpoint collect_paths (values : list config) (paths : dict string) : dict string :=
  match values with
  | [] => paths
  | config :: rest =>
      match c_name config, c_path config with
      | Some name, Some path =>
          if truthy (Some name) && truthy (Some path)
          then collect_paths rest (dict_set name path paths)
          else collect_paths rest paths
      | _, _ => collect_paths rest paths
      end
  end.

Definition get_paths (f : file) : file * dict string :=
  let '(f, configs) := load_configs f in
  (f, collect_paths configs.*2 []).





End Manager.

End Config.

(** A platform on which a rename never takes the place of another entry. *)
Definition never_overwrites (refuses : FS.dir → string → string → bool) : Prop :=
  ∀ d src dst, src ≠ dst → is_Some (d !! dst) → refuses d src dst = true.

(** The entries of a directory without their names. *)
Definition contents (d : FS.dir) : list FS.node := (map_to_list d).*2.

(** An entry without what a rename can change of it: [st_ctime] and the
    times to come. *)
Definition timeless (nd : FS.node) : FS.node :=
  {| FS.n_kind := FS.n_kind nd; FS.n_is_file := FS.n_is_file nd;
     FS.n_exists := FS.n_exists nd;
     FS.n_stat := (λ st, {| FS.st_size := FS.st_size st; FS.st_ctime := 0 |}) <$> FS.n_stat nd;
     FS.n_readable := FS.n_readable nd; FS.n_ctimes := [] |}.

(** What a pass keeps of a directory [d] in the directory [d'] it leaves:
    the entries up to their times and, where renames keep the creation
    time, the entries. *)
Definition kept (d d' : FS.dir) : Prop :=
  timeless <$> contents d' ≡ₚ timeless <$> contents d ∧
  (FS.keeps_ctime d → FS.keeps_ctime d' ∧ contents d' ≡ₚ contents d).

(** ** More example directories *)

Module Scenes.
Import FS.

(** An image next to an entry whose [stat] fails (a dangling link). *)
Definition dangling : dir :=
  list_to_map [("a.png", Examples.image 10 1);
               ("link.png", {| n_kind := File; n_is_file := Some false;
                               n_exists := Some false; n_stat := None;
                               n_readable := false; n_ctimes := [] |})].
Definition dangling_listing : list string := ["a.png"; "link.png"].

(** An entry on which [is_file()] raises, listed between two images. *)
Definition denied : dir :=
  list_to_map [("a.png", Examples.image 10 1);
               ("link.txt", {| n_kind := File; n_is_file := None; n_exists := None;
                               n_stat := None; n_readable := false; n_ctimes := [] |});
               ("b.png", Examples.image 10 2)].
Definition denied_listing : list string := ["a.png"; "link.txt"; "b.png"].

(** A cache with an entry old enough to be dropped at 10 s and one that
    is not. *)
Definition remembering : handler :=
  set_last_event_time {[ "old.png" := 1000%Z; "new.png" := 9000%Z ]} Examples.horizon.

End Scenes.

(** * Proofs *)

(** ** Strings *)

Section text_facts.
Import Text.

Lemma sapp_cons (a : ascii) (s t : string) : String a s +:+ t = String a (s +:+ t).
Proof. reflexivity. Qed.

Lemma sapp_nil_l (s : string) : "" +:+ s = s.
Proof. reflexivity. Qed.

Lemma sapp_nil_r (s : string) : s +:+ "" = s.
Proof. induction s as [|a s IH]; [done|]. by rewrite sapp_cons, IH. Qed.

Lemma sapp_assoc (s t u : string) : (s +:+ t) +:+ u = s +:+ t +:+ u.
Proof. induction s as [|a s IH]; [done|]. by rewrite !sapp_cons, IH. Qed.

Lemma sapp_length (s t : string) :
  String.length (s +:+ t) = String.length s + String.length t.
Proof. induction s as [|a s IH]; [done|]. rewrite sapp_cons. simpl. by rewrite IH. Qed.

Lemma sapp_eq_nil (s t : string) : s +:+ t = "" → s = "" ∧ t = "".
Proof. destruct s; [done|]. by rewrite sapp_cons. Qed.

Lemma count_char_app (c : ascii) (s t : string) :
  count_char c (s +:+ t) = count_char c s + count_char c t.
Proof.
  induction s as [|a s IH]; [done|]. rewrite sapp_cons. simpl. rewrite IH. lia.
Qed.

(** *** Lower case *)

Lemma lower_app (s t : string) : lower (s +:+ t) = lower s +:+ lower t.
Proof. induction s as [|a s IH]; [done|]. rewrite sapp_cons. simpl. by rewrite IH, sapp_cons. Qed.

Lemma lower_char_idemp (c : ascii) : lower_char (lower_char c) = lower_char c.
Proof. by destruct c as [[] [] [] [] [] [] [] []]. Qed.

Lemma lower_idemp (s : string) : lower (lower s) = lower s.
Proof. induction s as [|a s IH]; [done|]. simpl. by rewrite lower_char_idemp, IH. Qed.

Lemma lower_char_not_T (c : ascii) : lower_char c ≠ "T"%char.
Proof. by destruct c as [[] [] [] [] [] [] [] []]. Qed.

Lemma lower_char_dot (c : ascii) : lower_char c = "."%char ↔ c = "."%char.
Proof. by destruct c as [[] [] [] [] [] [] [] []]. Qed.

Lemma lower_char_digit (c : ascii) : is_digit (lower_char c) = is_digit c.
Proof. by destruct c as [[] [] [] [] [] [] [] []]. Qed.

Lemma count_T_lower (s : string) : count_char "T" (lower s) = 0.
Proof.
  induction s as [|a s IH]; [done|]. simpl. rewrite IH.
  destruct (Ascii.eqb_spec (lower_char a) "T"); [|done].
  by destruct (lower_char_not_T a).
Qed.

Lemma count_dot_lower (s : string) : count_char "." (lower s) = count_char "." s.
Proof.
  induction s as [|a s IH]; [done|]. simpl. rewrite IH. f_equal.
  destruct (Ascii.eqb_spec (lower_char a) ".") as [Hl|Hl],
    (Ascii.eqb_spec a ".") as [Ha|Ha]; try done.
  - destruct Ha. by apply lower_char_dot.
  - by subst a.
Qed.

(** A lowered string that splits comes from a string that splits there. *)
Lemma lower_split (s a b : string) :
  lower s = a +:+ b → ∃ s1 s2, s = s1 +:+ s2 ∧ lower s1 = a ∧ lower s2 = b.
Proof.
  revert s. induction a as [|c a IH]; intros s Hs.
  - by exists "", s.
  - destruct s as [|c' s]; [done|]. rewrite sapp_cons in Hs. simpl in Hs.
    injection Hs as Hc Hs. destruct (IH _ Hs) as (s1 & s2 & -> & <- & <-).
    exists (String c' s1), s2. by rewrite sapp_cons, <-Hc.
Qed.

(** *** [endswith] *)

Lemma endswith_unfold (s suf : string) :
  endswith s suf =
    if String.eqb s suf then true
    else match s with EmptyString => false | String _ s' => endswith s' suf end.
Proof. by destruct s. Qed.

Lemma endswith_split (s suf : string) :
  endswith s suf = true ↔ ∃ pre, s = pre +:+ suf.
Proof.
  split.
  - induction s as [|a s IH]; rewrite endswith_unfold.
    + destruct (String.eqb_spec "" suf) as [<-|_]; [by exists ""|done].
    + destruct (String.eqb_spec (String a s) suf) as [<-|_]; [by exists ""|].
      intros [pre ->]%IH. by exists (String a pre).
  - intros [pre ->]. induction pre as [|a pre IH]; rewrite endswith_unfold.
    + by rewrite sapp_nil_l, String.eqb_refl.
    + rewrite sapp_cons, IH. by destruct (String.eqb _ _).
Qed.

(** *** Decimal numbers *)

Lemma read_nat_stop (acc : nat) (s : string) :
  no_digit_ahead s → read_nat acc s = (acc, s).
Proof. destruct s; [done|]. simpl. by intros ->. Qed.

Lemma read_nat_app (acc : nat) (s rest : string) :
  all_digits s = true → read_nat acc (s +:+ rest) = read_nat (read_nat acc s).1 rest.
Proof.
  revert acc. induction s as [|a s IH]; intros acc Hs; [done|].
  simpl in Hs. apply andb_prop in Hs as [Ha Hs].
  rewrite sapp_cons. simpl. rewrite Ha. by apply IH.
Qed.

Lemma all_digits_app (s t : string) :
  all_digits (s +:+ t) = all_digits s && all_digits t.
Proof.
  induction s as [|a s IH]; [done|]. rewrite sapp_cons. simpl.
  by rewrite IH, andb_assoc.
Qed.

Lemma digit_char_spec (d : nat) :
  d < 10 → is_digit (digit_char d) = true ∧ nat_of_ascii (digit_char d) - 48 = d.
Proof.
  intros Hd. do 10 (destruct d as [|d]; [done|]). lia.
Qed.

Lemma digits_fuel_spec (fuel n : nat) :
  n < fuel →
  all_digits (digits_fuel fuel n) = true ∧
  (read_nat 0 (digits_fuel fuel n)).1 = n ∧
  1 ≤ String.length (digits_fuel fuel n) ∧
  (10 ≤ n → 2 ≤ String.length (digits_fuel fuel n)).
Proof.
  revert n. induction fuel as [|fuel IH]; intros n Hn; [lia|].
  cbn [digits_fuel]. destruct (Nat.ltb_spec n 10) as [Hlt|Hge].
  - destruct (digit_char_spec n Hlt) as [Hd Hv].
    cbn [all_digits read_nat String.length]. rewrite Hd, Hv.
    repeat split; cbn [fst]; lia.
  - assert (n / 10 < fuel) as Hq.
    { pose proof (Nat.div_lt n 10). lia. }
    destruct (IH _ Hq) as (Hall & Hval & Hlen & _).
    assert (n mod 10 < 10) as Hm by (apply Nat.mod_upper_bound; lia).
    destruct (digit_char_spec _ Hm) as [Hd Hv].
    rewrite all_digits_app, read_nat_app, sapp_length by done.
    rewrite Hall, Hval. cbn [all_digits read_nat String.length andb].
    rewrite Hd, Hv. cbn [fst].
    pose proof (Nat.div_mod_eq n 10). repeat split; lia.
Qed.

Lemma fmt_02d_digits (n : nat) : all_digits (fmt_02d n) = true.
Proof.
  unfold fmt_02d, str_of_nat.
  destruct (digits_fuel_spec (S n) n) as (Hall & _); [lia|].
  destruct (_ <? 2); [|done]. by rewrite sapp_cons, sapp_nil_l.
Qed.

Lemma fmt_02d_value (n : nat) : (read_nat 0 (fmt_02d n)).1 = n.
Proof.
  unfold fmt_02d, str_of_nat.
  destruct (digits_fuel_spec (S n) n) as (_ & Hval & _); [lia|].
  destruct (_ <? 2); [|done]. by rewrite sapp_cons, sapp_nil_l.
Qed.

Lemma fmt_02d_length (n : nat) : 2 ≤ String.length (fmt_02d n).
Proof.
  unfold fmt_02d, str_of_nat.
  destruct (digits_fuel_spec (S n) n) as (_ & _ & Hlen & _); [lia|].
  destruct (Nat.ltb_spec (String.length (digits_fuel (S n) n)) 2); [|done].
  rewrite sapp_length. cbn [String.length]. lia.
Qed.

(** From 10 on nothing is padded: the number is printed as it is. *)
Lemma fmt_02d_large (n : nat) : 10 ≤ n → fmt_02d n = str_of_nat n.
Proof.
  intros Hn. unfold fmt_02d, str_of_nat.
  destruct (digits_fuel_spec (S n) n) as (_ & _ & _ & Hlen); [lia|].
  destruct (Nat.ltb_spec (String.length (digits_fuel (S n) n)) 2); [|done].
  specialize (Hlen Hn). lia.
Qed.

(** The number can be read back, whatever follows it. *)
Lemma read_fmt_02d (n : nat) (rest : string) :
  no_digit_ahead rest → read_nat 0 (fmt_02d n +:+ rest) = (n, rest).
Proof.
  intros Hrest. rewrite read_nat_app by apply fmt_02d_digits.
  rewrite fmt_02d_value. by apply read_nat_stop.
Qed.

Lemma fmt_02d_app_inj (n m : nat) (s t : string) :
  no_digit_ahead s → no_digit_ahead t →
  fmt_02d n +:+ s = fmt_02d m +:+ t → n = m ∧ s = t.
Proof.
  intros Hs Ht Heq. apply (f_equal (read_nat 0)) in Heq.
  rewrite !read_fmt_02d in Heq by done. by simplify_eq.
Qed.

Lemma count_char_digits (c : ascii) (s : string) :
  is_digit c = false → all_digits s = true → count_char c s = 0.
Proof.
  intros Hc. induction s as [|a s IH]; [done|]. simpl.
  intros [Ha Hs]%andb_prop. rewrite IH by done.
  destruct (Ascii.eqb_spec a c) as [->|]; [congruence|done].
Qed.

(** *** The decimal writing of the specification *)

Lemma pretty_N_go_app (x : N) (s : string) : pretty_N_go x s = pretty_N_go x "" +:+ s.
Proof.
  revert s. induction (N.lt_wf_0 x) as [x _ IH]; intros s.
  destruct (decide (x = 0)%N) as [->|Hx]; [by rewrite !pretty_N_go_0|].
  rewrite (pretty_N_go_step x s), (pretty_N_go_step x "") by lia.
  assert (x `div` 10 < x)%N as Hlt by (apply N.div_lt; lia).
  rewrite (IH _ Hlt (String _ s)), (IH _ Hlt (String _ "")).
  by rewrite sapp_assoc.
Qed.

Lemma digit_char_pretty (d : nat) : d < 10 → digit_char d = pretty_N_char (N.of_nat d).
Proof. intros Hd. do 10 (destruct d as [|d]; [done|]). lia. Qed.

Lemma digits_fuel_pretty (fuel n : nat) :
  n < fuel → 0 < n → digits_fuel fuel n = pretty_N_go (N.of_nat n) "".
Proof.
  revert n. induction fuel as [|fuel IH]; intros n Hn Hpos; [lia|].
  cbn [digits_fuel]. rewrite pretty_N_go_step by lia.
  assert (N.of_nat n `mod` 10 = N.of_nat (n mod 10))%N as Hm by (by rewrite Nat2N.inj_mod).
  assert (N.of_nat n `div` 10 = N.of_nat (n / 10))%N as Hq by (by rewrite Nat2N.inj_div).
  assert (n mod 10 < 10) as Hlt by (apply Nat.mod_upper_bound; lia).
  rewrite Hm, Hq, <-digit_char_pretty by done.
  destruct (Nat.ltb_spec n 10) as [Hsmall|Hbig].
  - rewrite Nat.div_small, Nat.mod_small by done. by rewrite pretty_N_go_0.
  - rewrite pretty_N_go_app. f_equal. apply IH.
    + pose proof (Nat.div_lt n 10). lia.
    + apply Nat.div_str_pos. lia.
Qed.

Lemma str_of_nat_pretty (n : nat) : str_of_nat n = pretty n.
Proof.
  unfold str_of_nat. destruct n as [|n]; [done|].
  rewrite digits_fuel_pretty by lia.
  unfold pretty, pretty_nat, pretty, pretty_N. by rewrite decide_False by lia.
Qed.

Lemma fmt_02d_zero_padded (n : nat) : fmt_02d n = zero_padded n.
Proof.
  unfold zero_padded. destruct (decide (n < 10)) as [Hn|Hn].
  - rewrite <-str_of_nat_pretty. do 10 (destruct n as [|n]; [done|]). lia.
  - rewrite fmt_02d_large by lia. apply str_of_nat_pretty.
Qed.

End text_facts.

(** ** File names *)

Section name_facts.
Import Text PurePath.

Lemma rfind_none (c : ascii) (s : string) : count_char c s = 0 → rfind s c = None.
Proof.
  induction s as [|a s IH]; [done|]. cbn [count_char rfind].
  destruct (Ascii.eqb a c); [done|]. intros Hs. by rewrite IH.
Qed.

Lemma rfind_last (c : ascii) (pre r : string) :
  count_char c r = 0 → rfind (pre +:+ String c r) c = Some (String.length pre).
Proof.
  intros Hr. induction pre as [|a pre IH].
  - rewrite sapp_nil_l. cbn [rfind]. by rewrite rfind_none, Ascii.eqb_refl.
  - rewrite sapp_cons. cbn [rfind]. by rewrite IH.
Qed.

Lemma rfind_slice (c : ascii) (s : string) (i : nat) :
  rfind s c = Some i → ∃ r, slice_from i s = String c r.
Proof.
  revert i. induction s as [|a s IH]; intros i; [done|]. cbn [rfind].
  destruct (rfind s c) as [j|].
  - intros [= <-]. by apply IH.
  - destruct (Ascii.eqb_spec a c) as [->|]; [|done]. intros [= <-]. by eexists.
Qed.

Lemma slice_from_app (pre e : string) : slice_from (String.length pre) (pre +:+ e) = e.
Proof. induction pre as [|a pre IH]; [by destruct e|]. by rewrite sapp_cons. Qed.

(** The suffix is empty or starts with its dot. *)
Lemma suffix_cases (name : string) :
  suffix name = "" ∨ ∃ r, suffix name = String "." r.
Proof.
  unfold suffix. destruct (rfind name ".") as [i|] eqn:Hi; [|by left].
  destruct (_ && _); [|by left]. right. by apply rfind_slice.
Qed.

Lemma suffix_app (pre r : string) :
  pre ≠ "" → r ≠ "" → count_char "." r = 0 →
  suffix (pre +:+ String "." r) = String "." r.
Proof.
  intros Hpre Hr Hdot. unfold suffix. rewrite rfind_last by done.
  rewrite sapp_length, slice_from_app. cbn [String.length].
  destruct pre as [|a pre]; [done|]. destruct r as [|b r]; [done|].
  cbn [String.length].
  destruct (Nat.ltb_spec 0 (S (String.length pre))); [|lia].
  by destruct (Nat.ltb_spec (S (String.length pre))
                 (S (String.length pre) + S (S (String.length r)) - 1)); [|lia].
Qed.

Lemma suffix_bare (r : string) : count_char "." r = 0 → suffix (String "." r) = "".
Proof.
  intros Hdot. unfold suffix.
  by rewrite <-(sapp_nil_l (String "." r)), rfind_last.
Qed.

Lemma no_digit_ahead_ext (name : string) : no_digit_ahead (lower (suffix name)).
Proof. by destruct (suffix_cases name) as [->|[r ->]]. Qed.

(** *** Image names *)

Lemma image_ext_shape (e : string) :
  lower e ∈ image_exts → ∃ r, e = String "." r ∧ r ≠ "" ∧ count_char "." r = 0.
Proof.
  intros He.
  assert (count_char "." e = 1 ∧ ∃ c r, lower e = String "." (String c r)) as [Hcount Hl].
  { rewrite <-count_dot_lower. unfold image_exts in He.
    rewrite !elem_of_cons, elem_of_nil in He.
    destruct He as [->|[->|[->|[]]]]; by eauto. }
  destruct Hl as (c & r & Hl). destruct e as [|a [|b e]]; [done..|].
  cbn [lower] in Hl. assert (a = "."%char) as ->.
  { apply lower_char_dot. congruence. }
  exists (String b e). split_and!; [done..|].
  cbn [count_char] in Hcount |- *. rewrite Ascii.eqb_refl in Hcount. lia.
Qed.

Lemma image_name_split (name : string) :
  image_name name = true ↔ ∃ pre e, name = pre +:+ e ∧ lower e ∈ image_exts.
Proof.
  unfold image_name, image_exts. rewrite !orb_true_iff, !endswith_split. split.
  - intros [[[p Hp]|[p Hp]]|[p Hp]];
      apply lower_split in Hp as (pre & e & -> & _ & He);
      exists pre, e; rewrite He; split; [done| |done| |done|];
      rewrite !elem_of_cons; auto.
  - intros (pre & e & -> & He). rewrite !elem_of_cons, elem_of_nil in He.
    rewrite lower_app. destruct He as [->|[->|[->|[]]]]; eauto.
Qed.

(** An image name has the extension it ends with as its suffix, unless it
    is nothing but that extension: then it has no suffix at all. *)
Lemma image_suffix (name : string) :
  image_name name = true →
  (suffix name = "" ∧ lower name ∈ image_exts) ∨
  (suffix name ≠ "" ∧ lower (suffix name) ∈ image_exts).
Proof.
  intros (pre & e & -> & He)%image_name_split.
  destruct (image_ext_shape _ He) as (r & -> & Hr & Hdot).
  destruct pre as [|a pre].
  - left. by rewrite sapp_nil_l, suffix_bare.
  - right. by rewrite suffix_app.
Qed.

Lemma image_suffix_lower (name : string) :
  image_name name = true → suffix name ≠ "" → lower (suffix name) ∈ image_exts.
Proof. intros [[? _]|[_ ?]]%image_suffix ?; done. Qed.

(** *** The names of a plan *)

Lemma expected_name_inj (pfx : string) (i j : nat) (n1 n2 : string) :
  expected_name pfx i n1 = expected_name pfx j n2 → i = j.
Proof.
  unfold expected_name. intros H%(inj _)%(inj _).
  apply fmt_02d_app_inj in H as [? _]; [lia|apply no_digit_ahead_ext..].
Qed.

Lemma temp_name_inj (pfx : string) (i j : nat) (n1 n2 : string) :
  temp_name pfx i n1 = temp_name pfx j n2 → i = j.
Proof.
  unfold temp_name. intros H%(inj _).
  apply fmt_02d_app_inj in H as [? _]; [lia|done..].
Qed.

Lemma count_T_expected (pfx : string) (i : nat) (name : string) :
  count_char "T" (expected_name pfx i name) = count_char "T" pfx.
Proof.
  unfold expected_name. rewrite !count_char_app, count_T_lower.
  rewrite (count_char_digits "T" (fmt_02d _)) by (done || apply fmt_02d_digits).
  change (count_char "T" "_") with 0. lia.
Qed.

Lemma count_T_temp (pfx : string) (i : nat) (name : string) :
  count_char "T" (temp_name pfx i name) = S (count_char "T" pfx).
Proof.
  unfold temp_name. rewrite !count_char_app, count_T_lower.
  rewrite (count_char_digits "T" (fmt_02d _)) by (done || apply fmt_02d_digits).
  change (count_char "T" "TEMP_") with 1. change (count_char "T" "_") with 0. lia.
Qed.

(** The marker tells a temporary name from every final name: a temporary
    name has one capital T more than the prefix, a final name as many. *)
Lemma temp_ne_expected (pfx : string) (i j : nat) (n1 n2 : string) :
  temp_name pfx i n1 ≠ expected_name pfx j n2.
Proof.
  intros H%(f_equal (count_char "T")). rewrite count_T_temp, count_T_expected in H. lia.
Qed.

(** A final name with an image extension is an image name whose suffix is
    that extension: the pass would give it the same name again. *)
Lemma expected_name_suffix (pfx : string) (i : nat) (name : string) :
  lower (suffix name) ∈ image_exts →
  image_name (expected_name pfx i name) = true ∧
  suffix (expected_name pfx i name) = lower (suffix name).
Proof.
  intros He. split.
  - apply image_name_split. unfold expected_name.
    exists (pfx +:+ "_" +:+ fmt_02d (i + 1)), (lower (suffix name)).
    by rewrite !sapp_assoc, lower_idemp.
  - assert (lower (lower (suffix name)) ∈ image_exts) as He' by by rewrite lower_idemp.
    destruct (image_ext_shape _ He') as (r & Hr & ? & ?).
    unfold expected_name. rewrite Hr, <-!sapp_assoc. apply suffix_app; try done.
    intros [[_ [=]]%sapp_eq_nil _]%sapp_eq_nil.
Qed.

Lemma expected_name_fixed (pfx : string) (i : nat) (name : string) :
  lower (suffix name) ∈ image_exts →
  expected_name pfx i (expected_name pfx i name) = expected_name pfx i name.
Proof.
  intros He. destruct (expected_name_suffix pfx i name He) as [_ Hs].
  unfold expected_name at 1. by rewrite Hs, lower_idemp.
Qed.

End name_facts.

(** ** The plan *)

Section plan_facts.

Lemma corrected_plan_loop (pfx : string) (i : nat) (files : list string) (renames : list entry) :
  Corrected.plan_loop pfx i files renames = renames ++ plan_from pfx i files.
Proof.
  revert i renames. induction files as [|name rest IH]; intros i renames.
  - by rewrite app_nil_r.
  - cbn [Corrected.plan_loop plan_from].
    destruct (String.eqb_spec name (expected_name pfx i name)) as [Heq|Hne]; cbn [negb].
    + rewrite bool_decide_eq_false_2 by (by intros []). apply IH.
    + rewrite bool_decide_eq_true_2 by done. by rewrite IH, <-app_assoc.
Qed.

Lemma original_plan_loop (pfx : string) (i : nat) (files : list string)
    (temp_names : list entry) (files_to_rename : list string) :
  Original.plan_loop pfx i files temp_names files_to_rename =
    (temp_names ++ plan_from pfx i files,
     files_to_rename ++ (e_path <$> plan_from pfx i files)).
Proof.
  revert i temp_names files_to_rename.
  induction files as [|name rest IH]; intros i temp_names files_to_rename.
  - by rewrite !app_nil_r.
  - cbn [Original.plan_loop plan_from].
    destruct (String.eqb_spec name (expected_name pfx i name)) as [Heq|Hne]; cbn [negb].
    + rewrite bool_decide_eq_false_2 by (by intros []). apply IH.
    + rewrite bool_decide_eq_true_2 by done. by rewrite IH, fmap_cons, <-!app_assoc.
Qed.

(** The names of the code, written as the specification writes them. *)
Lemma expected_name_spec (pfx : string) (i : nat) (name : string) :
  expected_name pfx i name
  = pfx +:+ "_" +:+ zero_padded (i + 1) +:+ Text.lower (PurePath.suffix name).
Proof. unfold expected_name. by rewrite fmt_02d_zero_padded. Qed.

Lemma temp_name_spec (pfx : string) (i : nat) (name : string) :
  temp_name pfx i name
  = "TEMP_" +:+ zero_padded (i + 1) +:+ "_" +:+ pfx +:+ Text.lower (PurePath.suffix name).
Proof. unfold temp_name. by rewrite fmt_02d_zero_padded. Qed.

Lemma spec_plan_from (pfx : string) (k : nat) (files : list string) :
  omap (λ '(i, name),
          let ext := Text.lower (PurePath.suffix name) in
          let finalName := pfx +:+ "_" +:+ zero_padded (i + 1) +:+ ext in
          let temporaryName := "TEMP_" +:+ zero_padded (i + 1) +:+ "_" +:+ pfx +:+ ext in
          if bool_decide (name ≠ finalName)
          then Some (name, temporaryName, finalName)
          else None)
       (imap (λ i name, (k + i, name)) files)
  = plan_from pfx k files.
Proof.
  revert k. induction files as [|name rest IH]; intros k; [done|].
  cbn [plan_from]. rewrite <-(IH (S k)). cbn [imap]. rewrite Nat.add_0_r.
  assert (imap ((λ i name0, (k + i, name0)) ∘ S) rest
          = imap (λ i name0, (S k + i, name0)) rest) as ->.
  { apply imap_ext. intros i x _. cbn. f_equal. lia. }
  cbn [omap list_omap]. cbv zeta. rewrite <-expected_name_spec, <-temp_name_spec.
  by destruct (bool_decide _).
Qed.

Lemma elem_of_plan_from (pfx : string) (k : nat) (files : list string) (e : entry) :
  e ∈ plan_from pfx k files ↔
  ∃ i name, files !! i = Some name ∧ name ≠ expected_name pfx (k + i) name ∧
            e = (name, temp_name pfx (k + i) name, expected_name pfx (k + i) name).
Proof.
  revert k. induction files as [|name rest IH]; intros k; cbn [plan_from].
  - rewrite elem_of_nil. split; [done|]. by intros (i & n & ? & _).
  - assert (e ∈ plan_from pfx (S k) rest ↔
            ∃ i n, (name :: rest) !! S i = Some n ∧ n ≠ expected_name pfx (k + S i) n ∧
                   e = (n, temp_name pfx (k + S i) n, expected_name pfx (k + S i) n)) as Htl.
    { rewrite IH. split; intros (i & n & Hi & Hn); exists i, n; split; try done.
      - by rewrite <-Nat.add_succ_comm.
      - by rewrite Nat.add_succ_comm. }
    case_bool_decide as Hne.
    + rewrite elem_of_cons, Htl. split.
      * intros [->|(i & n & ?)]; [|by eauto].
        exists 0, name. by rewrite Nat.add_0_r.
      * intros ([|i] & n & Hi & Hn & ->); [|by eauto 10].
        left. cbn in Hi. injection Hi as ->. by rewrite Nat.add_0_r.
    + rewrite Htl. split; [by intros (i & n & ?); eauto|].
      intros ([|i] & n & Hi & Hn & ->); [|by eauto 10].
      cbn in Hi. injection Hi as ->. rewrite Nat.add_0_r in Hn. by destruct Hne.
Qed.

(** The entries of a plan come in ascending index order. *)
Lemma plan_from_split (pfx : string) (k : nat) (files : list string)
    (pl1 pl2 : list entry) (e1 e2 : entry) :
  plan_from pfx k files = pl1 ++ e1 :: pl2 → e2 ∈ pl2 →
  ∃ i j n1 n2, i < j ∧ files !! i = Some n1 ∧ files !! j = Some n2 ∧
    e1 = (n1, temp_name pfx (k + i) n1, expected_name pfx (k + i) n1) ∧
    e2 = (n2, temp_name pfx (k + j) n2, expected_name pfx (k + j) n2).
Proof.
  revert k pl1. induction files as [|name rest IH]; intros k pl1; cbn [plan_from].
  - by destruct pl1.
  - assert (∀ pl1, plan_from pfx (S k) rest = pl1 ++ e1 :: pl2 → e2 ∈ pl2 →
            ∃ i j n1 n2, i < j ∧ (name :: rest) !! i = Some n1 ∧
              (name :: rest) !! j = Some n2 ∧
              e1 = (n1, temp_name pfx (k + i) n1, expected_name pfx (k + i) n1) ∧
              e2 = (n2, temp_name pfx (k + j) n2, expected_name pfx (k + j) n2)) as Htl.
    { intros pl Hpl He2. destruct (IH _ _ Hpl He2) as (i & j & n1 & n2 & ? & ? & ? & -> & ->).
      exists (S i), (S j), n1, n2. rewrite <-!Nat.add_succ_comm.
      split_and!; [lia|done..]. }
    case_bool_decide as Hne; [|by apply Htl].
    destruct pl1 as [|e pl1]; cbn; intros [= <- Hpl] He2; [|by eapply Htl].
    rewrite <-Hpl in He2. apply elem_of_plan_from in He2 as (j & n2 & Hj & _ & ->).
    exists 0, (S j), name, n2. rewrite <-Nat.add_succ_comm, Nat.add_0_r.
    split_and!; [lia|done..].
Qed.

Lemma plan_from_temps_NoDup (pfx : string) (k : nat) (files : list string) :
  NoDup (e_temp <$> plan_from pfx k files).
Proof.
  remember (plan_from pfx k files) as plan eqn:Hplan.
  assert (∀ pl1 e1 pl2, plan = pl1 ++ e1 :: pl2 → e_temp e1 ∉ e_temp <$> pl2) as Hsplit.
  { intros pl1 e1 pl2 Hpl (e2 & Heq & He2)%list_elem_of_fmap. subst plan.
    destruct (plan_from_split _ _ _ _ _ _ _ Hpl He2)
      as (i & j & n1 & n2 & Hij & _ & _ & -> & ->).
    apply temp_name_inj in Heq. lia. }
  clear Hplan. induction plan as [|e pl IH]; [constructor|].
  rewrite fmap_cons. constructor; [by apply (Hsplit [])|].
  apply IH. intros pl1 e1 pl2 ->. by apply (Hsplit (e :: pl1)).
Qed.

Lemma plan_from_finals_NoDup (pfx : string) (k : nat) (files : list string) :
  NoDup (e_final <$> plan_from pfx k files).
Proof.
  remember (plan_from pfx k files) as plan eqn:Hplan.
  assert (∀ pl1 e1 pl2, plan = pl1 ++ e1 :: pl2 → e_final e1 ∉ e_final <$> pl2) as Hsplit.
  { intros pl1 e1 pl2 Hpl (e2 & Heq & He2)%list_elem_of_fmap. subst plan.
    destruct (plan_from_split _ _ _ _ _ _ _ Hpl He2)
      as (i & j & n1 & n2 & Hij & _ & _ & -> & ->).
    apply expected_name_inj in Heq. lia. }
  clear Hplan. induction plan as [|e pl IH]; [constructor|].
  rewrite fmap_cons. constructor; [by apply (Hsplit [])|].
  apply IH. intros pl1 e1 pl2 ->. by apply (Hsplit (e :: pl1)).
Qed.

Lemma plan_from_paths_NoDup (pfx : string) (k : nat) (files : list string) :
  NoDup files → NoDup (e_path <$> plan_from pfx k files).
Proof.
  intros Hfiles.
  remember (plan_from pfx k files) as plan eqn:Hplan.
  assert (∀ pl1 e1 pl2, plan = pl1 ++ e1 :: pl2 → e_path e1 ∉ e_path <$> pl2) as Hsplit.
  { intros pl1 e1 pl2 Hpl (e2 & Heq & He2)%list_elem_of_fmap. subst plan.
    destruct (plan_from_split _ _ _ _ _ _ _ Hpl He2)
      as (i & j & n1 & n2 & Hij & Hi & Hj & -> & ->).
    cbn in Heq. subst n2. pose proof (NoDup_lookup _ _ _ _ Hfiles Hi Hj). lia. }
  clear Hplan. induction plan as [|e pl IH]; [constructor|].
  rewrite fmap_cons. constructor; [by apply (Hsplit [])|].
  apply IH. intros pl1 e1 pl2 ->. by apply (Hsplit (e :: pl1)).
Qed.

Lemma plan_from_temp_ne_final (pfx : string) (k : nat) (files : list string) (e1 e2 : entry) :
  e1 ∈ plan_from pfx k files → e2 ∈ plan_from pfx k files → e_temp e1 ≠ e_final e2.
Proof.
  intros (i & n1 & _ & _ & ->)%elem_of_plan_from (j & n2 & _ & _ & ->)%elem_of_plan_from.
  apply temp_ne_expected.
Qed.

End plan_facts.

(** ** Renames on the directory *)

Section rename_facts.
Import FS.
Variable refuses : dir → string → string → bool.

Lemma rename_Some (d d' : dir) (src dst : string) :
  rename refuses d src dst = Some d' →
  ∃ nd, d !! src = Some nd ∧ d' = <[dst := renamed nd]> (delete src d).
Proof.
  unfold rename. destruct (d !! src) as [nd|]; [|done].
  destruct (refuses d src dst); [done|]. intros [= <-]. by exists nd.
Qed.

Lemma rename_all_app (rs1 rs2 : list (string * string)) (d : dir) :
  rename_all refuses (rs1 ++ rs2) d = rename_all refuses rs1 d ≫= rename_all refuses rs2.
Proof.
  revert d. induction rs1 as [|[s t] rs1 IH]; intros d; [done|].
  cbn [app rename_all]. destruct (rename refuses d s t) as [d1|]; [|done]. apply IH.
Qed.

Lemma rename_all_untouched (rs : list (string * string)) (d d' : dir) (x : string) :
  rename_all refuses rs d = Some d' → x ∉ rs.*1 → x ∉ rs.*2 → d' !! x = d !! x.
Proof.
  revert d. induction rs as [|[s t] rs IH]; intros d; cbn [rename_all].
  - by intros [= ->].
  - rewrite !fmap_cons, !not_elem_of_cons. cbn.
    destruct (rename refuses d s t) as [d1|] eqn:Hr; [|done]. cbn.
    intros Hrs [Hs ?] [Ht ?]. rewrite (IH d1) by done.
    apply rename_Some in Hr as (nd & _ & ->).
    by rewrite lookup_insert_ne, lookup_delete_ne.
Qed.

Lemma rename_all_absent (rs : list (string * string)) (d d' : dir) (x : string) :
  rename_all refuses rs d = Some d' → d !! x = None → x ∉ rs.*2 → d' !! x = None.
Proof.
  revert d. induction rs as [|[s t] rs IH]; intros d; cbn [rename_all].
  - by intros [= ->].
  - rewrite !fmap_cons, !not_elem_of_cons. cbn.
    destruct (rename refuses d s t) as [d1|] eqn:Hr; [|done]. cbn.
    intros Hrs Hx [Ht ?]. apply (IH d1); [done| |done].
    apply rename_Some in Hr as (nd & _ & ->).
    rewrite lookup_insert_ne by done. destruct (decide (s = x)) as [->|].
    + apply lookup_delete_eq.
    + by rewrite lookup_delete_ne.
Qed.

(** An entry moved from [s] to [t] is found at [t] in the end when nothing
    before touches [s] and nothing after touches [t]. *)
Lemma rename_all_moved (rs1 rs2 : list (string * string)) (s t : string) (d d' : dir) :
  rename_all refuses (rs1 ++ (s, t) :: rs2) d = Some d' →
  s ∉ rs1.*1 → s ∉ rs1.*2 → t ∉ rs2.*1 → t ∉ rs2.*2 →
  d' !! t = renamed <$> d !! s.
Proof.
  rewrite rename_all_app. destruct (rename_all refuses rs1 d) as [d1|] eqn:H1; [|done].
  cbn. destruct (rename refuses d1 s t) as [d2|] eqn:Hr; [|done]. cbn.
  intros H2 ? ? ? ?.
  rewrite (rename_all_untouched _ _ _ _ H2) by done.
  rewrite <-(rename_all_untouched _ _ _ _ H1) by done.
  apply rename_Some in Hr as (nd & -> & ->). apply lookup_insert_eq.
Qed.

(** Where no entry carries a time to come, a rename moves the entry as it
    is, and the directory stays so. *)
Lemma renamed_keeps (d : dir) (x : string) (nd : node) :
  keeps_ctime d → d !! x = Some nd → renamed nd = nd.
Proof. intros Hd Hx. unfold renamed. by rewrite (Hd x nd Hx). Qed.

Lemma fmap_renamed_keeps (d : dir) (x : string) :
  keeps_ctime d → renamed <$> d !! x = d !! x.
Proof.
  intros Hd. destruct (d !! x) as [nd|] eqn:Hx; [|done].
  cbn. by rewrite (renamed_keeps d x nd).
Qed.

Lemma rename_keeps_ctime (d d' : dir) (src dst : string) :
  keeps_ctime d → rename refuses d src dst = Some d' → keeps_ctime d'.
Proof.
  intros Hd (nd & Hnd & ->)%rename_Some.
  apply map_Forall_insert_2.
  - rewrite (renamed_keeps d src nd Hd Hnd). by apply (Hd src).
  - by apply map_Forall_delete.
Qed.

Lemma renamed_is_file (nd : node) : n_is_file (renamed nd) = n_is_file nd.
Proof. unfold renamed. by destruct (n_ctimes nd). Qed.

Lemma rename_all_is_file_answers (rs : list (string * string)) (d d' : dir) :
  is_file_answers d → rename_all refuses rs d = Some d' → is_file_answers d'.
Proof.
  revert d. induction rs as [|[s t] rs IH]; intros d Hd; cbn [rename_all].
  - by intros [= <-].
  - destruct (rename refuses d s t) as [d1|] eqn:Hr; [|done]. cbn.
    apply IH. apply rename_Some in Hr as (nd & Hnd & ->).
    apply map_Forall_insert_2.
    + rewrite renamed_is_file. by apply (Hd s).
    + by apply map_Forall_delete.
Qed.

Lemma rename_all_keeps_ctime (rs : list (string * string)) (d d' : dir) :
  keeps_ctime d → rename_all refuses rs d = Some d' → keeps_ctime d'.
Proof.
  revert d. induction rs as [|[s t] rs IH]; intros d Hd; cbn [rename_all].
  - by intros [= <-].
  - destruct (rename refuses d s t) as [d1|] eqn:Hr; [|done]. cbn.
    apply IH. by eapply rename_keeps_ctime.
Qed.

(** A name an entry was moved away from stays free unless something is
    moved to it later. *)
Lemma rename_all_vacated (rs1 rs2 : list (string * string)) (s t : string) (d d' : dir) :
  rename_all refuses (rs1 ++ (s, t) :: rs2) d = Some d' →
  s ≠ t → s ∉ rs2.*2 → d' !! s = None.
Proof.
  rewrite rename_all_app. destruct (rename_all refuses rs1 d) as [d1|] eqn:H1; [|done].
  cbn. destruct (rename refuses d1 s t) as [d2|] eqn:Hr; [|done]. cbn.
  intros H2 ? ?. apply (rename_all_absent _ _ _ _ H2); [|done].
  apply rename_Some in Hr as (nd & _ & ->).
  rewrite lookup_insert_ne by done. apply lookup_delete_eq.
Qed.

(** So the same name cannot be moved away from twice. *)
Lemma rename_all_twice (rs1 rs2 rs3 : list (string * string)) (s t t' : string) (d : dir) :
  s ≠ t → s ∉ rs2.*2 →
  rename_all refuses (rs1 ++ (s, t) :: rs2 ++ (s, t') :: rs3) d = None.
Proof.
  intros Hst Hs.
  replace (rs1 ++ (s, t) :: rs2 ++ (s, t') :: rs3)
    with ((rs1 ++ (s, t) :: rs2) ++ (s, t') :: rs3) by (by rewrite <-app_assoc).
  destruct (rename_all refuses _ d) as [d'|] eqn:Hall; [|done]. exfalso.
  rewrite rename_all_app in Hall.
  destruct (rename_all refuses (rs1 ++ (s, t) :: rs2) d) as [d1|] eqn:H1; [|done].
  apply rename_all_vacated in H1; [|done..].
  cbn in Hall. destruct (rename refuses d1 s t') as [d2|] eqn:Hr; [|done].
  apply rename_Some in Hr as (nd & Hnd & _). congruence.
Qed.

End rename_facts.

(** ** The two phases of a plan that is carried out in full *)

Section two_phase.
Import FS.
Variable refuses : dir → string → string → bool.
Variable plan : list entry.
Variables d d' : dir.

Hypothesis paths_NoDup : NoDup (e_path <$> plan).
Hypothesis temps_NoDup : NoDup (e_temp <$> plan).
Hypothesis finals_NoDup : NoDup (e_final <$> plan).
Hypothesis temp_ne_final : ∀ e1 e2, e1 ∈ plan → e2 ∈ plan → e_temp e1 ≠ e_final e2.
Hypothesis all_renamed :
  rename_all refuses (phase1_moves plan ++ phase2_moves plan) d = Some d'.

Lemma phase1_moves_fst (pl : list entry) : (phase1_moves pl).*1 = e_path <$> pl.
Proof. unfold phase1_moves. by rewrite <-list_fmap_compose. Qed.
Lemma phase1_moves_snd (pl : list entry) : (phase1_moves pl).*2 = e_temp <$> pl.
Proof. unfold phase1_moves. by rewrite <-list_fmap_compose. Qed.
Lemma phase2_moves_fst (pl : list entry) : (phase2_moves pl).*1 = e_temp <$> pl.
Proof. unfold phase2_moves. by rewrite <-list_fmap_compose. Qed.
Lemma phase2_moves_snd (pl : list entry) : (phase2_moves pl).*2 = e_final <$> pl.
Proof. unfold phase2_moves. by rewrite <-list_fmap_compose. Qed.

Lemma NoDup_fmap_split {A B} (f : A → B) (l1 l2 : list A) (x : A) :
  NoDup (f <$> (l1 ++ (x :: l2))) → (f x ∉ f <$> l1) ∧ (f x ∉ f <$> l2).
Proof.
  rewrite fmap_app, fmap_cons. intros H%NoDup_app. destruct H as (_ & H1 & H2).
  apply NoDup_cons in H2 as [H2 _]. split; [|done].
  intros Hx. apply (H1 _ Hx). by left.
Qed.

(** The temporary name of an entry is not the current name of a later
    one: that one would move it away before phase 2 looks for it. *)
Lemma temp_not_later_path (pl1 pl2 pl3 : list entry) (e1 e2 : entry) :
  plan = pl1 ++ e1 :: pl2 ++ e2 :: pl3 → e_temp e1 ≠ e_path e2.
Proof.
  intros Hplan Heq.
  assert (e1 ∈ plan ∧ e2 ∈ plan) as [He1 He2].
  { rewrite Hplan. split; in_list. }
  pose proof all_renamed as Hall.
  replace (phase1_moves plan ++ phase2_moves plan) with
    ((phase1_moves pl1 ++ (e_path e1, e_temp e1) :: phase1_moves pl2) ++
     (e_path e2, e_temp e2) :: (phase1_moves pl3 ++ phase2_moves pl1) ++
     (e_path e2, e_final e1) :: phase2_moves (pl2 ++ e2 :: pl3)) in Hall.
  2: { rewrite Hplan. unfold phase1_moves, phase2_moves.
       rewrite !fmap_app, !fmap_cons, !fmap_app, !fmap_cons, Heq.
       repeat (rewrite <-app_assoc || rewrite <-app_comm_cons). reflexivity. }
  pose proof temps_NoDup as Ht. rewrite Hplan in Ht.
  apply NoDup_fmap_split in Ht as [_ Ht].
  rewrite rename_all_twice in Hall; [done| |].
  - intros Heq2. apply Ht. rewrite Heq, Heq2. in_list.
  - rewrite fmap_app, phase1_moves_snd, phase2_moves_snd, elem_of_app.
    intros [Hin|Hin].
    + apply Ht. rewrite Heq. in_list.
    + apply list_elem_of_fmap in Hin as (e & Hin & He).
      apply (temp_ne_final e1 e); [done| |congruence].
      rewrite Hplan. in_list.
Qed.

(** Every planned entry is found under its final name, renamed twice. *)
Lemma planned_lookup (e : entry) :
  e ∈ plan → d' !! e_final e = renamed <$> (renamed <$> d !! e_path e).
Proof.
  intros He. pose proof He as (pl1 & pl2 & Hplan)%list_elem_of_split.
  pose proof all_renamed as Hall. rewrite rename_all_app in Hall.
  destruct (rename_all refuses (phase1_moves plan) d) as [d1|] eqn:H1; [|done].
  cbn in Hall.
  pose proof paths_NoDup as Hp. pose proof temps_NoDup as Ht.
  pose proof finals_NoDup as Hf. rewrite Hplan in Hp, Ht, Hf.
  apply NoDup_fmap_split in Hp as [Hp1 Hp2].
  apply NoDup_fmap_split in Ht as [Ht1 Ht2].
  apply NoDup_fmap_split in Hf as [Hf1 Hf2].
  assert (∀ e', e' ∈ pl1 ∨ e' ∈ pl2 → e' ∈ plan) as Hin.
  { intros e' H. rewrite Hplan. in_list. }
  transitivity (renamed <$> d1 !! e_temp e); [|f_equal].
  - unfold phase2_moves in Hall. rewrite Hplan, fmap_app, fmap_cons in Hall.
    apply (rename_all_moved _ _ _ _ _ _ _ Hall);
      rewrite ?phase2_moves_fst, ?phase2_moves_snd; fold (phase2_moves pl1);
      rewrite ?phase2_moves_fst, ?phase2_moves_snd; try done.
    + intros (e' & Heq & He')%list_elem_of_fmap.
      apply (temp_ne_final e e'); auto.
    + intros (e' & Heq & He')%list_elem_of_fmap.
      apply (temp_ne_final e' e); auto.
  - unfold phase1_moves in H1. rewrite Hplan, fmap_app, fmap_cons in H1.
    apply (rename_all_moved _ _ _ _ _ _ _ H1);
      rewrite ?phase1_moves_fst, ?phase1_moves_snd; fold (phase1_moves pl1);
      rewrite ?phase1_moves_fst, ?phase1_moves_snd; try done.
    + intros (e' & Heq & (pa & pb & ->)%list_elem_of_split)%list_elem_of_fmap.
      rewrite <-app_assoc, <-app_comm_cons in Hplan.
      by apply (temp_not_later_path _ _ _ _ _ Hplan).
    + intros (e' & Heq & (pa & pb & ->)%list_elem_of_split)%list_elem_of_fmap.
      by apply (temp_not_later_path _ _ _ _ _ Hplan).
Qed.

(** A current or temporary name that is no final name is free in the end. *)
Lemma planned_vacated (x : string) :
  x ∉ e_final <$> plan → x ∈ e_path <$> plan ∨ x ∈ e_temp <$> plan → d' !! x = None.
Proof.
  intros Hf Hx.
  destruct (decide (x ∈ e_temp <$> plan)) as [Ht|Hnt].
  - apply list_elem_of_fmap in Ht as (e & -> & He).
    pose proof He as (pl1 & pl2 & Hplan)%list_elem_of_split.
    pose proof all_renamed as Hall.
    unfold phase2_moves in Hall at 1. rewrite Hplan, fmap_app, fmap_cons, app_assoc in Hall.
    apply (rename_all_vacated _ _ _ _ _ _ _ Hall).
    + by apply temp_ne_final.
    + fold (phase2_moves pl2). rewrite phase2_moves_snd.
      intros Hin. apply Hf. rewrite Hplan, fmap_app, fmap_cons, elem_of_app, elem_of_cons.
      auto.
  - destruct Hx as [Hp|?]; [|done].
    apply list_elem_of_fmap in Hp as (e & -> & He).
    pose proof He as (pl1 & pl2 & Hplan)%list_elem_of_split.
    pose proof all_renamed as Hall.
    unfold phase1_moves in Hall at 1.
    rewrite Hplan, fmap_app, fmap_cons, <-app_assoc, <-app_comm_cons in Hall.
    apply (rename_all_vacated _ _ _ _ _ _ _ Hall).
    + intros Heq. apply Hnt. rewrite Heq. apply list_elem_of_fmap. eauto.
    + fold (phase1_moves pl2).
      rewrite fmap_app, phase1_moves_snd, phase2_moves_snd, elem_of_app.
      intros [Hin|Hin]; [|apply Hf; by rewrite Hplan]. apply Hnt.
      rewrite Hplan, fmap_app, fmap_cons, elem_of_app, elem_of_cons. auto.
Qed.

(** Every other name holds what it held. *)
Lemma unplanned_lookup (x : string) :
  x ∉ e_path <$> plan → x ∉ e_temp <$> plan → x ∉ e_final <$> plan →
  d' !! x = d !! x.
Proof.
  intros Hp Ht Hf. apply (rename_all_untouched _ _ _ _ _ all_renamed).
  - by rewrite fmap_app, phase1_moves_fst, phase2_moves_fst, elem_of_app; intros [?|?].
  - by rewrite fmap_app, phase1_moves_snd, phase2_moves_snd, elem_of_app; intros [?|?].
Qed.

End two_phase.

(** ** The stable sort *)

Section sort_facts.
Context {A : Type}.
Implicit Types (x : Z * A) (l : list (Z * A)).

Lemma insert_by_key_perm x l : Sort.insert_by_key x l ≡ₚ x :: l.
Proof.
  induction l as [|y l IH]; [done|]. cbn [Sort.insert_by_key].
  destruct (_ <=? _)%Z; [done|]. by rewrite IH, Permutation_swap.
Qed.

Lemma sort_decorated_perm l : Sort.sort_decorated l ≡ₚ l.
Proof.
  induction l as [|x l IH]; [done|]. cbn. rewrite insert_by_key_perm.
  by constructor.
Qed.

Lemma insert_by_key_hd x y l :
  key_le y x → HdRel key_le y l → HdRel key_le y (Sort.insert_by_key x l).
Proof.
  intros Hyx Hl. destruct l as [|z l]; cbn [Sort.insert_by_key]; [by constructor|].
  destruct (_ <=? _)%Z; constructor; [done|]. by inv Hl.
Qed.

Lemma insert_by_key_sorted x l :
  Sorted key_le l → Sorted key_le (Sort.insert_by_key x l).
Proof.
  induction 1 as [|y l Hl IH Hy]; cbn [Sort.insert_by_key].
  - by repeat constructor.
  - destruct (Z.leb_spec x.1 y.1).
    + by repeat constructor.
    + constructor; [done|]. apply insert_by_key_hd; [|done]. unfold key_le. lia.
Qed.

Lemma sort_decorated_sorted l : Sorted key_le (Sort.sort_decorated l).
Proof.
  induction l as [|x l IH]; [constructor|]. by apply insert_by_key_sorted.
Qed.

(** Stability: the elements of any one key stay in the order they had. *)
Lemma insert_by_key_filter (c : Z) x l :
  Sorted key_le l →
  filter (λ y, y.1 = c) (Sort.insert_by_key x l) = filter (λ y, y.1 = c) (x :: l).
Proof.
  induction 1 as [|y l Hl IH Hy]; [done|]. cbn [Sort.insert_by_key].
  destruct (Z.leb_spec x.1 y.1) as [Hle|Hlt]; [done|].
  rewrite filter_cons, IH, !filter_cons.
  destruct (decide (y.1 = c)), (decide (x.1 = c)); try done. lia.
Qed.

Lemma sort_decorated_stable (c : Z) l :
  filter (λ y, y.1 = c) (Sort.sort_decorated l) = filter (λ y, y.1 = c) l.
Proof.
  induction l as [|x l IH]; [done|]. cbn [Sort.sort_decorated foldr].
  rewrite insert_by_key_filter by apply sort_decorated_sorted.
  rewrite !filter_cons. fold (Sort.sort_decorated l). by rewrite IH.
Qed.

(** With keys that are all different the sorted list depends on the
    elements alone. *)
Lemma sort_decorated_unique l l' :
  NoDup l.*1 → l ≡ₚ l' → Sort.sort_decorated l = Sort.sort_decorated l'.
Proof.
  intros Hkeys Hperm.
  apply (Sorted_unique_strong key_le); [|apply sort_decorated_sorted..|].
  - intros x1 x2 Hx1 Hx2 H12 H21.
    rewrite sort_decorated_perm in Hx1. rewrite sort_decorated_perm, <-Hperm in Hx2.
    apply list_elem_of_lookup in Hx1 as [i Hi]. apply list_elem_of_lookup in Hx2 as [j Hj].
    assert (i = j) as ->; [|congruence].
    apply (NoDup_lookup _ _ _ x1.1 Hkeys); rewrite list_lookup_fmap.
    + by rewrite Hi.
    + rewrite Hj. cbn. f_equal. unfold key_le in *. lia.
  - by rewrite !sort_decorated_perm.
Qed.

(** It is enough that two elements of one key are the same element. *)
Lemma sort_decorated_unique_ties l l' :
  (∀ x y, x ∈ l → y ∈ l → x.1 = y.1 → x = y) → l ≡ₚ l' →
  Sort.sort_decorated l = Sort.sort_decorated l'.
Proof.
  intros Hties Hperm.
  apply (Sorted_unique_strong key_le); [|apply sort_decorated_sorted..|].
  - intros x1 x2 Hx1 Hx2 H12 H21.
    rewrite sort_decorated_perm in Hx1. rewrite sort_decorated_perm, <-Hperm in Hx2.
    apply Hties; [done..|]. unfold key_le in *. lia.
  - by rewrite !sort_decorated_perm.
Qed.

Lemma sorted_already l : Sorted key_le l → NoDup l.*1 → Sort.sort_decorated l = l.
Proof.
  intros Hs Hk. apply (Sorted_unique_strong key_le);
    [|apply sort_decorated_sorted|done|apply sort_decorated_perm].
  intros x1 x2 Hx1 Hx2 H12 H21. rewrite sort_decorated_perm in Hx1.
  apply list_elem_of_lookup in Hx1 as [i Hi]. apply list_elem_of_lookup in Hx2 as [j Hj].
  assert (i = j) as ->; [|congruence].
  apply (NoDup_lookup _ _ _ x1.1 Hk); rewrite list_lookup_fmap.
  + by rewrite Hi.
  + rewrite Hj. cbn. f_equal. unfold key_le in *. lia.
Qed.

Variable key : A → option Z.

Lemma zip_keys (l : list A) (keys : list Z) :
  mapM key l = Some keys → zip keys l = decorate key <$> l.
Proof.
  intros H%mapM_Some_1. induction H as [|a k l keys Hk _ IH]; [done|].
  cbn. unfold decorate at 1. by rewrite Hk, IH.
Qed.

Lemma sort_by_key_Some (l l' : list A) :
  Sort.sort_by_key key l = Some l' ↔
  Forall (λ a, is_Some (key a)) l ∧ l' = (Sort.sort_decorated (decorate key <$> l)).*2.
Proof.
  unfold Sort.sort_by_key. split.
  - destruct (mapM key l) as [keys|] eqn:Hkeys; [|done]. cbn. intros [= <-].
    split; [|by rewrite (zip_keys _ _ Hkeys)].
    apply (mapM_is_Some_1 key). by rewrite Hkeys.
  - intros [Hl ->]. apply (mapM_is_Some_2 key) in Hl as [keys Hkeys].
    rewrite Hkeys. cbn. by rewrite (zip_keys _ _ Hkeys).
Qed.

Lemma decorate_snd (l : list A) : (decorate key <$> l).*2 = l.
Proof. rewrite <-list_fmap_compose. apply list_fmap_id. Qed.

Lemma sort_by_key_perm (l l' : list A) : Sort.sort_by_key key l = Some l' → l' ≡ₚ l.
Proof.
  intros [_ ->]%sort_by_key_Some. by rewrite sort_decorated_perm, decorate_snd.
Qed.

(** A list permuted from decorated elements is decorated. *)
Lemma decorated_perm (l' : list (Z * A)) (l : list A) :
  l' ≡ₚ decorate key <$> l → l' = decorate key <$> l'.*2.
Proof.
  intros Hperm. rewrite <-list_fmap_compose.
  rewrite <-(list_fmap_id l') at 1. apply list_fmap_ext.
  intros i x Hx%list_elem_of_lookup_2. rewrite Hperm in Hx.
  by apply list_elem_of_fmap in Hx as (y & -> & _).
Qed.

End sort_facts.

(** ** The resolver of the corrected implementation *)

Section resolver_facts.
Import FS.

Lemma get_real_image_files_loop_cons (d : dir) (item : string) (rest real_files : list string) :
  Corrected.get_real_image_files_loop d (item :: rest) real_files
  = match is_file d item with
    | None => real_files
    | Some _ =>
        Corrected.get_real_image_files_loop d rest
          (if accessible d item then real_files ++ [item] else real_files)
    end.
Proof.
  cbn [Corrected.get_real_image_files_loop]. unfold accessible.
  destruct (is_file d item) as [[|]|]; [|done..].
  rewrite bool_decide_eq_true_2 by done.
  destruct (image_name item); [|done].
  destruct (exists_ d item) as [[|]|]; [|done..].
  rewrite bool_decide_eq_true_2 by done.
  destruct (stat d item) as [st|]; [|done].
  by destruct (st_size st <=? 0)%Z, (can_read d item).
Qed.

Lemma get_real_image_files_loop_filter (d : dir) (items real_files : list string) :
  Corrected.get_real_image_files_loop d items real_files
  = real_files ++ filter (λ item, accessible d item) (reached d items).
Proof.
  revert real_files. induction items as [|item rest IH]; intros real_files.
  - by rewrite app_nil_r.
  - rewrite get_real_image_files_loop_cons. cbn [reached].
    destruct (is_file d item) as [b|]; [|by rewrite app_nil_r].
    rewrite IH, filter_cons. destruct (accessible d item).
    + rewrite decide_True by exact I. by rewrite <-app_assoc.
    + by rewrite decide_False by (by intros []).
Qed.

Lemma get_real_image_files_filter (d : dir) (items : list string) :
  Corrected.get_real_image_files d (Some items)
  = filter (λ item, accessible d item) (reached d items).
Proof. apply get_real_image_files_loop_filter. Qed.

(** The items reached are those listed before any item on which
    [is_file()] raises. *)
Lemma reached_split (d : dir) (items : list string) :
  (reached d items = items ∧ Forall (λ y, is_Some (is_file d y)) items) ∨
  ∃ y post, items = reached d items ++ y :: post ∧ is_file d y = None ∧
            Forall (λ y, is_Some (is_file d y)) (reached d items).
Proof.
  induction items as [|item rest IH]; [by left|]. cbn [reached].
  destruct (is_file d item) as [b|] eqn:Hb.
  - destruct IH as [[-> Hall]|(y & post & Heq & Hy & Hall)].
    + left. split; [done|]. constructor; [by eexists|done].
    + right. exists y, post. rewrite <-app_comm_cons, <-Heq.
      split_and!; [done..|]. constructor; [by eexists|done].
  - right. by exists item, rest.
Qed.

Lemma elem_of_reached (d : dir) (items : list string) (x : string) :
  x ∈ reached d items ↔
  ∃ pre post, items = pre ++ x :: post ∧ Forall (λ y, is_Some (is_file d y)) (pre ++ [x]).
Proof.
  induction items as [|item rest IH]; cbn [reached].
  - rewrite elem_of_nil. split; [done|]. by intros ([|??] & ? & ? & _).
  - destruct (is_file d item) as [b|] eqn:Hb.
    + rewrite elem_of_cons, IH. split.
      * intros [->|(pre & post & -> & Hall)].
        -- exists [], rest. split; [done|]. repeat constructor. by eexists.
        -- exists (item :: pre), post. split; [done|]. constructor; [by eexists|done].
      * intros ([|y pre] & post & [= -> ->] & Hall); [by left|right].
        exists pre, post. split; [done|]. by apply Forall_cons in Hall as [_ ?].
    + rewrite elem_of_nil. split; [done|].
      intros ([|y pre] & post & [= -> ->] & Hall); apply Forall_cons in Hall as [[? Hy] _];
        congruence.
Qed.

Lemma reached_app_raises (d : dir) (pre post : list string) (x : string) :
  is_file d x = None → reached d (pre ++ x :: post) = reached d pre.
Proof.
  intros Hx. induction pre as [|y pre IH]; cbn [app reached].
  - by rewrite Hx.
  - destruct (is_file d y); [by rewrite IH|done].
Qed.

Lemma reached_Forall (d : dir) (items : list string) :
  Forall (λ y, is_Some (is_file d y)) items → reached d items = items.
Proof.
  induction 1 as [|y items [b Hy] _ IH]; [done|]. cbn [reached]. by rewrite Hy, IH.
Qed.

Lemma reached_sublist (d : dir) (items : list string) : reached d items `sublist_of` items.
Proof.
  induction items as [|item rest IH]; [done|]. cbn [reached].
  destruct (is_file d item); [by constructor|apply sublist_nil_l].
Qed.

Lemma is_file_answers_is_file (d : dir) (x : string) :
  is_file_answers d → is_Some (is_file d x).
Proof.
  intros Hd. unfold is_file. destruct (d !! x) as [nd|] eqn:Hx; [|by eexists].
  by apply (Hd x).
Qed.

Lemma reached_all (d : dir) (items : list string) :
  is_file_answers d → reached d items = items.
Proof.
  intros Hd. induction items as [|item rest IH]; [done|]. cbn [reached].
  destruct (is_file_answers_is_file d item Hd) as [b ->]. by rewrite IH.
Qed.

Lemma elem_of_get_real_image_files (d : dir) (all_items : option (list string)) (x : string) :
  x ∈ Corrected.get_real_image_files d all_items ↔
  ∃ items, all_items = Some items ∧ x ∈ reached d items ∧ accessible d x = true.
Proof.
  destruct all_items as [items|]; cbn [Corrected.get_real_image_files].
  - fold (Corrected.get_real_image_files d (Some items)).
    rewrite get_real_image_files_filter, list_elem_of_filter, Is_true_true. split.
    + intros [? ?]. by exists items.
    + by intros (its & [= <-] & ? & ?).
  - rewrite elem_of_nil. split; [done|]. by intros (its & [=] & _).
Qed.

Lemma get_real_image_files_listed (d : dir) (items : list string) (x : string) :
  x ∈ Corrected.get_real_image_files d (Some items) → x ∈ items ∧ accessible d x = true.
Proof.
  intros (its & [= <-] & Hx & ?)%elem_of_get_real_image_files. split; [|done].
  by apply (elem_of_sublist _ _ _ Hx (reached_sublist d items)).
Qed.

Lemma get_real_image_files_NoDup (d : dir) (items : list string) :
  NoDup items → NoDup (Corrected.get_real_image_files d (Some items)).
Proof.
  intros Hnd. rewrite get_real_image_files_filter. apply NoDup_filter.
  by apply (sublist_NoDup _ _ Hnd (reached_sublist d items)).
Qed.

Lemma accessible_inv (d : dir) (x : string) :
  accessible d x = true ↔
  ∃ nd st, d !! x = Some nd ∧ n_is_file nd = Some true ∧ image_name x = true ∧
           n_exists nd = Some true ∧ n_stat nd = Some st ∧ (0 < st_size st)%Z ∧
           n_readable nd = true.
Proof.
  unfold accessible, is_file, exists_, stat, can_read. split.
  - destruct (d !! x) as [nd|]; [|done]. cbn. destruct (n_stat nd) as [st|] eqn:Hst.
    + rewrite !andb_true_iff, !bool_decide_eq_true, negb_true_iff, Z.leb_gt.
      intros [[[? ?] ?] [? ?]]. by exists nd, st.
    + by rewrite andb_false_r.
  - intros (nd & st & -> & -> & -> & -> & Hst & Hsz & ->). cbn. rewrite Hst.
    apply Z.leb_gt in Hsz. by rewrite Hsz.
Qed.

(** An accessible file has a creation time, so the sort never raises. *)
Lemma accessible_getctime (d : dir) (x : string) :
  accessible d x = true → is_Some (getctime d x).
Proof.
  intros (nd & st & Hnd & _ & _ & _ & Hst & _)%accessible_inv.
  unfold getctime. rewrite Hnd. cbn. rewrite Hst. by eexists.
Qed.

Lemma sorted_files_Some (d : dir) (all_items : option (list string)) :
  is_Some (Corrected.sorted_files d all_items).
Proof.
  unfold Corrected.sorted_files.
  eexists. apply sort_by_key_Some. split; [|done].
  apply Forall_forall. intros x (_ & _ & _ & Hx)%elem_of_get_real_image_files.
  by apply accessible_getctime.
Qed.

Lemma sorted_files_perm (d : dir) (all_items : option (list string)) (files : list string) :
  Corrected.sorted_files d all_items = Some files →
  files ≡ₚ Corrected.get_real_image_files d all_items.
Proof. apply sort_by_key_perm. Qed.

End resolver_facts.

(** ** The two loops of the corrected pass *)

Section corrected_loops.
Import FS.
Variable refuses : dir → string → string → bool.

Lemma phase1_app (pl1 pl2 : list entry) (st : run) :
  Corrected.phase1 refuses (pl1 ++ pl2) st
  = Corrected.phase1 refuses pl2 (Corrected.phase1 refuses pl1 st).
Proof.
  revert st. induction pl1 as [|[[p t] f] pl1 IH]; intros st; [done|].
  cbn [app Corrected.phase1]. by destruct (rename _ _ _ _).
Qed.

Lemma phase2_app (pl1 pl2 : list entry) (st : run) :
  Corrected.phase2 refuses (pl1 ++ pl2) st
  = match Corrected.phase2 refuses pl1 st with
    | Completed st1 => Corrected.phase2 refuses pl2 st1
    | Raised st1 => Raised st1
    end.
Proof.
  revert st. induction pl1 as [|[[p t] f] pl1 IH]; intros st; [done|].
  cbn [app Corrected.phase2].
  destruct (exists_ _ _) as [[|]|]; [|done..]. by destruct (rename _ _ _ _).
Qed.

(** Phase 1 keeps the entries whose rename succeeded; when it keeps them
    all, every rename succeeded. *)
Lemma phase1_spec (plan : list entry) (st : run) :
  let st' := Corrected.phase1 refuses plan st in
  r_count st' = r_count st ∧
  ∃ kept, r_phase1 st' = r_phase1 st ++ kept ∧ length kept ≤ length plan ∧
    (length kept = length plan →
     kept = plan ∧ rename_all refuses (phase1_moves plan) (r_fs st) = Some (r_fs st')).
Proof.
  revert st. induction plan as [|[[p t] f] plan IH]; intros st; cbn zeta.
  - split; [done|]. exists []. by rewrite app_nil_r.
  - cbn [Corrected.phase1 phase1_moves fmap list_fmap rename_all e_path e_temp fst snd].
    destruct (rename refuses (r_fs st) p t) as [d1|] eqn:Hr.
    + destruct (IH {| r_fs := d1; r_temp_files := {[t]} ∪ r_temp_files st;
                      r_phase1 := r_phase1 st ++ [(p, t, f)]; r_count := r_count st;
                      r_out := r_out st ++ [MsgPhase1 p t] |})
        as (Hc & kept & Hk & Hlen & Hall).
      cbn in Hc, Hk, Hall. split; [done|]. exists ((p, t, f) :: kept).
      rewrite Hk, <-app_assoc. split_and!; [done|cbn; lia|].
      cbn [length]. intros Hl. destruct Hall as [-> Hall]; [lia|]. split; [done|]. apply Hall.
    + destruct (IH {| r_fs := r_fs st; r_temp_files := {[t]} ∪ r_temp_files st;
                      r_phase1 := r_phase1 st; r_count := r_count st;
                      r_out := r_out st ++ [MsgPhase1Error p t] |})
        as (Hc & kept & Hk & Hlen & Hall).
      cbn in Hc, Hk, Hall. split; [done|]. exists kept.
      split_and!; [done|cbn; lia|]. cbn [length]. lia.
Qed.

Lemma phase2_spec (todo : list entry) (st : run) :
  let st' := flow_run (Corrected.phase2 refuses todo st) in
  r_phase1 st' = r_phase1 st ∧
  r_count st' ≤ r_count st + length todo ∧
  (r_count st' = r_count st + length todo →
   Corrected.phase2 refuses todo st = Completed st' ∧
   rename_all refuses (phase2_moves todo) (r_fs st) = Some (r_fs st')).
Proof.
  revert st. induction todo as [|[[p t] f] todo IH]; intros st; cbn zeta.
  - cbn. split_and!; [done|lia|done].
  - cbn [Corrected.phase2 phase2_moves fmap list_fmap rename_all e_final e_temp fst snd
           length].
    destruct (exists_ (r_fs st) t) as [[|]|].
    + destruct (rename refuses (r_fs st) t f) as [d1|] eqn:Hr.
      * match goal with |- context [Corrected.phase2 refuses todo ?s] =>
          destruct (IH s) as (Hp & Hc & Hall) end.
        cbn in Hp, Hc, Hall. split_and!; [done|lia|].
        intros Hl. cbn. apply Hall. lia.
      * match goal with |- context [Corrected.phase2 refuses todo ?s] =>
          destruct (IH s) as (Hp & Hc & Hall) end.
        cbn in Hp, Hc, Hall. split_and!; [done|lia|lia].
    + destruct (IH st) as (? & ? & ?). split_and!; [done|lia|lia].
    + cbn. split_and!; [done|lia|lia].
Qed.

Variable h : handler.
Variable d : dir.
Variable all_items : option (list string).

Lemma rename_plan_sorted (files : list string) :
  Corrected.sorted_files d all_items = Some files →
  Corrected.rename_plan h d all_items = plan_from (prefix h) 0 files.
Proof.
  intros Hs. unfold Corrected.rename_plan, Corrected.compute_plan.
  by rewrite Hs, corrected_plan_loop.
Qed.

(** A pass that counts as many renames as its plan has entries carried
    out both phases of every entry. *)
Lemma full_pass_renames :
  let st := Corrected.reorganize_all_files refuses h d all_items in
  let plan := Corrected.rename_plan h d all_items in
  r_count st = length plan →
  rename_all refuses (phase1_moves plan ++ phase2_moves plan) d = Some (r_fs st).
Proof.
  cbn zeta. unfold Corrected.reorganize_all_files, Corrected.rename_plan.
  unfold Corrected.sorted_files.
  case_bool_decide as Hnil.
  { rewrite Hnil. by cbn. }
  destruct (Sort.sort_by_key _ _) as [files|]; [|done].
  case_bool_decide as Hplan.
  { rewrite Hplan. by cbn. }
  set (plan := Corrected.compute_plan (prefix h) files).
  set (st0 := Corrected.say (MsgReorganizing _) _).
  destruct (phase1_spec plan st0) as (Hc1 & kept & Hk & Hlen & Hall1).
  destruct (phase2_spec (r_phase1 (Corrected.phase1 refuses plan st0))
              (Corrected.phase1 refuses plan st0)) as (_ & Hc2 & Hall2).
  assert (∀ fl, r_count (match fl with
                         | Completed st => Corrected.say (MsgReorganized (r_count st)) st
                         | Raised st => Corrected.say MsgReorganizeError st
                         end) = r_count (flow_run fl) ∧
                r_fs (match fl with
                      | Completed st => Corrected.say (MsgReorganized (r_count st)) st
                      | Raised st => Corrected.say MsgReorganizeError st
                      end) = r_fs (flow_run fl)) as Hfl by (by intros []).
  destruct (Hfl (Corrected.phase2 refuses
                   (r_phase1 (Corrected.phase1 refuses plan st0))
                   (Corrected.phase1 refuses plan st0))) as [-> ->].
  intros Hcount.
  rewrite Hk in Hc2, Hall2, Hcount |- *. change (r_phase1 st0) with (@nil entry) in *.
  rewrite app_nil_l in *. rewrite Hc1 in Hc2, Hall2. change (r_count st0) with 0 in *.
  destruct Hall1 as [-> Hall1]; [lia|].
  change (r_fs st0) with d in Hall1.
  rewrite rename_all_app, Hall1. cbn. apply Hall2. lia.
Qed.

End corrected_loops.

(** ** The original implementation: what [glob] returns *)

Section original_files.
Import Text.

Lemma fnmatch_lower (cs : bool) (tail name : string) :
  Original.fnmatch_star cs tail name = true → endswith (lower name) (lower tail) = true.
Proof.
  unfold Original.fnmatch_star. destruct cs; [|done].
  intros [pre ->]%endswith_split. apply endswith_split.
  exists (lower pre). apply lower_app.
Qed.

Lemma fnmatch_app (cs : bool) (tail pre : string) :
  Original.fnmatch_star cs tail (pre +:+ tail) = true.
Proof.
  unfold Original.fnmatch_star. destruct cs; apply endswith_split.
  - by exists pre.
  - exists (lower pre). apply lower_app.
Qed.

Lemma matched_image_name (cs : bool) (name : string) :
  matched cs name = true → image_name name = true.
Proof.
  unfold matched, patterns, image_name. cbn [existsb].
  rewrite !orb_true_iff.
  intros [H|[H|[H|[H|[H|[H|[=]]]]]]]; apply fnmatch_lower in H;
    change (lower ".png") with ".png" in H; change (lower ".PNG") with ".png" in H;
    change (lower ".jpg") with ".jpg" in H; change (lower ".JPG") with ".jpg" in H;
    change (lower ".jpeg") with ".jpeg" in H; change (lower ".JPEG") with ".jpeg" in H;
    auto.
Qed.

(** A final name is matched again, with or without the case. *)
Lemma matched_final (cs : bool) (pfx : string) (k : nat) (name : string) :
  lower (PurePath.suffix name) ∈ image_exts → matched cs (expected_name pfx k name) = true.
Proof.
  unfold expected_name, image_exts. rewrite <-!sapp_assoc.
  set (stem := (pfx +:+ "_") +:+ fmt_02d (k + 1)).
  rewrite !elem_of_cons, elem_of_nil. unfold matched, patterns. cbn [existsb].
  intros [->|[->|[->|[]]]]; rewrite fnmatch_app; by rewrite ?orb_true_r.
Qed.

Lemma elem_of_glob (cs : bool) (listing : list string) (tail x : string) :
  x ∈ Original.glob cs listing tail ↔ x ∈ listing ∧ Original.fnmatch_star cs tail x = true.
Proof.
  unfold Original.glob. rewrite list_elem_of_filter, Is_true_true. tauto.
Qed.

Lemma elem_of_image_files (cs : bool) (listing : list string) (x : string) :
  x ∈ Original.image_files cs listing ↔ x ∈ listing ∧ matched cs x = true.
Proof.
  unfold Original.image_files, matched, patterns. cbn [existsb].
  rewrite !elem_of_app, !elem_of_glob, !orb_true_iff. intuition discriminate.
Qed.

Lemma image_files_perm (cs : bool) (l l' : list string) :
  l ≡ₚ l' → Original.image_files cs l ≡ₚ Original.image_files cs l'.
Proof. intros Hp. unfold Original.image_files, Original.glob. by rewrite Hp. Qed.

(** Two suffixes of one string: one is a suffix of the other. *)
Lemma endswith_both (x a b : string) :
  endswith x a = true → endswith x b = true →
  endswith a b = true ∨ endswith b a = true.
Proof.
  induction x as [|c x IH]; rewrite (endswith_unfold _ a), (endswith_unfold _ b).
  - destruct (String.eqb_spec "" a) as [<-|_]; [|done].
    destruct (String.eqb_spec "" b) as [<-|_]; [|done]. by left.
  - destruct (String.eqb_spec (String c x) a) as [<-|_].
    { intros _ Hb. left. rewrite endswith_unfold.
      by destruct (String.eqb_spec (String c x) b). }
    destruct (String.eqb_spec (String c x) b) as [<-|_]; [|done].
    intros Ha _. right. rewrite endswith_unfold.
    by destruct (String.eqb_spec (String c x) a).
Qed.

Lemma glob_disjoint (listing : list string) (t1 t2 x : string) :
  endswith t1 t2 = false → endswith t2 t1 = false →
  x ∈ Original.glob true listing t1 → x ∉ Original.glob true listing t2.
Proof.
  intros H12 H21 [_ H1]%elem_of_glob [_ H2]%elem_of_glob.
  destruct (endswith_both x t1 t2 H1 H2); congruence.
Qed.

Lemma glob_NoDup (cs : bool) (listing : list string) (tail : string) :
  NoDup listing → NoDup (Original.glob cs listing tail).
Proof. intros Hnd. unfold Original.glob. by apply NoDup_filter. Qed.

(** With the case, the six patterns exclude one another. *)
Lemma image_files_NoDup (listing : list string) :
  NoDup listing → NoDup (Original.image_files true listing).
Proof.
  intros Hnd. unfold Original.image_files.
  repeat (apply NoDup_app; split_and!;
          [by apply glob_NoDup
          |intros x Hx; rewrite ?not_elem_of_app; split_and?;
           refine (glob_disjoint _ _ _ _ _ _ Hx); reflexivity
          |]).
  by apply glob_NoDup.
Qed.

(** Without the case, [*.png] and [*.PNG] return the same entries. *)
Lemma image_files_twice (listing : list string) :
  NoDup (Original.image_files false listing) → Original.image_files false listing = [].
Proof.
  unfold Original.image_files.
  change (Original.glob false listing ".PNG") with (Original.glob false listing ".png").
  change (Original.glob false listing ".JPG") with (Original.glob false listing ".jpg").
  change (Original.glob false listing ".JPEG") with (Original.glob false listing ".jpeg").
  assert (∀ g rest : list string, NoDup (g ++ g ++ rest) → g = [] ∧ NoDup rest) as Hg.
  { intros g rest (_ & Hin & (_ & _ & Hrest)%NoDup_app)%NoDup_app. split; [|done].
    destruct g as [|y g]; [done|]. destruct (Hin y); [by left|]. apply elem_of_app.
    left. by left. }
  intros [-> [-> H]%Hg]%Hg. rewrite <-(app_nil_r (_ ++ _)) in H.
  rewrite <-app_assoc in H. by apply Hg in H as [-> _].
Qed.

End original_files.

(** ** The two loops of the original pass *)

Section original_loops.
Import FS.
Variable refuses : dir → string → string → bool.
Variable cs : bool.

Lemma original_phase1_spec (plan : list entry) (st : run) :
  match Original.phase1 refuses plan st with
  | Completed st' =>
      r_count st' = r_count st ∧
      rename_all refuses (phase1_moves plan) (r_fs st) = Some (r_fs st')
  | Raised st' => r_count st' = r_count st
  end.
Proof.
  revert st. induction plan as [|[[p t] f] plan IH]; intros st; [done|].
  cbn [Original.phase1 phase1_moves fmap list_fmap rename_all e_path e_temp fst snd r_fs].
  destruct (rename refuses (r_fs st) p t) as [d1|]; [|done].
  match goal with |- context [Original.phase1 refuses plan ?s] =>
    pose proof (IH s) as H; destruct (Original.phase1 refuses plan s) end; apply H.
Qed.

Lemma original_phase2_spec (plan : list entry) (st : run) :
  match Original.phase2 refuses plan st with
  | Completed st' =>
      r_count st' = r_count st + length plan ∧
      rename_all refuses (phase2_moves plan) (r_fs st) = Some (r_fs st')
  | Raised st' => r_count st' < r_count st + length plan
  end.
Proof.
  revert st. induction plan as [|[[p t] f] plan IH]; intros st.
  - cbn. split; [lia|done].
  - cbn [Original.phase2 phase2_moves fmap list_fmap rename_all e_final e_temp fst snd
           r_fs length].
    destruct (rename refuses (r_fs st) t f) as [d1|]; [|cbn; lia].
    destruct (Original.get_creation_time d1 f); [|cbn; lia].
    match goal with |- context [Original.phase2 refuses plan ?s] =>
      pose proof (IH s) as H; destruct (Original.phase2 refuses plan s) end;
      cbn in H |- *; [split; [lia|apply H]|lia].
Qed.

Variable h : handler.
Variable d : dir.
Variable listing : list string.

Lemma original_rename_plan_sorted (files : list string) :
  Original.sorted_files cs d listing = Some files →
  Original.rename_plan cs h d listing = plan_from (prefix h) 0 files.
Proof.
  intros Hs. unfold Original.rename_plan, Original.compute_plan.
  by rewrite Hs, original_plan_loop.
Qed.

(** A pass of the original that counts as many renames as its plan has
    entries carried out both phases of every entry. *)
Lemma original_full_pass_renames :
  let st := Original.reorganize_all_files refuses cs h d listing in
  let plan := Original.rename_plan cs h d listing in
  r_count st = length plan →
  rename_all refuses (phase1_moves plan ++ phase2_moves plan) d = Some (r_fs st).
Proof.
  cbn zeta. unfold Original.reorganize_all_files, Original.rename_plan.
  unfold Original.sorted_files, Original.compute_plan.
  case_bool_decide as Hnil.
  { rewrite Hnil. by cbn. }
  destruct (Sort.sort_by_key _ _) as [files|]; [|done].
  rewrite original_plan_loop, !app_nil_l. cbn [fst].
  case_bool_decide as Hplan.
  { apply fmap_nil_inv in Hplan. rewrite Hplan. by cbn. }
  set (plan := plan_from (prefix h) 0 files) in *.
  set (st0 := Corrected.say (MsgReorganizing _) _).
  pose proof (original_phase1_spec plan st0) as H1.
  destruct (Original.phase1 refuses plan st0) as [st1|st1].
  - destruct H1 as [Hc1 Hall1].
    pose proof (original_phase2_spec plan st1) as H2.
    destruct (Original.phase2 refuses plan st1) as [st2|st2];
      cbn [Corrected.say r_count r_fs]; intros Hcount.
    + destruct H2 as [_ Hall2]. change (r_fs st0) with d in Hall1.
      rewrite rename_all_app, Hall1. cbn. apply Hall2.
    + change (r_count st0) with 0 in Hc1. lia.
  - cbn [Corrected.say r_count r_fs]. intros Hcount.
    change (r_count st0) with 0 in H1.
    assert (plan = []) as Hp by (apply nil_length_inv; lia).
    by rewrite Hp in Hplan.
Qed.

(** A pass of the original whose plan is empty renames nothing. *)
Lemma original_empty_plan_pass :
  Original.rename_plan cs h d listing = [] →
  r_fs (Original.reorganize_all_files refuses cs h d listing) = d ∧
  r_count (Original.reorganize_all_files refuses cs h d listing) = 0.
Proof.
  unfold Original.reorganize_all_files, Original.rename_plan.
  unfold Original.sorted_files, Original.compute_plan.
  case_bool_decide; [done|].
  destruct (Sort.sort_by_key _ _) as [files|]; [|done].
  rewrite original_plan_loop, !app_nil_l. cbn [fst].
  intros ->. by rewrite bool_decide_eq_true_2.
Qed.

End original_loops.

(** ** A pass that renames everything it planned *)

Section full_pass.
Import FS.
Variable refuses : dir → string → string → bool.
Variable pfx : string.
Variable d d1 : dir.
Variable files : list string.

Hypothesis files_NoDup : NoDup files.

Local Abbreviation plan := (plan_from pfx 0 files).
Local Abbreviation finals := (imap (expected_name pfx) files).

Hypothesis all_renamed :
  rename_all refuses (phase1_moves plan ++ phase2_moves plan) d = Some d1.

Lemma elem_of_finals (x : string) :
  x ∈ finals ↔ ∃ k name, files !! k = Some name ∧ x = expected_name pfx k name.
Proof.
  unfold finals. rewrite list_elem_of_lookup. setoid_rewrite list_lookup_imap. split.
  - intros (k & Hk). destruct (files !! k) as [name|] eqn:Hf; [|done].
    injection Hk as <-. by exists k, name.
  - intros (k & name & Hf & ->). exists k. by rewrite Hf.
Qed.

Lemma elem_of_plan (e : entry) :
  e ∈ plan ↔ ∃ k name, files !! k = Some name ∧ name ≠ expected_name pfx k name ∧
               e = (name, temp_name pfx k name, expected_name pfx k name).
Proof. unfold plan. by rewrite elem_of_plan_from. Qed.

Lemma plan_finals_subseteq (x : string) : x ∈ e_final <$> plan → x ∈ finals.
Proof.
  intros (e & -> & (k & name & Hk & _ & ->)%elem_of_plan)%list_elem_of_fmap.
  apply elem_of_finals. by exists k, name.
Qed.

Lemma in_plan_paths (k : nat) (name : string) :
  files !! k = Some name →
  name ∈ e_path <$> plan ↔ name ≠ expected_name pfx k name.
Proof.
  intros Hk. split.
  - intros (e & -> & (k' & name' & Hk' & Hne & ->)%elem_of_plan)%list_elem_of_fmap.
    cbn in Hk |- *. by rewrite (NoDup_lookup _ _ _ _ files_NoDup Hk Hk').
  - intros Hne. apply list_elem_of_fmap.
    exists (name, temp_name pfx k name, expected_name pfx k name).
    split; [done|]. apply elem_of_plan. by exists k, name.
Qed.

Lemma finals_not_temps (x : string) : x ∈ finals → x ∉ e_temp <$> plan.
Proof.
  intros (k & name & _ & ->)%elem_of_finals
    (e & Heq & (k' & name' & _ & _ & ->)%elem_of_plan)%list_elem_of_fmap.
  symmetry in Heq. by apply temp_ne_expected in Heq.
Qed.

(** Each file is found under the name of its rank: as it was when it had
    that name already, renamed twice otherwise. *)
Lemma file_at_expected_name (k : nat) (name : string) :
  files !! k = Some name →
  d1 !! expected_name pfx k name
  = if decide (name = expected_name pfx k name) then d !! name
    else renamed <$> (renamed <$> d !! name).
Proof.
  intros Hk.
  destruct (decide (name = expected_name pfx k name)) as [Heq|Hne].
  - rewrite <-Heq.
    apply (unplanned_lookup refuses plan d _ all_renamed).
    + rewrite (in_plan_paths k name Hk). by intros [].
    + apply finals_not_temps, elem_of_finals. by exists k, name.
    + intros (e & Hx & (k' & name' & Hk' & Hne & ->)%elem_of_plan)%list_elem_of_fmap.
      cbn in Hx. rewrite Heq in Hx. apply expected_name_inj in Hx. subst k'.
      rewrite Hk in Hk'. injection Hk' as <-. by destruct Hne.
  - apply (planned_lookup refuses plan d (d1)
             (plan_from_paths_NoDup _ _ _ files_NoDup) (plan_from_temps_NoDup _ _ _)
             (plan_from_finals_NoDup _ _ _) (plan_from_temp_ne_final _ _ _) all_renamed
             (name, temp_name pfx k name, expected_name pfx k name)).
    apply elem_of_plan. by exists k, name.
Qed.

(** Where renames keep the creation time, it is the entry as it was. *)
Lemma file_at_expected_name_kept (k : nat) (name : string) :
  keeps_ctime d → files !! k = Some name →
  d1 !! expected_name pfx k name = d !! name.
Proof.
  intros Hd Hk. rewrite (file_at_expected_name k name Hk).
  destruct (decide _); [done|]. by rewrite !(fmap_renamed_keeps d name Hd).
Qed.

Lemma finals_NoDup : NoDup finals.
Proof.
  apply NoDup_alt. intros i j x. unfold finals. rewrite !list_lookup_imap.
  destruct (files !! i) as [n1|]; [|done]. destruct (files !! j) as [n2|]; [|done].
  cbn. intros [= <-] [= Heq]. by apply expected_name_inj in Heq.
Qed.

(** No file is left under a name that is none of the final names. *)
Lemma old_name_free (name : string) :
  name ∈ files → name ∉ finals → d1 !! name = None.
Proof.
  intros [k Hk]%list_elem_of_lookup Hnf.
  apply (planned_vacated refuses plan d (d1)
           (plan_from_temp_ne_final _ _ _) all_renamed).
  - intros Hin. by apply Hnf, plan_finals_subseteq.
  - left. apply (in_plan_paths k name Hk). intros Heq. apply Hnf.
    apply elem_of_finals. by exists k, name.
Qed.

(** Names outside the pass keep what they held. *)
Lemma other_name_kept (x : string) :
  x ∉ files → x ∉ e_temp <$> plan → x ∉ finals → d1 !! x = d !! x.
Proof.
  intros Hx Ht Hf. apply (unplanned_lookup refuses plan d _ all_renamed); [|done|].
  - intros (e & -> & (k & name & Hk & _ & ->)%elem_of_plan)%list_elem_of_fmap.
    apply Hx. by apply list_elem_of_lookup_2 in Hk.
  - intros Hin. by apply Hf, plan_finals_subseteq.
Qed.

(** A temporary name holds nothing once the pass is over. *)
Lemma temp_name_free (x : string) :
  x ∈ e_temp <$> plan → x ∉ finals → d1 !! x = None.
Proof.
  intros Ht Hnf.
  apply (planned_vacated refuses plan d d1 (plan_from_temp_ne_final _ _ _) all_renamed);
    [|by right].
  intros Hin. by apply Hnf, plan_finals_subseteq.
Qed.

End full_pass.

(** ** The corrected pass that renames everything it planned *)

Section corrected_pass.
Import FS.
Variable refuses : dir → string → string → bool.
Variable h : handler.
Variable d : dir.
Variable items files : list string.

Hypothesis files_sorted : Corrected.sorted_files d (Some items) = Some files.

Lemma files_NoDup : NoDup items → NoDup files.
Proof.
  intros Hnd. rewrite (sorted_files_perm _ _ _ files_sorted).
  by apply get_real_image_files_NoDup.
Qed.

Lemma files_accessible (name : string) : name ∈ files → name ∈ items ∧ accessible d name = true.
Proof.
  rewrite (sorted_files_perm _ _ _ files_sorted). apply get_real_image_files_listed.
Qed.

Lemma all_renamed :
  r_count (Corrected.reorganize_all_files refuses h d (Some items))
    = length (Corrected.rename_plan h d (Some items)) →
  rename_all refuses (phase1_moves (plan_from (prefix h) 0 files) ++
                      phase2_moves (plan_from (prefix h) 0 files)) d
    = Some (r_fs (Corrected.reorganize_all_files refuses h d (Some items))).
Proof.
  intros Hcount.
  pose proof (full_pass_renames refuses h d (Some items)) as H. cbn zeta in H.
  rewrite (rename_plan_sorted _ _ _ _ files_sorted) in H.
  apply H. by rewrite Hcount, (rename_plan_sorted _ _ _ _ files_sorted).
Qed.

End corrected_pass.

(** ** The pass after a pass that renamed everything *)

Lemma Sorted_key_le_keys {A B} (l : list (Z * A)) (l' : list (Z * B)) :
  l.*1 = l'.*1 → Sorted key_le l → Sorted key_le l'.
Proof.
  intros Hk Hl. revert l' Hk.
  induction Hl as [|x l Hl IH Hx]; intros [|y l'] Hk; try done.
  rewrite !fmap_cons in Hk. injection Hk as Hxy Hk.
  constructor; [by apply IH|].
  destruct Hx as [|z l Hz]; destruct l' as [|z' l']; try done; constructor.
  rewrite !fmap_cons in Hk. injection Hk as Hz' _. unfold key_le in *. congruence.
Qed.

Lemma accessible_ext (d1 d2 : FS.dir) (x y : string) :
  d1 !! x = d2 !! y → image_name x = image_name y → accessible d1 x = accessible d2 y.
Proof.
  unfold accessible, FS.is_file, FS.exists_, FS.stat, FS.can_read. by intros -> ->.
Qed.

Lemma getctime_ext (d1 d2 : FS.dir) (x y : string) :
  d1 !! x = d2 !! y → FS.getctime d1 x = FS.getctime d2 y.
Proof. unfold FS.getctime. by intros ->. Qed.

Lemma plan_from_nil (pfx : string) (k : nat) (files : list string) :
  (∀ i name, files !! i = Some name → name = expected_name pfx (k + i) name) →
  plan_from pfx k files = [].
Proof.
  intros H. destruct (plan_from pfx k files) as [|e pl] eqn:Hp; [done|].
  assert (e ∈ plan_from pfx k files) as (i & name & Hi & Hne & _)%elem_of_plan_from
    by (rewrite Hp; left).
  by destruct Hne; apply H.
Qed.

Lemma enumerates_NoDup (d : FS.dir) (listing : list string) :
  FS.enumerates d listing → NoDup listing.
Proof. intros ->. apply NoDup_fst_map_to_list. Qed.

Lemma enumerates_elem (d : FS.dir) (listing : list string) (x : string) :
  FS.enumerates d listing → x ∈ listing ↔ is_Some (d !! x).
Proof.
  intros ->. rewrite list_elem_of_fmap. split.
  - intros ([y nd] & -> & Hin). exists nd. by apply elem_of_map_to_list.
  - intros [nd Hnd]. exists (x, nd). split; [done|]. by apply elem_of_map_to_list.
Qed.

Section second_pass.
Import FS.
Variable refuses : dir → string → string → bool.
Variable pfx : string.
Variable d d1 : dir.
Variable items items' files : list string.

(** What an implementation retains of an enumeration: the test on one
    name, and the list it builds. *)
Variable cand : dir → string → bool.
Variable cands : dir → list string → list string.

Hypothesis elem_of_cands : ∀ x, x ∈ cands d items ↔ x ∈ items ∧ cand d x = true.
Hypothesis elem_of_cands' : ∀ x, x ∈ cands d1 items' ↔ x ∈ items' ∧ cand d1 x = true.
Hypothesis cands_NoDup : NoDup items' → NoDup (cands d1 items').
Hypothesis cand_image : ∀ d0 x, cand d0 x = true → image_name x = true.
Hypothesis cand_final : ∀ k x,
  cand d x = true → Text.lower (PurePath.suffix x) ∈ image_exts →
  d1 !! expected_name pfx k x = d !! x → cand d1 (expected_name pfx k x) = true.
Hypothesis cand_kept : ∀ x, d1 !! x = d !! x → cand d1 x = cand d x.

(** Renames keep the creation time. *)
Hypothesis ctime_kept : keeps_ctime d.

Hypothesis items_enum : enumerates d items.
Hypothesis items'_enum : enumerates d1 items'.
Hypothesis files_sorted : Sort.sort_by_key (getctime d) (cands d items) = Some files.
Hypothesis ctimes_differ : NoDup ((decorate (getctime d) <$> files).*1).
Hypothesis suffixes : Forall (λ name, PurePath.suffix name ≠ "") files.

Local Abbreviation plan := (plan_from pfx 0 files).
Local Abbreviation finals := (imap (expected_name pfx) files).

Hypothesis all_renamed :
  rename_all refuses (phase1_moves plan ++ phase2_moves plan) d = Some d1.

Lemma files_distinct : NoDup files.
Proof. by do 2 apply NoDup_fmap_1 in ctimes_differ. Qed.

Lemma file_cand (name : string) : name ∈ files → name ∈ items ∧ cand d name = true.
Proof. rewrite (sort_by_key_perm _ _ _ files_sorted). apply elem_of_cands. Qed.

Lemma file_getctime (name : string) : name ∈ files → is_Some (getctime d name).
Proof.
  rewrite (sort_by_key_perm _ _ _ files_sorted).
  apply sort_by_key_Some in files_sorted as [Hall _].
  apply (proj1 (Forall_forall _ _) Hall).
Qed.

Lemma final_lookup (k : nat) (name : string) :
  files !! k = Some name → d1 !! expected_name pfx k name = d !! name.
Proof.
  intros Hk.
  by apply (file_at_expected_name_kept refuses pfx d d1 files files_distinct all_renamed).
Qed.

Lemma file_ext (name : string) :
  name ∈ files → Text.lower (PurePath.suffix name) ∈ image_exts.
Proof.
  intros Hin. apply image_suffix_lower.
  - apply file_cand in Hin as [_ Hc]. by apply cand_image in Hc.
  - by apply (proj1 (Forall_forall _ _) suffixes).
Qed.

Lemma final_cand (x : string) : x ∈ finals → x ∈ items' ∧ cand d1 x = true.
Proof.
  intros (k & name & Hk & ->)%elem_of_finals.
  pose proof (list_elem_of_lookup_2 _ _ _ Hk) as Hin. split.
  - apply (enumerates_elem _ _ _ items'_enum). rewrite (final_lookup _ _ Hk).
    destruct (file_getctime _ Hin) as [c Hc]. unfold getctime in Hc.
    by destruct (d !! name).
  - apply cand_final; [by apply file_cand|by apply file_ext|by apply final_lookup].
Qed.

Lemma cand_is_final (x : string) : x ∈ items' → cand d1 x = true → x ∈ finals.
Proof.
  intros [nd Hnd]%(enumerates_elem _ _ _ items'_enum) Hc.
  destruct (decide (x ∈ finals)) as [|Hnf]; [done|exfalso].
  destruct (decide (x ∈ files)) as [Hf|Hf].
  { pose proof (old_name_free refuses pfx d d1 files files_distinct all_renamed x Hf Hnf).
    congruence. }
  destruct (decide (x ∈ e_temp <$> plan)) as [Ht|Ht].
  { pose proof (temp_name_free refuses pfx d d1 files all_renamed x Ht Hnf). congruence. }
  pose proof (other_name_kept refuses pfx d d1 files all_renamed x Hf Ht Hnf) as Hkept.
  apply Hf. rewrite (sort_by_key_perm _ _ _ files_sorted). apply elem_of_cands. split.
  - apply (enumerates_elem _ _ _ items_enum). rewrite <-Hkept. by eexists.
  - by rewrite <-(cand_kept _ Hkept).
Qed.

Lemma second_resolve : cands d1 items' ≡ₚ finals.
Proof.
  pose proof (enumerates_NoDup _ _ items'_enum) as Hnd.
  apply NoDup_Permutation; [by apply cands_NoDup|apply finals_NoDup|].
  intros x. rewrite elem_of_cands'. split.
  - intros [? ?]. by apply cand_is_final.
  - apply final_cand.
Qed.

Lemma finals_keys :
  (decorate (getctime d1) <$> finals).*1 = (decorate (getctime d) <$> files).*1.
Proof.
  rewrite <-!list_fmap_compose, fmap_imap.
  rewrite <-(imap_const (fst ∘ decorate (getctime d))).
  apply imap_ext. intros k name Hk. cbn. f_equal. apply getctime_ext.
  by apply final_lookup.
Qed.

Lemma first_sorted : Sorted key_le (decorate (getctime d) <$> files).
Proof.
  pose proof files_sorted as [_ Hf]%sort_by_key_Some.
  assert (decorate (getctime d) <$> files
          = Sort.sort_decorated (decorate (getctime d) <$> cands d items))
    as ->; [|apply sort_decorated_sorted].
  rewrite Hf. symmetry. apply (decorated_perm _ _ _ (sort_decorated_perm _)).
Qed.

(** The second pass sorts the final names in the order of their numbers. *)
Lemma second_sorted : Sort.sort_by_key (getctime d1) (cands d1 items') = Some finals.
Proof.
  apply sort_by_key_Some. split.
  - apply Forall_forall. intros x Hx. rewrite second_resolve in Hx.
    apply elem_of_finals in Hx as (k & name & Hk & ->).
    rewrite (getctime_ext d1 d _ name) by (by apply final_lookup).
    apply file_getctime. by eapply list_elem_of_lookup_2.
  - rewrite <-(sort_decorated_unique (decorate (getctime d1) <$> finals)).
    + rewrite sorted_already, decorate_snd; [done| |].
      * apply (Sorted_key_le_keys (decorate (getctime d) <$> files));
          [by rewrite finals_keys|apply first_sorted].
      * by rewrite finals_keys.
    + by rewrite finals_keys.
    + by rewrite second_resolve.
Qed.

(** Every final name is the name its rank asks for. *)
Lemma finals_settled : plan_from pfx 0 finals = [].
Proof.
  apply plan_from_nil. intros i x. rewrite list_lookup_imap.
  destruct (files !! i) as [name|] eqn:Hi; [|done]. intros [= <-]. cbn.
  symmetry. apply expected_name_fixed, file_ext. by apply list_elem_of_lookup_2 in Hi.
Qed.

End second_pass.

(** ** The order of the resolver *)

Section order_facts.
Import FS.

Lemma StronglySorted_lookup_lt {A} (R : relation A) (l : list A) (i j : nat) (a b : A) :
  StronglySorted R l → i < j → l !! i = Some a → l !! j = Some b → R a b.
Proof.
  intros Hl. revert i j. induction Hl as [|x l Hl IH Hx]; intros i j Hij Hi Hj; [done|].
  destruct j as [|j]; [lia|]. cbn in Hj. destruct i as [|i]; cbn in Hi.
  - injection Hi as ->. apply (proj1 (Forall_forall _ _) Hx).
    by apply list_elem_of_lookup_2 in Hj.
  - apply (IH i j); [lia|done..].
Qed.

Lemma filter_ext_in {A} (P Q : A → Prop) `{∀ x, Decision (P x)} `{∀ x, Decision (Q x)}
    (l : list A) :
  (∀ x, x ∈ l → P x ↔ Q x) → filter P l = filter Q l.
Proof.
  induction l as [|x l IH]; intros HPQ; [done|]. rewrite !filter_cons.
  rewrite IH by (intros y Hy; apply HPQ; by right).
  destruct (decide (P x)) as [HP|HP], (decide (Q x)) as [HQ|HQ]; try done.
  - destruct HQ. apply HPQ; [by left|done].
  - destruct HP. apply HPQ; [by left|done].
Qed.

Lemma filter_fmap_pre {A B} (f : A → B) (P : B → Prop) `{∀ y, Decision (P y)}
    (l : list A) :
  filter P (f <$> l) = f <$> filter (λ x, P (f x)) l.
Proof.
  induction l as [|x l IH]; [done|]. rewrite fmap_cons, !filter_cons, IH.
  by destruct (decide (P (f x))).
Qed.

Variable d : dir.
Variable cands files : list string.
Hypothesis files_sorted : Sort.sort_by_key (getctime d) cands = Some files.

Lemma sorted_files_decorated :
  decorate (getctime d) <$> files = Sort.sort_decorated (decorate (getctime d) <$> cands).
Proof.
  apply sort_by_key_Some in files_sorted as [_ Hf].
  rewrite Hf. symmetry. apply (decorated_perm _ _ _ (sort_decorated_perm _)).
Qed.

Lemma files_getctime (x : string) :
  x ∈ files → getctime d x = Some (default 0%Z (getctime d x)).
Proof.
  rewrite (sort_by_key_perm _ _ _ files_sorted).
  apply sort_by_key_Some in files_sorted as [Hall _].
  intros [c ->]%(proj1 (Forall_forall _ _) Hall). done.
Qed.

(** Ascending creation times. *)
Lemma sorted_files_ascending (i j : nat) (a b : string) :
  i < j → files !! i = Some a → files !! j = Some b →
  ∃ ca cb, getctime d a = Some ca ∧ getctime d b = Some cb ∧ (ca ≤ cb)%Z.
Proof.
  intros Hij Hi Hj.
  exists (default 0%Z (getctime d a)), (default 0%Z (getctime d b)).
  split_and!; [apply files_getctime; by eapply list_elem_of_lookup_2..|].
  pose proof (sort_decorated_sorted (decorate (getctime d) <$> cands)) as Hs.
  rewrite <-sorted_files_decorated in Hs. apply Sorted_StronglySorted in Hs; [|apply _].
  apply (StronglySorted_lookup_lt _ _ i j (decorate (getctime d) a)
           (decorate (getctime d) b) Hs Hij); rewrite list_lookup_fmap.
  - by rewrite Hi.
  - by rewrite Hj.
Qed.

(** Files of one creation time stay in the order of the enumeration. *)
Lemma sorted_files_stable (c : Z) :
  filter (λ x, getctime d x = Some c) files = filter (λ x, getctime d x = Some c) cands.
Proof.
  assert (∀ l : list string, (∀ x, x ∈ l → x ∈ files) →
            decorate (getctime d) <$> filter (λ x, getctime d x = Some c) l
            = filter (λ y, y.1 = c) (decorate (getctime d) <$> l)) as Hdec.
  { intros l Hl. rewrite filter_fmap_pre. f_equal. apply filter_ext_in.
    intros x Hx%Hl%files_getctime. unfold decorate. cbn. rewrite Hx. cbn.
    split; congruence. }
  apply (inj (fmap (M:=list) (decorate (getctime d)))).
  rewrite !Hdec; [|by intros x; rewrite (sort_by_key_perm _ _ _ files_sorted)|done].
  by rewrite sorted_files_decorated, sort_decorated_stable.
Qed.

(** Creation times that differ one from another make distinct keys. *)
Lemma ctimes_NoDup :
  NoDup (getctime d <$> files) → NoDup ((decorate (getctime d) <$> files).*1).
Proof.
  intros Hnd. rewrite <-list_fmap_compose.
  replace (fst ∘ decorate (getctime d)) with (default 0%Z ∘ getctime d) by done.
  rewrite list_fmap_compose. apply NoDup_fmap_2_strong; [|done].
  intros x y (a & -> & Ha)%list_elem_of_fmap (b & -> & Hb)%list_elem_of_fmap.
  rewrite (files_getctime a Ha), (files_getctime b Hb). cbn. congruence.
Qed.

(** When two files of one creation time are the same file, the order does
    not depend on the order the candidates come in. *)
Lemma sorted_files_enumeration_ties (cands' : list string) :
  cands ≡ₚ cands' →
  (∀ a b, a ∈ files → b ∈ files → getctime d a = getctime d b → a = b) →
  Sort.sort_by_key (getctime d) cands' = Some files.
Proof.
  intros Hperm Hties.
  pose proof files_sorted as [Hall Hf]%sort_by_key_Some.
  apply sort_by_key_Some. split; [by rewrite <-Hperm|].
  rewrite Hf. f_equal. apply sort_decorated_unique_ties; [|by rewrite Hperm].
  intros x y (a & -> & Ha)%list_elem_of_fmap (b & -> & Hb)%list_elem_of_fmap Hk.
  rewrite <-(sort_by_key_perm _ _ _ files_sorted) in Ha, Hb.
  f_equal. apply Hties; [done..|].
  rewrite (files_getctime a Ha), (files_getctime b Hb). f_equal. exact Hk.
Qed.

(** So it is when all creation times differ. *)
Lemma sorted_files_enumeration (cands' : list string) :
  cands ≡ₚ cands' → NoDup (getctime d <$> files) →
  Sort.sort_by_key (getctime d) cands' = Some files.
Proof.
  intros Hperm Hkeys. apply sorted_files_enumeration_ties; [done|].
  intros a b [i Hi]%list_elem_of_lookup [j Hj]%list_elem_of_lookup Hab.
  assert (i = j) as ->; [|congruence].
  apply (NoDup_lookup _ _ _ (getctime d a) Hkeys); rewrite list_lookup_fmap.
  - by rewrite Hi.
  - by rewrite Hj, Hab.
Qed.

End order_facts.

(** ** The phases under a failure *)

Section failure_facts.
Import FS.
Variable refuses : dir → string → string → bool.

Lemma phase1_out (plan : list entry) (st : run) :
  ∃ new, r_out (Corrected.phase1 refuses plan st) = r_out st ++ new ∧
    ∀ e, e ∈ plan → MsgPhase1 (e_path e) (e_temp e) ∈ new ∨
                     MsgPhase1Error (e_path e) (e_temp e) ∈ new.
Proof.
  revert st. induction plan as [|[[p t] f] plan IH]; intros st.
  - exists []. rewrite app_nil_r. split; [done|]. by intros e ?%elem_of_nil.
  - cbn [Corrected.phase1].
    destruct (rename refuses (r_fs st) p t) as [d1|];
      match goal with |- context [Corrected.phase1 refuses plan ?s] =>
        destruct (IH s) as (new & Hnew & Hall) end;
      cbn [r_out] in Hnew; rewrite <-app_assoc in Hnew;
      eexists; (split; [exact Hnew|]);
      intros e [->|He]%elem_of_cons; cbn; rewrite !elem_of_cons;
      try (destruct (Hall e He); tauto); tauto.
Qed.

(** What phase 1 does to the directory and which entries it keeps depends
    on the directory alone. *)
Lemma phase1_same_fs (plan : list entry) (st1 st2 : run) :
  r_fs st1 = r_fs st2 →
  r_fs (Corrected.phase1 refuses plan st1) = r_fs (Corrected.phase1 refuses plan st2) ∧
  ∃ kept, r_phase1 (Corrected.phase1 refuses plan st1) = r_phase1 st1 ++ kept ∧
          r_phase1 (Corrected.phase1 refuses plan st2) = r_phase1 st2 ++ kept.
Proof.
  revert st1 st2. induction plan as [|[[p t] f] plan IH]; intros st1 st2 Hfs.
  - split; [done|]. exists []. by rewrite !app_nil_r.
  - cbn [Corrected.phase1]. rewrite Hfs.
    destruct (rename refuses (r_fs st2) p t) as [d1|].
    + destruct (IH {| r_fs := d1; r_temp_files := {[t]} ∪ r_temp_files st1;
                      r_phase1 := r_phase1 st1 ++ [(p, t, f)]; r_count := r_count st1;
                      r_out := r_out st1 ++ [MsgPhase1 p t] |}
                   {| r_fs := d1; r_temp_files := {[t]} ∪ r_temp_files st2;
                      r_phase1 := r_phase1 st2 ++ [(p, t, f)]; r_count := r_count st2;
                      r_out := r_out st2 ++ [MsgPhase1 p t] |} eq_refl)
        as (Hd & kept & H1 & H2).
      split; [done|]. exists ((p, t, f) :: kept).
      cbn [r_phase1] in H1, H2. by rewrite H1, H2, <-!app_assoc.
    + destruct (IH {| r_fs := r_fs st2; r_temp_files := {[t]} ∪ r_temp_files st1;
                      r_phase1 := r_phase1 st1; r_count := r_count st1;
                      r_out := r_out st1 ++ [MsgPhase1Error p t] |}
                   {| r_fs := r_fs st2; r_temp_files := {[t]} ∪ r_temp_files st2;
                      r_phase1 := r_phase1 st2; r_count := r_count st2;
                      r_out := r_out st2 ++ [MsgPhase1Error p t] |} eq_refl)
        as (Hd & kept & H1 & H2).
      split; [done|]. by exists kept.
Qed.

Lemma original_phase1_app (pl1 pl2 : list entry) (st : run) :
  Original.phase1 refuses (pl1 ++ pl2) st =
    match Original.phase1 refuses pl1 st with
    | Completed st1 => Original.phase1 refuses pl2 st1
    | Raised st1 => Raised st1
    end.
Proof.
  revert st. induction pl1 as [|[[p t] f] pl1 IH]; intros st; [done|].
  cbn [app Original.phase1 r_fs]. by destruct (rename _ _ _ _).
Qed.

End failure_facts.

(** ** The probe *)

Section probe_facts.
Import Probe.

Lemma wait_loop_timed_out (timeout start_time : Z) (script : list tick)
    (last_size : Z) (stable_count : nat) (l : Z) (c : nat) (p : poll) :
  wait_loop timeout start_time script last_size stable_count = TimedOut l c p →
  (stable_count < 2 → c < 2) ∧
  ∃ now, (now, p) ∈ script ∧ (timeout ≤ now - start_time)%Z.
Proof.
  revert last_size stable_count.
  induction script as [|[now q] script IH]; intros last_size stable_count; [done|].
  cbn [wait_loop]. destruct (Z.ltb_spec (now - start_time) timeout) as [Hlt|Hge]; cbn [negb].
  - assert (∀ ls sc, (stable_count < 2 → sc < 2) →
              wait_loop timeout start_time script ls sc = TimedOut l c p →
              (stable_count < 2 → c < 2) ∧
              ∃ now0, (now0, p) ∈ (now, q) :: script ∧ (timeout ≤ now0 - start_time)%Z)
      as Hrec.
    { intros ls sc Hsc [Hc (now0 & Hin & Hle)]%IH. split; [auto|].
      exists now0. split; [by right|done]. }
    destruct q as [| |current_size]; [done..|].
    destruct (0 <? current_size)%Z; [|by apply Hrec].
    destruct (current_size =? last_size)%Z; [|apply Hrec; lia].
    destruct (Nat.leb_spec 2 (S stable_count)); [done|]. apply Hrec. lia.
  - intros [= <- <- <-]. split; [done|]. exists now. split; [by left|done].
Qed.

End probe_facts.

(** ** The naming format *)

Section format_facts.
Import Text PurePath.

Lemma image_ext_dot (e : string) :
  e ∈ image_exts → ∃ ext, e = "." +:+ ext ∧ ext ∈ ["png"; "jpg"; "jpeg"].
Proof.
  unfold image_exts. rewrite !elem_of_cons, elem_of_nil.
  intros [->|[->|[->|[]]]]; eexists; (split; [reflexivity|]);
    rewrite !elem_of_cons; auto.
Qed.

Lemma expected_name_format (pfx : string) (i : nat) (name : string) :
  lower (suffix name) ∈ image_exts → wire_format pfx (expected_name pfx i name).
Proof.
  intros (ext & He & Hext)%image_ext_dot.
  exists (fmt_02d (i + 1)), ext. unfold expected_name. rewrite He.
  split_and!; [done|apply fmt_02d_digits|apply fmt_02d_length|done].
Qed.

Lemma count_dot_ge (s ext : string) : 1 ≤ count_char "." (s +:+ "." +:+ ext).
Proof.
  rewrite !count_char_app. change (count_char "." ".") with 1. lia.
Qed.

(** A name that is the prefix, an underscore and digits is not in the
    format. *)
Lemma no_extension_no_format (pfx digits : string) :
  all_digits digits = true → ¬ wire_format pfx (pfx +:+ "_" +:+ digits).
Proof.
  intros Hd (ds & ext & Heq & _). apply (inj _), (inj _) in Heq.
  pose proof (count_dot_ge ds ext) as Hc. rewrite <-Heq in Hc.
  rewrite count_char_digits in Hc by done. lia.
Qed.

End format_facts.

(** ** Either implementation *)

Section either_facts.
Import FS.
Variable refuses : dir → string → string → bool.
Variable impl : implementation.

Lemma either_sorted_files (d : dir) (items : list string) :
  Either.sorted_files impl d items
  = Sort.sort_by_key (getctime d) (Either.image_files impl d items).
Proof. by destruct impl. Qed.

Lemma elem_of_either_image_files (d : dir) (items : list string) (x : string) :
  x ∈ Either.image_files impl d items ↔
  x ∈ considered impl d items ∧ candidate impl d x = true.
Proof.
  either_case impl.
  1,2: apply elem_of_image_files.
  rewrite elem_of_get_real_image_files. split.
  - by intros (its & [= <-] & ? & ?).
  - intros [? ?]. by exists items.
Qed.

Lemma considered_all (d : dir) (items : list string) :
  answering impl d → considered impl d items = items.
Proof. intros Hd. either_case impl; [done..|]. by apply reached_all. Qed.

Lemma either_image_files_perm (d : dir) (items items' : list string) :
  answering impl d → items ≡ₚ items' →
  Either.image_files impl d items ≡ₚ Either.image_files impl d items'.
Proof.
  intros Hd Hp. either_case impl.
  1,2: by apply image_files_perm.
  rewrite !get_real_image_files_filter, !reached_all by done. by rewrite Hp.
Qed.

Lemma either_image_files_NoDup (d : dir) (items : list string) :
  impl ≠ original false → NoDup items → NoDup (Either.image_files impl d items).
Proof.
  intros Hi Hnd. either_case impl; [|done|].
  - by apply image_files_NoDup.
  - by apply get_real_image_files_NoDup.
Qed.

Lemma candidate_image (d : dir) (x : string) :
  candidate impl d x = true → image_name x = true.
Proof.
  either_case impl.
  1,2: apply matched_image_name.
  by intros (? & ? & _ & _ & ? & _)%accessible_inv.
Qed.

Lemma candidate_final (pfx : string) (d d1 : dir) (k : nat) (x : string) :
  candidate impl d x = true → Text.lower (PurePath.suffix x) ∈ image_exts →
  d1 !! expected_name pfx k x = d !! x → candidate impl d1 (expected_name pfx k x) = true.
Proof.
  intros Hc He Hl. either_case impl.
  1,2: by apply matched_final.
  rewrite <-Hc. apply accessible_ext; [done|].
  destruct (expected_name_suffix pfx k x He) as [-> _].
  by apply accessible_inv in Hc as (? & ? & _ & _ & -> & _).
Qed.

Lemma candidate_kept (d d1 : dir) (x : string) :
  d1 !! x = d !! x → candidate impl d1 x = candidate impl d x.
Proof. intros Hl. either_case impl; [done..|]. by apply accessible_ext. Qed.

Variable h : handler.
Variable d : dir.
Variable items : list string.

Lemma either_rename_plan_sorted (files : list string) :
  Either.sorted_files impl d items = Some files →
  Either.rename_plan impl h d items = plan_from (prefix h) 0 files.
Proof.
  either_case impl.
  1,2: apply original_rename_plan_sorted.
  apply rename_plan_sorted.
Qed.

Lemma either_full_pass_renames :
  let st := Either.reorganize_all_files refuses impl h d items in
  let plan := Either.rename_plan impl h d items in
  r_count st = length plan →
  rename_all refuses (phase1_moves plan ++ phase2_moves plan) d = Some (r_fs st).
Proof.
  either_case impl.
  1,2: apply original_full_pass_renames.
  apply full_pass_renames.
Qed.

Lemma either_empty_plan_pass :
  Either.rename_plan impl h d items = [] →
  r_fs (Either.reorganize_all_files refuses impl h d items) = d ∧
  r_count (Either.reorganize_all_files refuses impl h d items) = 0.
Proof.
  either_case impl.
  1,2: apply original_empty_plan_pass.
  unfold Corrected.rename_plan, Corrected.sorted_files, Corrected.reorganize_all_files.
  case_bool_decide; [done|].
  destruct (Sort.sort_by_key _ _) as [files|]; [|done].
  intros ->. by rewrite bool_decide_eq_true_2.
Qed.

End either_facts.

(** ** The second of two passes *)

Section either_second_pass.
Import FS.
Variable refuses : dir → string → string → bool.
Variable impl : implementation.
Variable h h' : handler.
Variable d : dir.
Variable items items' files : list string.

Local Abbreviation st := (Either.reorganize_all_files refuses impl h d items).

Hypothesis same_prefix : prefix h' = prefix h.
Hypothesis with_case : impl ≠ original false.
Hypothesis ctime_kept : keeps_ctime d.
Hypothesis answers : answering impl d.
Hypothesis items_enum : enumerates d items.
Hypothesis files_sorted : Either.sorted_files impl d items = Some files.
Hypothesis ctimes_differ : NoDup (getctime d <$> files).
Hypothesis suffixes : Forall (λ name, PurePath.suffix name ≠ "") files.
Hypothesis all_counted : r_count st = length (Either.rename_plan impl h d items).
Hypothesis items'_enum : enumerates (r_fs st) items'.

Lemma either_all_renamed :
  rename_all refuses (phase1_moves (plan_from (prefix h) 0 files) ++
                      phase2_moves (plan_from (prefix h) 0 files)) d = Some (r_fs st).
Proof.
  rewrite <-(either_rename_plan_sorted impl h d items files files_sorted).
  by apply either_full_pass_renames.
Qed.

Lemma still_answering : answering impl (r_fs st).
Proof.
  pose proof either_all_renamed as Hall. pose proof answers as Hd.
  destruct impl; [done|]. by apply (rename_all_is_file_answers _ _ _ _ Hd Hall).
Qed.

Lemma either_second_sorted :
  Either.sorted_files impl (r_fs st) items' = Some (imap (expected_name (prefix h)) files).
Proof.
  rewrite either_sorted_files.
  apply (second_sorted refuses (prefix h) d (r_fs st) items items' files
           (candidate impl) (Either.image_files impl)).
  - intros x. by rewrite elem_of_either_image_files, considered_all.
  - intros x. rewrite elem_of_either_image_files, considered_all; [done|].
    apply still_answering.
  - by apply either_image_files_NoDup.
  - apply candidate_image.
  - apply candidate_final.
  - apply candidate_kept.
  - done.
  - done.
  - done.
  - by rewrite <-either_sorted_files.
  - apply (ctimes_NoDup d (Either.image_files impl d items)); [|done].
    by rewrite <-either_sorted_files.
  - done.
  - apply either_all_renamed.
Qed.

Lemma either_second_plan : Either.rename_plan impl h' (r_fs st) items' = [].
Proof.
  rewrite (either_rename_plan_sorted _ _ _ _ _ either_second_sorted), same_prefix.
  apply (finals_settled (prefix h) d items files (candidate impl) (Either.image_files impl)).
  - intros x. by rewrite elem_of_either_image_files, considered_all.
  - apply candidate_image.
  - by rewrite <-either_sorted_files.
  - done.
Qed.

End either_second_pass.

(** * The properties of the specification *)

(** ** The plan: names, format, the two implementations *)

(** C10: for every ordered file list and every prefix the plan of the
    original implementation and the plan of the corrected one are the same
    sequence of triples, the one the specification describes: final name
    [<prefix>_<i+1 padded to 2><extension in lower case>], temporary name
    [TEMP_<i+1 padded to 2>_<prefix><extension>], and an entry exactly for
    the files whose current name differs from the final name.  The padded
    number is the decimal writing of [i+1], with a zero before a single
    digit; the extension of an image name is one of the three extensions in
    lower case, or nothing when the name is an extension alone. *)
Theorem plans_agree (pfx : string) (orderedFiles : list string) :
  Original.compute_plan pfx orderedFiles = Corrected.compute_plan pfx orderedFiles ∧
  Corrected.compute_plan pfx orderedFiles = computePlan_spec pfx orderedFiles ∧
  (∀ e, e ∈ Corrected.compute_plan pfx orderedFiles ↔
     ∃ i name, orderedFiles !! i = Some name ∧
       e = (name,
            "TEMP_" +:+ zero_padded (i + 1) +:+ "_" +:+ pfx +:+
              Text.lower (PurePath.suffix name),
            pfx +:+ "_" +:+ zero_padded (i + 1) +:+ Text.lower (PurePath.suffix name)) ∧
       name ≠ e_final e) ∧
  zero_padded 7 = "07" ∧ zero_padded 42 = "42" ∧ zero_padded 100 = "100" ∧
  (∀ name, image_name name = true →
     Text.lower (PurePath.suffix name) ∈ [".png"; ".jpg"; ".jpeg"] ∨
     PurePath.suffix name = "" ∧ Text.lower name ∈ [".png"; ".jpg"; ".jpeg"]).
Proof.
  unfold Original.compute_plan, Corrected.compute_plan, computePlan_spec.
  rewrite original_plan_loop, corrected_plan_loop, app_nil_l.
  split_and!; [done| | |done..|].
  - symmetry. apply (spec_plan_from pfx 0).
  - intros e. rewrite elem_of_plan_from. cbn [Nat.add].
    setoid_rewrite expected_name_spec. setoid_rewrite temp_name_spec. split.
    + intros (i & name & Hi & Hne & ->). by exists i, name.
    + intros (i & name & Hi & -> & Hne). by exists i, name.
  - intros name [[? ?]|[_ ?]]%image_suffix; [by right|by left].
Qed.

(** C2: within one plan the temporary names are pairwise distinct, and no
    temporary name is a final name of the plan; the plan is that of either
    implementation. *)
Theorem temporary_names_disjoint (pfx : string) (files : list string) :
  Original.compute_plan pfx files = Corrected.compute_plan pfx files ∧
  NoDup (e_temp <$> Corrected.compute_plan pfx files) ∧
  Forall (λ e1, Forall (λ e2, e_temp e1 ≠ e_final e2) (Corrected.compute_plan pfx files))
         (Corrected.compute_plan pfx files).
Proof.
  unfold Original.compute_plan, Corrected.compute_plan.
  rewrite original_plan_loop, corrected_plan_loop, app_nil_l. split_and!; [done| |].
  - apply plan_from_temps_NoDup.
  - apply Forall_forall. intros e1 He1. apply Forall_forall. intros e2 He2.
    by apply (plan_from_temp_ne_final pfx 0 files).
Qed.

(** The final name of a file whose name has a suffix: it is in the format,
    its number is the rank of the file, printed with two digits at least and
    in full from 100 on. *)
Theorem final_name_format (pfx : string) (i : nat) (name : string) :
  image_name name = true → PurePath.suffix name ≠ "" →
  wire_format pfx (expected_name pfx i name) ∧
  (∃ ext, Text.lower (PurePath.suffix name) = "." +:+ ext ∧
          expected_name pfx i name = pfx +:+ "_" +:+ Text.fmt_02d (i + 1) +:+ "." +:+ ext) ∧
  Text.read_nat 0 (Text.fmt_02d (i + 1)) = (i + 1, "") ∧
  2 ≤ String.length (Text.fmt_02d (i + 1)) ∧
  (9 ≤ i → Text.fmt_02d (i + 1) = Text.str_of_nat (i + 1)) ∧
  Text.fmt_02d 100 = "100".
Proof.
  intros Himg Hsuf. pose proof (image_suffix_lower _ Himg Hsuf) as Hext.
  split_and!.
  - by apply expected_name_format.
  - apply image_ext_dot in Hext as (ext & He & _). exists ext. split; [done|].
    unfold expected_name. by rewrite He.
  - rewrite <-(sapp_nil_r (Text.fmt_02d (i + 1))). by apply read_fmt_02d.
  - apply fmt_02d_length.
  - intros Hi. apply fmt_02d_large. lia.
  - reflexivity.
Qed.

Lemma final_name_format_holiday :
  wire_format "Horizon" (expected_name "Horizon" 0 "vacation.png").
Proof. by apply (final_name_format "Horizon" 0 "vacation.png"). Defined.

(** C8: a file named [.png] is accepted by both implementations, and its
    final name is [Horizon_01], which is not in the format
    [<prefix>_<digits>.<extension>]: pathlib gives such a name no suffix. *)
Theorem bare_extension_final_name :
  accessible Examples.bare ".png" = true ∧
  Corrected.rename_plan Examples.horizon Examples.bare (Some [".png"])
    = [(".png", "TEMP_01_Horizon", "Horizon_01")] ∧
  Original.rename_plan true Examples.horizon Examples.bare [".png"]
    = [(".png", "TEMP_01_Horizon", "Horizon_01")] ∧
  Original.rename_plan false Examples.horizon Examples.bare [".png"]
    = [(".png", "TEMP_01_Horizon", "Horizon_01");
       (".png", "TEMP_02_Horizon", "Horizon_02")] ∧
  ¬ wire_format "Horizon" "Horizon_01".
Proof.
  split_and!; [evaluated..|].
  by apply (no_extension_no_format "Horizon" "01").
Qed.

(** ** The resolver *)

(** An entry whose [stat] answers while no byte of it can be read is not in
    the file set of the corrected resolver, hence in no plan of the corrected
    pass. *)
Theorem phantom_excluded (h : handler) (d : FS.dir) (all_items : option (list string))
    (x : string) (nd : FS.node) (st : FS.stat_result) :
  d !! x = Some nd → FS.n_stat nd = Some st → FS.n_readable nd = false →
  (x ∉ Corrected.get_real_image_files d all_items) ∧
  Forall (λ e, e_path e ≠ x) (Corrected.rename_plan h d all_items).
Proof.
  intros Hx Hst Hread.
  assert (x ∉ Corrected.get_real_image_files d all_items) as Hnot.
  { intros (_ & _ & _ & Hacc)%elem_of_get_real_image_files.
    apply accessible_inv in Hacc as (nd' & _ & Hx' & _ & _ & _ & _ & _ & Hr). congruence. }
  split; [done|]. apply Forall_forall. intros e He Heq. apply Hnot.
  destruct (sorted_files_Some d all_items) as [files Hfiles].
  rewrite (rename_plan_sorted _ _ _ _ Hfiles) in He.
  apply elem_of_plan_from in He as (i & name & Hi & _ & ->). cbn in Heq. subst name.
  rewrite <-(sorted_files_perm _ _ _ Hfiles). by eapply list_elem_of_lookup_2.
Qed.

Lemma phantom_excluded_haunted :
  "ghost.png" ∉ Corrected.get_real_image_files Examples.haunted (Some Examples.haunted_listing).
Proof.
  by apply (phantom_excluded Examples.horizon Examples.haunted (Some Examples.haunted_listing)
              "ghost.png" (Examples.phantom 10 1) {| FS.st_size := 10; FS.st_ctime := 1 |}).
Defined.

(** C7: the original implementation lists the directory with [glob] and
    tests nothing: the phantom entry [ghost.png], whose [stat] answers and
    which cannot be read, is in its plan, whatever the platform. *)
Theorem original_plans_phantom :
  Examples.haunted !! "ghost.png" = Some (Examples.phantom 10 1) ∧
  Original.rename_plan true Examples.horizon Examples.haunted Examples.haunted_listing
    = [("ghost.png", "TEMP_01_Horizon.png", "Horizon_01.png");
       ("real.png", "TEMP_02_Horizon.png", "Horizon_02.png")] ∧
  "ghost.png" ∈ e_path <$>
    Original.rename_plan false Examples.horizon Examples.haunted Examples.haunted_listing ∧
  Corrected.rename_plan Examples.horizon Examples.haunted (Some Examples.haunted_listing)
    = [("real.png", "TEMP_01_Horizon.png", "Horizon_01.png")].
Proof.
  split_and!; evaluated.
Qed.

(** C4: two files of the same creation time come out in the order the
    implementation found them, not in the order of their names.  In the
    corrected implementation that is the order of the enumeration: listed
    as [b.png], [a.png] they stay so.  In the original it is the order of
    the six [glob] calls, and inside one call that of the enumeration:
    [b.jpg] listed before [a.png] comes after it (and twice, like [a.png],
    where [glob] ignores the case). *)
Lemma tie_order_follows_enumeration :
  FS.enumerates Examples.twins ["a.png"; "b.png"] ∧
  FS.enumerates Examples.twins ["b.png"; "a.png"] ∧
  FS.getctime Examples.twins "a.png" = FS.getctime Examples.twins "b.png" ∧
  String.ltb "a.png" "b.png" = true ∧
  Corrected.sorted_files Examples.twins (Some ["a.png"; "b.png"]) = Some ["a.png"; "b.png"] ∧
  Corrected.sorted_files Examples.twins (Some ["b.png"; "a.png"]) = Some ["b.png"; "a.png"] ∧
  Original.sorted_files true Examples.twins ["b.png"; "a.png"] = Some ["b.png"; "a.png"] ∧
  FS.enumerates Examples.mixed_twins ["b.jpg"; "a.png"] ∧
  FS.getctime Examples.mixed_twins "a.png" = FS.getctime Examples.mixed_twins "b.jpg" ∧
  Corrected.sorted_files Examples.mixed_twins (Some ["b.jpg"; "a.png"])
    = Some ["b.jpg"; "a.png"] ∧
  Original.sorted_files true Examples.mixed_twins ["b.jpg"; "a.png"]
    = Some ["a.png"; "b.jpg"] ∧
  Original.sorted_files false Examples.mixed_twins ["b.jpg"; "a.png"]
    = Some ["a.png"; "a.png"; "b.jpg"; "b.jpg"].
Proof.
  split_and!; evaluated.
Qed.

(** C4, as the code has it: each implementation returns the files it
    retains in ascending order of creation time, and files of one creation
    time in the order it found them.  The corrected implementation finds
    them in the order of the enumeration, up to the first entry on which
    [is_file()] raises; the original finds them pattern after pattern
    ([*.png], [*.PNG], [*.jpg], [*.JPG], [*.jpeg], [*.JPEG]), each pattern
    in the order of the enumeration.  No file name is compared.  When no
    two different files have the same creation time, and [is_file()] raises
    on no entry, the result is the same for every enumeration of the
    directory. *)
Theorem resolver_order (impl : implementation) (d : FS.dir) (items files : list string) :
  Either.sorted_files impl d items = Some files →
  files ≡ₚ Either.image_files impl d items ∧
  (∀ x, x ∈ files ↔ x ∈ considered impl d items ∧ candidate impl d x = true) ∧
  (∀ i j a b, i < j ∧ files !! i = Some a ∧ files !! j = Some b →
     ∃ ca cb, FS.getctime d a = Some ca ∧ FS.getctime d b = Some cb ∧ (ca ≤ cb)%Z) ∧
  (∀ c, filter (λ x, FS.getctime d x = Some c) files
        = filter (λ x, FS.getctime d x = Some c) (Either.image_files impl d items)) ∧
  Either.image_files impl d items
    = match impl with
      | corrected => filter (λ x, accessible d x) (reached d items)
      | original cs =>
          filter (λ x, Original.fnmatch_star cs ".png" x) items ++
          filter (λ x, Original.fnmatch_star cs ".PNG" x) items ++
          filter (λ x, Original.fnmatch_star cs ".jpg" x) items ++
          filter (λ x, Original.fnmatch_star cs ".JPG" x) items ++
          filter (λ x, Original.fnmatch_star cs ".jpeg" x) items ++
          filter (λ x, Original.fnmatch_star cs ".JPEG" x) items
      end ∧
  (∀ pre x post, items = pre ++ x :: post ∧ FS.is_file d x = None →
     reached d items = reached d pre) ∧
  (answering impl d → considered impl d items = items) ∧
  (∀ items',
     answering impl d ∧
     Forall (λ a, Forall (λ b, FS.getctime d a = FS.getctime d b → a = b) files) files ∧
     items ≡ₚ items' →
     Either.sorted_files impl d items' = Some files).
Proof.
  rewrite either_sorted_files. intros Hfiles.
  pose proof (sort_by_key_perm _ _ _ Hfiles) as Hperm. split_and!.
  - done.
  - intros x. rewrite Hperm. apply elem_of_either_image_files.
  - intros i j a b (Hij & Hi & Hj).
    by apply (sorted_files_ascending d _ files Hfiles i j).
  - intros c. by apply sorted_files_stable.
  - destruct impl as [cs|]; [done|]. apply get_real_image_files_filter.
  - intros pre x post [-> Hx]. apply reached_app_raises. done.
  - apply considered_all.
  - intros items' (Hd & Hties & Hp). rewrite either_sorted_files.
    apply (sorted_files_enumeration_ties d _ files Hfiles); [by apply either_image_files_perm|].
    intros a b Ha Hb. rewrite Forall_forall in Hties. specialize (Hties a Ha).
    rewrite Forall_forall in Hties. by apply Hties.
Qed.

Lemma resolver_order_holiday :
  Either.sorted_files corrected Examples.holiday
    ["vacation.png"; "IMG_002.jpg"; "Horizon_01.jpeg"]
  = Some ["vacation.png"; "IMG_002.jpg"; "Horizon_01.jpeg"] ∧
  Either.sorted_files (original false) Examples.holiday
    ["vacation.png"; "IMG_002.jpg"; "Horizon_01.jpeg"]
  = Some ["vacation.png"; "vacation.png"; "IMG_002.jpg"; "IMG_002.jpg";
          "Horizon_01.jpeg"; "Horizon_01.jpeg"].
Proof.
  split.
  - apply (resolver_order corrected Examples.holiday Examples.holiday_listing
             ["vacation.png"; "IMG_002.jpg"; "Horizon_01.jpeg"]); [evaluated|].
    split_and!; evaluated.
  - apply (resolver_order (original false) Examples.holiday Examples.holiday_listing
             ["vacation.png"; "vacation.png"; "IMG_002.jpg"; "IMG_002.jpg";
              "Horizon_01.jpeg"; "Horizon_01.jpeg"]); [evaluated|].
    split_and!; evaluated.
Defined.

(** ** The pass *)

(** The corrected pass, when it counts as many renames as its plan has
    entries: the file of rank [k] in creation order, among the files the
    resolver returned, is then found under
    [<prefix>_<k+1 padded><its suffix in lower case>], as it was when it had
    that name already and renamed twice otherwise; these names are pairwise
    distinct; and no file is left under a name that is none of them.  The
    files the resolver returned are all the accessible images of the
    enumeration when [is_file()] raises on no entry. *)
Theorem corrected_contiguity (refuses : FS.dir → string → string → bool) (h : handler)
    (d : FS.dir) (items files : list string) :
  NoDup items →
  Corrected.sorted_files d (Some items) = Some files →
  r_count (Corrected.reorganize_all_files refuses h d (Some items))
    = length (Corrected.rename_plan h d (Some items)) →
  let d' := r_fs (Corrected.reorganize_all_files refuses h d (Some items)) in
  let finals := imap (expected_name (prefix h)) files in
  files ≡ₚ Corrected.get_real_image_files d (Some items) ∧
  (∀ x, x ∈ files ↔ x ∈ reached d items ∧ accessible d x = true) ∧
  (is_file_answers d → ∀ x, x ∈ files ↔ x ∈ items ∧ accessible d x = true) ∧
  NoDup finals ∧
  Forall2 (λ name final,
             ∃ nd, d !! name = Some nd ∧
                   d' !! final = Some (if decide (name = final) then nd
                                       else FS.renamed (FS.renamed nd))) files finals ∧
  (FS.keeps_ctime d → Forall2 (λ name final, d' !! final = d !! name) files finals) ∧
  Forall (λ name, name ∈ finals ∨ d' !! name = None) files.
Proof.
  intros Hnd Hfiles Hcount. cbn zeta.
  pose proof (files_NoDup d items files Hfiles Hnd) as Hdistinct.
  pose proof (all_renamed refuses h d items files Hfiles Hcount) as Hall.
  assert (∀ x, x ∈ files ↔ x ∈ reached d items ∧ accessible d x = true) as Hin.
  { intros x. rewrite (sorted_files_perm _ _ _ Hfiles), elem_of_get_real_image_files. split.
    - by intros (its & [= <-] & ? & ?).
    - intros [? ?]. by exists items. }
  split_and!.
  - by apply sorted_files_perm.
  - done.
  - intros Hd x. by rewrite Hin, reached_all.
  - apply finals_NoDup.
  - apply Forall2_same_length_lookup. split; [by rewrite length_imap|].
    intros k name final Hk. rewrite list_lookup_imap, Hk. intros [= <-].
    pose proof (list_elem_of_lookup_2 _ _ _ Hk) as Hx.
    apply (files_accessible d items files Hfiles) in Hx as [_ Hacc].
    apply accessible_inv in Hacc as (nd & _ & Hnode & _). exists nd. split; [done|].
    rewrite (file_at_expected_name refuses (prefix h) d _ files Hdistinct Hall k name Hk).
    rewrite Hnode. by destruct (decide _).
  - intros Hkeep. apply Forall2_same_length_lookup. split; [by rewrite length_imap|].
    intros k name final Hk. rewrite list_lookup_imap, Hk. intros [= <-].
    by apply (file_at_expected_name_kept refuses (prefix h) d _ files).
  - apply Forall_forall. intros name Hx.
    destruct (decide (name ∈ imap (expected_name (prefix h)) files)) as [|Hnot]; [by left|].
    right. by apply (old_name_free refuses (prefix h) d _ files).
Qed.

Lemma corrected_contiguity_holiday :
  r_fs (Corrected.reorganize_all_files FS.windows_refuses Examples.horizon Examples.holiday
          (Some Examples.holiday_listing)) !! "Horizon_02.jpg"
  = Examples.holiday !! "IMG_002.jpg".
Proof.
  destruct (corrected_contiguity FS.windows_refuses Examples.horizon Examples.holiday
              Examples.holiday_listing ["vacation.png"; "IMG_002.jpg"; "Horizon_01.jpeg"])
    as (_ & _ & _ & _ & _ & H & _).
  - evaluated.
  - evaluated.
  - evaluated.
  - assert (FS.keeps_ctime Examples.holiday) as Hkeep by evaluated.
    apply H in Hkeep.
    apply (Forall2_lookup_lr _ _ _ 1 "IMG_002.jpg" "Horizon_02.jpg") in Hkeep; done.
Defined.

(** C1: the original implementation numbers whatever [glob] returns.  On
    POSIX a subdirectory named [album.png] takes number 01, and the one
    image file of the directory ends as [Horizon_02.png].  On Windows, where
    [glob] ignores the case, the patterns [*.png] and [*.PNG] return every
    file twice, and a lone [Horizon_01.png] is renamed [Horizon_02.png].  In
    both passes every rename succeeds. *)
Theorem original_breaks_contiguity :
  (let st := Original.reorganize_all_files FS.posix_refuses true Examples.horizon
               Examples.album Examples.album_listing in
   accessible Examples.album "a.png" = true ∧
   accessible Examples.album "album.png" = false ∧
   r_count st = length (Original.rename_plan true Examples.horizon Examples.album
                          Examples.album_listing) ∧
   r_out st = [MsgReorganizing 2; MsgRenamed "album.png" "Horizon_01.png";
               MsgRenamed "a.png" "Horizon_02.png"; MsgReorganized 2] ∧
   r_fs st = list_to_map [("Horizon_01.png", Examples.subdirectory 1);
                          ("Horizon_02.png", Examples.image 10 2)]) ∧
  (let st := Original.reorganize_all_files FS.windows_refuses false Examples.horizon
               Examples.settled ["Horizon_01.png"] in
   accessible Examples.settled "Horizon_01.png" = true ∧
   r_count st = length (Original.rename_plan false Examples.horizon Examples.settled
                          ["Horizon_01.png"]) ∧
   r_out st = [MsgReorganizing 1; MsgRenamed "Horizon_01.png" "Horizon_02.png";
               MsgReorganized 1] ∧
   r_fs st = list_to_map [("Horizon_02.png", Examples.image 10 1)]).
Proof. cbn zeta. split_and!; evaluated. Qed.

(** C3: second passes that plan renames on the directory the first pass
    left.  Two files of one creation time, enumerated in the other order,
    are renumbered.  Where a rename sets [st_ctime], as on most POSIX file
    systems, the file the first pass renamed has become the youngest: the
    second pass numbers it last, in the original implementation and in the
    corrected one.  A file named [.png] was renamed [Horizon_01], which the
    second pass does not take for an image: it gives number 01 to the next
    file.  A rename that failed in the first pass is planned again.  And
    where [glob] ignores the case the original finds every file twice: the
    lone [Horizon_01.png] that its first pass renamed [Horizon_02.png] is
    renamed back by the second. *)
Lemma second_pass_plans_renames :
  (let st := Corrected.reorganize_all_files FS.windows_refuses Examples.horizon
               Examples.twins (Some ["a.png"; "b.png"]) in
   FS.enumerates Examples.twins ["a.png"; "b.png"] ∧
   r_count st = length (Corrected.rename_plan Examples.horizon Examples.twins
                          (Some ["a.png"; "b.png"])) ∧
   r_fs st = list_to_map [("Horizon_01.png", Examples.image 10 7);
                          ("Horizon_02.png", Examples.image 10 7)] ∧
   FS.enumerates (r_fs st) ["Horizon_02.png"; "Horizon_01.png"] ∧
   Corrected.rename_plan (set_temp_files (r_temp_files st) Examples.horizon) (r_fs st)
     (Some ["Horizon_02.png"; "Horizon_01.png"])
   = [("Horizon_02.png", "TEMP_01_Horizon.png", "Horizon_01.png");
      ("Horizon_01.png", "TEMP_02_Horizon.png", "Horizon_02.png")]) ∧
  (let st := Original.reorganize_all_files FS.posix_refuses true Examples.horizon
               Examples.restamped Examples.restamped_listing in
   r_count st = length (Original.rename_plan true Examples.horizon Examples.restamped
                          Examples.restamped_listing) ∧
   FS.enumerates (r_fs st) Examples.restamped_listing' ∧
   FS.getctime (r_fs st) <$> ["Horizon_01.png"; "Horizon_02.png"; "Horizon_03.png"]
     = [Some 1; Some 101; Some 3]%Z ∧
   Original.rename_plan true (set_temp_files (r_temp_files st) Examples.horizon) (r_fs st)
     Examples.restamped_listing'
   = [("Horizon_03.png", "TEMP_02_Horizon.png", "Horizon_02.png");
      ("Horizon_02.png", "TEMP_03_Horizon.png", "Horizon_03.png")]) ∧
  (let st := Corrected.reorganize_all_files FS.windows_refuses Examples.horizon
               Examples.stray (Some [".png"; "b.png"]) in
   FS.enumerates Examples.stray [".png"; "b.png"] ∧
   r_count st = length (Corrected.rename_plan Examples.horizon Examples.stray
                          (Some [".png"; "b.png"])) ∧
   r_fs st = list_to_map [("Horizon_01", Examples.image 10 1);
                          ("Horizon_02.png", Examples.image 10 2)] ∧
   FS.enumerates (r_fs st) ["Horizon_01"; "Horizon_02.png"] ∧
   Corrected.rename_plan (set_temp_files (r_temp_files st) Examples.horizon) (r_fs st)
     (Some ["Horizon_01"; "Horizon_02.png"])
   = [("Horizon_02.png", "TEMP_01_Horizon.png", "Horizon_01.png")]) ∧
  (let st := Corrected.reorganize_all_files FS.windows_refuses Examples.horizon
               Examples.blocked (Some Examples.blocked_listing) in
   FS.enumerates Examples.blocked Examples.blocked_listing ∧
   r_count st = 1 ∧
   length (Corrected.rename_plan Examples.horizon Examples.blocked
             (Some Examples.blocked_listing)) = 2 ∧
   FS.enumerates (r_fs st) ["a.png"; "Horizon_02.png"; "TEMP_01_Horizon.png"] ∧
   Corrected.rename_plan (set_temp_files (r_temp_files st) Examples.horizon) (r_fs st)
     (Some ["a.png"; "Horizon_02.png"; "TEMP_01_Horizon.png"])
   = [("a.png", "TEMP_01_Horizon.png", "Horizon_01.png")]) ∧
  (let st := Corrected.reorganize_all_files FS.posix_refuses Examples.horizon
               Examples.restamped (Some Examples.restamped_listing) in
   FS.enumerates Examples.restamped Examples.restamped_listing ∧
   ¬ FS.keeps_ctime Examples.restamped ∧
   Corrected.sorted_files Examples.restamped (Some Examples.restamped_listing)
     = Some ["Horizon_01.png"; "shot.png"; "Horizon_03.png"] ∧
   FS.getctime Examples.restamped <$> ["Horizon_01.png"; "shot.png"; "Horizon_03.png"]
     = [Some 1; Some 2; Some 3]%Z ∧
   Corrected.rename_plan Examples.horizon Examples.restamped
     (Some Examples.restamped_listing)
     = [("shot.png", "TEMP_02_Horizon.png", "Horizon_02.png")] ∧
   r_count st = 1 ∧
   FS.enumerates (r_fs st) Examples.restamped_listing' ∧
   FS.getctime (r_fs st) <$> ["Horizon_01.png"; "Horizon_02.png"; "Horizon_03.png"]
     = [Some 1; Some 101; Some 3]%Z ∧
   Corrected.rename_plan (set_temp_files (r_temp_files st) Examples.horizon) (r_fs st)
     (Some Examples.restamped_listing')
   = [("Horizon_03.png", "TEMP_02_Horizon.png", "Horizon_02.png");
      ("Horizon_02.png", "TEMP_03_Horizon.png", "Horizon_03.png")]) ∧
  (let st := Original.reorganize_all_files FS.windows_refuses false Examples.horizon
               Examples.settled ["Horizon_01.png"] in
   FS.enumerates Examples.settled ["Horizon_01.png"] ∧
   FS.keeps_ctime Examples.settled ∧
   r_count st = length (Original.rename_plan false Examples.horizon Examples.settled
                          ["Horizon_01.png"]) ∧
   r_fs st = list_to_map [("Horizon_02.png", Examples.image 10 1)] ∧
   FS.enumerates (r_fs st) ["Horizon_02.png"] ∧
   Original.rename_plan false (set_temp_files (r_temp_files st) Examples.horizon) (r_fs st)
     ["Horizon_02.png"]
   = [("Horizon_02.png", "TEMP_01_Horizon.png", "Horizon_01.png")]).
Proof. cbn zeta. split_and!; evaluated. Qed.

(** C3, as the code has it.  Take the corrected implementation, or the
    original where [glob] compares names with the case; a platform on which
    renames keep what [getctime] reports (the creation time of Windows); a
    directory on none of whose entries [is_file()] raises.  When the first
    pass renamed everything it planned, the files it numbered have pairwise
    distinct creation times, and none is named by an extension alone, the
    next pass on the unchanged directory plans nothing and renames nothing,
    however the directory is enumerated. *)
Theorem second_pass_plans_nothing (refuses : FS.dir → string → string → bool)
    (impl : implementation) (h : handler) (d : FS.dir) (items items' files : list string) :
  impl ≠ original false →
  FS.keeps_ctime d →
  answering impl d →
  FS.enumerates d items →
  Either.sorted_files impl d items = Some files →
  NoDup (FS.getctime d <$> files) →
  Forall (λ name, PurePath.suffix name ≠ "") files →
  r_count (Either.reorganize_all_files refuses impl h d items)
    = length (Either.rename_plan impl h d items) →
  FS.enumerates (r_fs (Either.reorganize_all_files refuses impl h d items)) items' →
  let st := Either.reorganize_all_files refuses impl h d items in
  let h' := set_temp_files (r_temp_files st) h in
  Either.sorted_files impl (r_fs st) items' = Some (imap (expected_name (prefix h)) files) ∧
  Either.rename_plan impl h' (r_fs st) items' = [] ∧
  r_fs (Either.reorganize_all_files refuses impl h' (r_fs st) items') = r_fs st ∧
  r_count (Either.reorganize_all_files refuses impl h' (r_fs st) items') = 0.
Proof.
  intros Hcase Hkeep Hanswers Henum Hfiles Hnd Hsuf Hcount Henum'. cbn zeta.
  pose proof (either_second_plan refuses impl h
                (set_temp_files
                   (r_temp_files (Either.reorganize_all_files refuses impl h d items)) h)
                d items items' files eq_refl Hcase Hkeep Hanswers Henum Hfiles Hnd Hsuf
                Hcount Henum') as Hplan.
  split.
  { by apply (either_second_sorted refuses impl h d items items' files). }
  split; [done|]. by apply either_empty_plan_pass.
Qed.

Lemma second_pass_plans_nothing_holiday :
  Either.rename_plan corrected
    (set_temp_files
       (r_temp_files (Either.reorganize_all_files FS.windows_refuses corrected
                        Examples.horizon Examples.holiday Examples.holiday_listing))
       Examples.horizon)
    (r_fs (Either.reorganize_all_files FS.windows_refuses corrected Examples.horizon
             Examples.holiday Examples.holiday_listing))
    ["Horizon_03.jpeg"; "Horizon_02.jpg"; "Horizon_01.png"] = [].
Proof.
  apply (second_pass_plans_nothing FS.windows_refuses corrected Examples.horizon
           Examples.holiday Examples.holiday_listing
           ["Horizon_03.jpeg"; "Horizon_02.jpg"; "Horizon_01.png"]
           ["vacation.png"; "IMG_002.jpg"; "Horizon_01.jpeg"]); evaluated.
Defined.

(** ** Failures in phase 1 *)

(** The corrected phase 1 when the rename of one entry fails: the failure
    is printed, the directory and the entries handed to phase 2 are those of
    the plan without that entry, and every other entry is tried. *)
Theorem corrected_phase1_failure_isolated (refuses : FS.dir → string → string → bool)
    (pl1 pl2 : list entry) (e : entry) (st : run) :
  FS.rename refuses (r_fs (Corrected.phase1 refuses pl1 st)) (e_path e) (e_temp e) = None →
  let st' := Corrected.phase1 refuses (pl1 ++ e :: pl2) st in
  let without := Corrected.phase1 refuses (pl1 ++ pl2) st in
  MsgPhase1Error (e_path e) (e_temp e) ∈ r_out st' ∧
  r_fs st' = r_fs without ∧
  r_phase1 st' = r_phase1 without ∧
  Forall (λ e', MsgPhase1 (e_path e') (e_temp e') ∈ r_out st' ∨
                MsgPhase1Error (e_path e') (e_temp e') ∈ r_out st') (pl1 ++ e :: pl2).
Proof.
  intros Hfail. cbn zeta. rewrite !phase1_app.
  set (st1 := Corrected.phase1 refuses pl1 st) in *.
  destruct e as [[p t] f]. cbn [e_path e_temp fst snd] in *.
  cbn [Corrected.phase1]. rewrite Hfail.
  set (st2 := {| r_fs := r_fs st1; r_temp_files := _; r_phase1 := r_phase1 st1;
                 r_count := _; r_out := r_out st1 ++ [MsgPhase1Error p t] |}).
  destruct (phase1_same_fs refuses pl2 st2 st1 eq_refl) as (Hfs & kept & H2 & H1).
  split_and!.
  - destruct (phase1_out refuses pl2 st2) as (new & -> & _).
    cbn [r_out st2]. rewrite !elem_of_app, list_elem_of_singleton. auto.
  - done.
  - by rewrite H2, H1.
  - pose proof (phase1_out refuses (pl1 ++ (p, t, f) :: pl2) st) as (new & Hnew & Hall).
    rewrite phase1_app in Hnew. fold st1 in Hnew.
    cbn [Corrected.phase1] in Hnew. rewrite Hfail in Hnew. fold st2 in Hnew.
    apply Forall_forall. intros e' He'. rewrite Hnew, !elem_of_app.
    destruct (Hall e' He'); auto.
Qed.

Lemma corrected_phase1_failure_isolated_blocked :
  MsgPhase1Error "a.png" "TEMP_01_Horizon.png" ∈
    r_out (Corrected.phase1 FS.windows_refuses
             ([] ++ ("a.png", "TEMP_01_Horizon.png", "Horizon_01.png") ::
                    [("b.png", "TEMP_02_Horizon.png", "Horizon_02.png")])
             (Corrected.start_run Examples.horizon Examples.blocked [])).
Proof.
  apply (corrected_phase1_failure_isolated FS.windows_refuses []
           [("b.png", "TEMP_02_Horizon.png", "Horizon_02.png")]
           ("a.png", "TEMP_01_Horizon.png", "Horizon_01.png")
           (Corrected.start_run Examples.horizon Examples.blocked [])).
  evaluated.
Defined.

(** The original phase 1 stops at the first rename that fails: the entries
    after it are never looked at. *)
Theorem original_phase1_stops (refuses : FS.dir → string → string → bool)
    (pl1 pl2 : list entry) (e : entry) (st st1 : run) :
  Original.phase1 refuses pl1 st = Completed st1 →
  FS.rename refuses (r_fs st1) (e_path e) (e_temp e) = None →
  Original.phase1 refuses (pl1 ++ e :: pl2) st = Original.phase1 refuses (pl1 ++ [e]) st ∧
  r_fs (flow_run (Original.phase1 refuses (pl1 ++ e :: pl2) st)) = r_fs st1.
Proof.
  intros H1 Hfail. rewrite !original_phase1_app, H1.
  destruct e as [[p t] f]. cbn [e_path e_temp fst snd] in Hfail.
  cbn [Original.phase1 r_fs]. by rewrite Hfail.
Qed.

(** C6: in the original implementation nothing catches a rename of phase 1
    that raises.  The temporary name of [a.png] is taken by a directory; the
    pass stops there and [b.png], whose renames would succeed, keeps its
    name, on POSIX as on Windows (where [glob] ignores the case and counts
    every entry twice).  The corrected pass on the same directory reports
    [a.png] and renames [b.png]. *)
Theorem original_pass_aborts_on_failure :
  (let st := Original.reorganize_all_files FS.posix_refuses true Examples.horizon
               Examples.blocked Examples.blocked_listing in
   r_fs st = Examples.blocked ∧ r_out st = [MsgReorganizing 3; MsgReorganizeError]) ∧
  (let st := Original.reorganize_all_files FS.windows_refuses false Examples.horizon
               Examples.blocked Examples.blocked_listing in
   r_fs st = Examples.blocked ∧ r_out st = [MsgReorganizing 6; MsgReorganizeError]) ∧
  is_Some (FS.rename FS.posix_refuses Examples.blocked "b.png" "TEMP_02_Horizon.png") ∧
  is_Some (FS.rename FS.windows_refuses Examples.blocked "b.png" "TEMP_02_Horizon.png") ∧
  (let st := Corrected.reorganize_all_files FS.posix_refuses Examples.horizon
               Examples.blocked (Some Examples.blocked_listing) in
   r_fs st !! "Horizon_02.png" = Examples.blocked !! "b.png" ∧
   r_fs st !! "a.png" = Examples.blocked !! "a.png" ∧
   r_out st = [MsgAccessibleCount 2; MsgReorganizing 2;
               MsgPhase1Error "a.png" "TEMP_01_Horizon.png";
               MsgPhase1 "b.png" "TEMP_02_Horizon.png";
               MsgRenamed "b.png" "Horizon_02.png"; MsgReorganized 1]) ∧
  (let st := Corrected.reorganize_all_files FS.windows_refuses Examples.horizon
               Examples.blocked (Some Examples.blocked_listing) in
   r_fs st !! "Horizon_02.png" = Examples.blocked !! "b.png" ∧
   r_fs st !! "a.png" = Examples.blocked !! "a.png" ∧
   r_out st = [MsgAccessibleCount 2; MsgReorganizing 2;
               MsgPhase1Error "a.png" "TEMP_01_Horizon.png";
               MsgPhase1 "b.png" "TEMP_02_Horizon.png";
               MsgRenamed "b.png" "Horizon_02.png"; MsgReorganized 1]).
Proof. cbn zeta. split_and!; evaluated. Qed.

(** ** The single-flight flag *)

(** While the flag is held, [process_new_file] starts no pass and leaves
    the directory alone.  It leaves the handler alone too, unless
    [exists()] or the pattern of [is_already_renamed] raises: the handler of
    that exception then resets the flag, which another thread holds. *)
Theorem process_new_file_single_flight (refuses : FS.dir → string → string → bool)
    (re_match_renamed : string → string → option bool) (h : handler) (d d_late : FS.dir)
    (file_path : string) (all_items : option (list string))
    (start_time : Z) (script : list Probe.tick) (end_time : Z) :
  processing h = true →
  ∃ out,
    Corrected.process_new_file refuses re_match_renamed h d d_late file_path all_items
      start_time script end_time
    = Some (if leaves_by_exception re_match_renamed h d d_late file_path
            then set_processing false h else h,
            seen_directory d d_late file_path, out) ∧
    (MsgProcessError file_path ∈ out ↔
     leaves_by_exception re_match_renamed h d d_late file_path = true).
Proof.
  intros Hp. unfold Corrected.process_new_file, Corrected.is_already_renamed.
  unfold leaves_by_exception, seen_directory. rewrite Hp.
  assert (∀ m : msg, m ≠ MsgProcessError file_path →
            ∀ out, MsgProcessError file_path ∈ out ++ [m] ↔ MsgProcessError file_path ∈ out)
    as Hother.
  { intros m Hm out. rewrite elem_of_app, list_elem_of_singleton. intuition congruence. }
  assert (∀ out, MsgProcessError file_path ∈ out ++ [MsgProcessError file_path] ↔ true = true)
    as Hsame.
  { intros out. rewrite elem_of_app, list_elem_of_singleton. intuition congruence. }
  destruct (FS.exists_ d file_path) as [[|]|] eqn:Hd; rewrite ?Hd.
  - destruct (re_match_renamed (prefix h) file_path) as [[|]|];
      rewrite ?bool_decide_eq_false_2, ?bool_decide_eq_true_2 by done;
      eexists; (split; [reflexivity|]);
      rewrite ?Hother, ?Hsame by done; try done; by rewrite elem_of_nil.
  - destruct (FS.exists_ d_late file_path) as [[|]|].
    + destruct (re_match_renamed (prefix h) file_path) as [[|]|];
        rewrite ?bool_decide_eq_false_2, ?bool_decide_eq_true_2 by done;
        eexists; (split; [reflexivity|]);
        rewrite ?Hother, ?Hsame by done; try done;
        rewrite !elem_of_cons, elem_of_nil; intuition congruence.
    + eexists. split; [reflexivity|].
      rewrite !elem_of_cons, elem_of_nil. intuition congruence.
    + eexists. split; [reflexivity|]. by rewrite Hsame.
  - eexists. split; [reflexivity|]. by rewrite Hsame.
Qed.

Lemma process_new_file_single_flight_busy :
  ∃ out,
    Corrected.process_new_file FS.windows_refuses (λ _ _, None) Examples.busy
      Examples.holiday Examples.holiday "vacation.png" (Some Examples.holiday_listing)
      0 Examples.slow_copy 7000
    = Some (Examples.horizon, Examples.holiday, out) ∧
    (MsgProcessError "vacation.png" ∈ out ↔ true = true).
Proof.
  by apply (process_new_file_single_flight FS.windows_refuses (λ _ _, None) Examples.busy
              Examples.holiday Examples.holiday "vacation.png").
Defined.

(** Choice 4 of the menu runs the pass whatever the flag says. *)
Theorem menu_reorganize_ignores_flag (refuses : FS.dir → string → string → bool)
    (typed : string) (h : handler) (d : FS.dir) (all_items : option (list string))
    (flag : bool) :
  (Corrected.run_interactive_menu refuses "4" typed (set_processing flag h) d all_items).1.2
  = r_fs (Corrected.reorganize_all_files refuses h d all_items).
Proof. reflexivity. Qed.

(** C5: with the flag held by a pass in flight, an event for
    [vacation.png] is dropped, while choice 4 of the menu runs a whole pass:
    it calls [reorganize_all_files], which does not look at the flag. *)
Theorem manual_pass_ignores_flag :
  processing Examples.busy = true ∧
  Corrected.process_new_file FS.windows_refuses (λ _ _, Some false) Examples.busy
    Examples.holiday Examples.holiday "vacation.png" (Some Examples.holiday_listing)
    0 Examples.slow_copy 7000
  = Some (Examples.busy, Examples.holiday, [MsgBusy "vacation.png"]) ∧
  Corrected.run_interactive_menu FS.windows_refuses "4" "" Examples.busy Examples.holiday
    (Some Examples.holiday_listing)
  = (Examples.busy,
     list_to_map [("Horizon_01.png", Examples.image 2048 36000);
                  ("Horizon_02.jpg", Examples.image 4096 36005);
                  ("Horizon_03.jpeg", Examples.image 1024 36010)],
     [MsgAccessibleCount 3; MsgReorganizing 3;
      MsgPhase1 "vacation.png" "TEMP_01_Horizon.png";
      MsgPhase1 "IMG_002.jpg" "TEMP_02_Horizon.jpg";
      MsgPhase1 "Horizon_01.jpeg" "TEMP_03_Horizon.jpeg";
      MsgRenamed "vacation.png" "Horizon_01.png";
      MsgRenamed "IMG_002.jpg" "Horizon_02.jpg";
      MsgRenamed "Horizon_01.jpeg" "Horizon_03.jpeg"; MsgReorganized 3]).
Proof. split_and!; evaluated. Qed.

(** ** The stability probe *)

(** C9: when the loop of the probe ends because the five seconds are over,
    the counter of unchanged positive sizes is below 2, and the probe (of
    either implementation) answers what the final size check says: true
    exactly when [stat] succeeds with a positive size, false when the size
    is zero or the file cannot be reached. *)
Theorem probe_timeout_fallback (start_time : Z) (script : list Probe.tick)
    (last_size : Z) (stable_count : nat) (final : Probe.poll) :
  Probe.wait_loop 5000 start_time script (-1) 0
    = Probe.TimedOut last_size stable_count final →
  stable_count < 2 ∧
  (∃ now, (now, final) ∈ script ∧ (5000 ≤ now - start_time)%Z) ∧
  Corrected._wait_file_stable start_time script = Some (Probe.final_check final) ∧
  Original.wait_for_file_stable 5000 start_time script = Some (Probe.final_check final) ∧
  (Probe.final_check final = true ↔ ∃ size, final = Probe.Size size ∧ (0 < size)%Z) ∧
  (Probe.final_check final = false ↔
     final = Probe.Gone ∨ final = Probe.StatError ∨
     ∃ size, final = Probe.Size size ∧ (size ≤ 0)%Z).
Proof.
  intros Hloop. destruct (wait_loop_timed_out _ _ _ _ _ _ _ _ Hloop) as [Hc Hnow].
  split_and!; [lia|done| | | |].
  - unfold Corrected._wait_file_stable, Probe.wait_file_stable. by rewrite Hloop.
  - unfold Original.wait_for_file_stable, Probe.wait_file_stable. by rewrite Hloop.
  - destruct final as [| |size]; cbn; split; try done; try (by intros (? & [=] & _)).
    + intros ?%Z.ltb_lt. by exists size.
    + intros (? & [= <-] & ?). by apply Z.ltb_lt.
  - destruct final as [| |size]; cbn; split; auto.
    + intros ?%Z.ltb_ge. right; right. by exists size.
    + intros [[=]|[[=]|(? & [= <-] & ?)]]. by apply Z.ltb_ge.
Qed.

Lemma probe_timeout_fallback_slow_copy :
  Corrected._wait_file_stable 1000 Examples.slow_copy = Some true.
Proof.
  by apply (probe_timeout_fallback 1000 Examples.slow_copy 20 0 (Probe.Size 30)).
Defined.

(** * Further properties of the code *)

(** ** What makes the probe answer *)

Section probe_outcomes.
Import Probe.
Variable timeout start_time : Z.

Local Abbreviation in_time := (λ tk : tick, (tk.1 - start_time < timeout)%Z).

(** The loop after the polls [seen]: what [last_size] and [stable_count]
    say of them, and what each way out of the loop says of the script. *)
Lemma wait_loop_outcome (seen script : list tick) (last_size : Z) (stable_count : nat) :
  Forall in_time seen →
  stable_count ≤ 1 →
  ((0 < last_size)%Z → ∃ pre t, seen = pre ++ [(t, Size last_size)]) →
  (stable_count = 1 → (0 < last_size)%Z →
     ∃ pre t1 t2, seen = pre ++ [(t1, Size last_size); (t2, Size last_size)]) →
  match wait_loop timeout start_time script last_size stable_count with
  | Returned true =>
      ∃ pre t1 t2 t3 s rest,
        seen ++ script = pre ++ [(t1, Size s); (t2, Size s); (t3, Size s)] ++ rest ∧
        (0 < s)%Z ∧ Forall in_time (pre ++ [(t1, Size s); (t2, Size s); (t3, Size s)])
  | Returned false =>
      ∃ pre t p rest,
        seen ++ script = pre ++ (t, p) :: rest ∧ (p = Gone ∨ p = StatError) ∧
        Forall in_time (pre ++ [(t, p)])
  | TimedOut _ _ final =>
      ∃ pre t rest,
        seen ++ script = pre ++ (t, final) :: rest ∧ (timeout ≤ t - start_time)%Z ∧
        Forall in_time pre
  | ScriptEnded => True
  end.
Proof.
  revert seen last_size stable_count.
  induction script as [|[now p] script IH]; intros seen last c Hseen Hc Hlast Htwo; [done|].
  cbn [wait_loop]. destruct (Z.ltb_spec (now - start_time) timeout) as [Hin|Hout]; cbn [negb].
  2: { exists seen, now, script. done. }
  assert (Forall in_time (seen ++ [(now, p)])) as Hseen'.
  { apply Forall_app. split; [done|]. by constructor. }
  assert (∀ rest : list tick, seen ++ (now, p) :: rest = (seen ++ [(now, p)]) ++ rest)
    as Hcons by (intros rest; by rewrite <-app_assoc).
  destruct p as [| |size].
  - exists seen, now, Gone, script. auto.
  - exists seen, now, StatError, script. auto.
  - destruct (Z.ltb_spec 0 size) as [Hpos|Hneg].
    + destruct (Z.eqb_spec size last) as [->|Hne].
      * destruct c as [|c]; cbn [Nat.leb].
        -- rewrite Hcons. apply IH; [done|lia| |].
           ++ intros _. by exists seen, now.
           ++ intros _ _. destruct (Hlast Hpos) as (pre & t & ->).
              exists pre, t, now. by rewrite <-app_assoc.
        -- assert (c = 0) as -> by lia. cbn.
           destruct (Htwo eq_refl Hpos) as (pre & t1 & t2 & ->).
           exists pre, t1, t2, now, last, script. split_and!; [|done|].
           ++ by rewrite <-!app_assoc.
           ++ by rewrite <-app_assoc in Hseen'.
      * rewrite Hcons. apply IH; [done|lia| |done].
        intros _. by exists seen, now.
    + rewrite Hcons. apply IH; [done|done|intros; lia|intros; lia].
Qed.

End probe_outcomes.

(** ** The event cache *)

Section debounce_facts.

Lemma debounced_delay (h : handler) (t : Z) (p : string) :
  debounce_delay (Corrected._debounced_process h t p).1 = debounce_delay h.
Proof.
  unfold Corrected._debounced_process.
  destruct (last_event_time h !! p) as [last|]; [|done]. by destruct (_ <? _)%Z.
Qed.

Lemma cleanup_lookup (h : handler) (t : Z) (p : string) (v : Z) :
  last_event_time (Corrected._cleanup_cache h t) !! p = Some v ↔
  last_event_time h !! p = Some v ∧ (t - debounce_delay h * 5 < v)%Z.
Proof. unfold Corrected._cleanup_cache. cbn. by rewrite map_lookup_filter_Some. Qed.

Lemma cleanup_lookup_None (h : handler) (t : Z) (p : string) :
  last_event_time (Corrected._cleanup_cache h t) !! p = None ↔
  ∀ v, last_event_time h !! p = Some v → (v ≤ t - debounce_delay h * 5)%Z.
Proof.
  unfold Corrected._cleanup_cache. cbn. rewrite map_lookup_filter_None. split.
  - intros [Hnone|Hall] v Hv; [congruence|]. specialize (Hall v Hv). cbn in Hall. lia.
  - intros Hall. right. intros v Hv. cbn. specialize (Hall v Hv). lia.
Qed.

Lemma sorted_times_cons (o : occurrence) (log : list occurrence) :
  Sorted Z.le (occurrence_time <$> o :: log) →
  Forall (λ o', (occurrence_time o ≤ occurrence_time o')%Z) log ∧
  Sorted Z.le (occurrence_time <$> log).
Proof.
  rewrite fmap_cons. intros Hs. split; [|by apply Sorted_inv in Hs as [? _]].
  apply Sorted_StronglySorted in Hs; [|intros ? ? ?; lia].
  apply StronglySorted_inv in Hs as [_ Hall]. rewrite Forall_fmap in Hall.
  eapply Forall_impl; [exact Hall|]. by intros x Hx.
Qed.

(** The accepted events of a replay, under a lower bound for each path:
    the time of its last accepted event, which the cache still holds or
    which is old enough. *)
Lemma replay_spacing (log : list occurrence) (h : handler) (bound : gmap string Z)
    (now : Z) :
  (0 ≤ debounce_delay h)%Z →
  (∀ p a, bound !! p = Some a →
     last_event_time h !! p = Some a ∨
     (last_event_time h !! p = None ∧ (a + debounce_delay h ≤ now)%Z)) →
  Forall (λ o, (now ≤ occurrence_time o)%Z) log →
  Sorted Z.le (occurrence_time <$> log) →
  (∀ t p a, (t, p) ∈ (replay h log).2 → bound !! p = Some a →
     (a + debounce_delay h ≤ t)%Z) ∧
  (∀ i j t1 t2 p, i < j → (replay h log).2 !! i = Some (t1, p) →
     (replay h log).2 !! j = Some (t2, p) → (t1 + debounce_delay h ≤ t2)%Z).
Proof.
  revert h bound now.
  induction log as [|o log IH]; intros h bound now Hd Hb Hnow Hsorted.
  { cbn. split; [by intros ? ? ? ?%elem_of_nil|by intros]. }
  apply Forall_cons in Hnow as [Ho Hnow].
  apply sorted_times_cons in Hsorted as [Hnext Hsorted].
  destruct o as [t p|t]; cbn [occurrence_time] in *; cbn [replay].
  - pose proof (debounced_delay h t p) as Hdelay.
    destruct (Corrected._debounced_process h t p) as [h1 started] eqn:Hstep.
    cbn [fst] in Hdelay. unfold Corrected._debounced_process in Hstep.
    assert (started = false ∧ h1 = h ∨
            started = true ∧
            last_event_time h1 = <[p := t]> (last_event_time h) ∧
            (∀ a, last_event_time h !! p = Some a → (a + debounce_delay h ≤ t)%Z))
      as [[-> ->]|(-> & Hcache & Hacc)].
    { destruct (last_event_time h !! p) as [last|] eqn:Hl.
      - destruct (Z.ltb_spec (t - last) (debounce_delay h)); injection Hstep as <- <-;
          [by left|right]. split_and!; [done..|]. intros a [= <-]. lia.
      - injection Hstep as <- <-. right. split_and!; [done..|]. by intros. }
    + destruct (replay h log) as [h2 acc] eqn:Hrest. cbn [snd].
      specialize (IH h bound t Hd). rewrite Hrest in IH. apply IH; [|done..].
      intros q a Hq. destruct (Hb q a Hq) as [?|[? ?]]; [by left|right]. split; [done|lia].
    + destruct (replay h1 log) as [h2 acc] eqn:Hrest. cbn [snd].
      specialize (IH h1 (<[p := t]> bound) t). rewrite Hrest, Hdelay in IH. cbn [snd] in IH.
      destruct IH as [IH1 IH2]; [done| |done..|].
      { intros q a. rewrite Hcache. destruct (decide (p = q)) as [<-|Hne].
        - rewrite !lookup_insert_eq. auto.
        - rewrite !lookup_insert_ne by done. intros Hq.
          destruct (Hb q a Hq) as [?|[? ?]]; [by left|right]. split; [done|lia]. }
      assert (∀ a, bound !! p = Some a → (a + debounce_delay h ≤ t)%Z) as Hhead.
      { intros a Ha. destruct (Hb p a Ha) as [?|[_ ?]]; [by apply Hacc|lia]. }
      split.
      * intros t' q a [[= -> ->]|Hin]%elem_of_cons Hq; [by apply Hhead|].
        destruct (decide (p = q)) as [<-|Hne].
        -- pose proof (IH1 t' p t Hin (lookup_insert_eq _ _ _)). specialize (Hhead a Hq). lia.
        -- apply (IH1 t' q a Hin). by rewrite lookup_insert_ne.
      * intros i j t1 t2 q Hij Hi Hj. destruct j as [|j]; [lia|]. cbn in Hj.
        destruct i as [|i]; cbn in Hi.
        -- injection Hi as <- <-. apply (IH1 t2 p t); [|apply lookup_insert_eq].
           by eapply list_elem_of_lookup_2.
        -- apply (IH2 i j t1 t2 q); [lia|done..].
  - specialize (IH (Corrected._cleanup_cache h t) bound t).
    change (debounce_delay (Corrected._cleanup_cache h t)) with (debounce_delay h) in IH.
    apply IH; [done| |done..].
    intros q a Hq.
    destruct (last_event_time (Corrected._cleanup_cache h t) !! q) as [v|] eqn:Hv.
    + apply cleanup_lookup in Hv as [Hv _]. left.
      destruct (Hb q a Hq) as [?|[? _]]; congruence.
    + right. split; [done|]. destruct (Hb q a Hq) as [Ha|[_ ?]]; [|lia].
      pose proof (proj1 (cleanup_lookup_None h t q) Hv a Ha). lia.
Qed.

End debounce_facts.

(** X6: the probe of either implementation answers true in two cases only:
    three polls in a row, all before the timeout, reported one positive
    size; or the timeout came and the size read then was positive.  It
    answers false inside the loop only when the file is gone or [stat]
    fails. *)
Theorem probe_accepts_steady_size (start_time : Z) (script : list Probe.tick) (b : bool) :
  Corrected._wait_file_stable start_time script = Some b →
  Original.wait_for_file_stable 5000 start_time script = Some b ∧
  let in_time := λ tk : Probe.tick, (tk.1 - start_time < 5000)%Z in
  (∃ pre t1 t2 t3 s rest,
     b = true ∧ (0 < s)%Z ∧
     script = pre ++ [(t1, Probe.Size s); (t2, Probe.Size s); (t3, Probe.Size s)] ++ rest ∧
     Forall in_time (pre ++ [(t1, Probe.Size s); (t2, Probe.Size s); (t3, Probe.Size s)])) ∨
  (∃ pre t p rest,
     b = false ∧ (p = Probe.Gone ∨ p = Probe.StatError) ∧
     script = pre ++ (t, p) :: rest ∧ Forall in_time (pre ++ [(t, p)])) ∨
  (∃ pre t final rest,
     b = Probe.final_check final ∧ (5000 ≤ t - start_time)%Z ∧
     script = pre ++ (t, final) :: rest ∧ Forall in_time pre).
Proof.
  unfold Corrected._wait_file_stable, Original.wait_for_file_stable, Probe.wait_file_stable.
  intros Hb. split; [done|]. cbn zeta.
  pose proof (wait_loop_outcome 5000 start_time [] script (-1) 0) as H.
  destruct (Probe.wait_loop 5000 start_time script (-1) 0) as [[|]| |]; [..|done];
    injection Hb as <-; rewrite app_nil_l in H;
    (destruct H as (pre & H); [done|lia|intros; lia|intros; lia|]).
  - destruct H as (t1 & t2 & t3 & s & rest & ? & ? & ?).
    left. by exists pre, t1, t2, t3, s, rest.
  - destruct H as (t & p & rest & ? & ? & ?). right; left. by exists pre, t, p, rest.
  - destruct H as (t & rest & ? & ? & ?). right; right. by exists pre, t, final, rest.
Qed.

Lemma probe_accepts_steady_size_slow_copy :
  Original.wait_for_file_stable 5000 1000 Examples.slow_copy = Some true.
Proof. by apply (probe_accepts_steady_size 1000 Examples.slow_copy true). Defined.

(** X7: however events and cache cleanups follow one another in time, two
    accepted events for one path are at least [debounce_delay] apart. *)
Theorem accepted_events_spaced (h : handler) (log : list occurrence) (i j : nat)
    (t1 t2 : Z) (p : string) :
  (0 ≤ debounce_delay h)%Z →
  Sorted Z.le (occurrence_time <$> log) →
  i < j → (replay h log).2 !! i = Some (t1, p) → (replay h log).2 !! j = Some (t2, p) →
  (t1 + debounce_delay h ≤ t2)%Z.
Proof.
  intros Hd Hsorted.
  destruct log as [|o log]; [by destruct i, j|].
  destruct (replay_spacing (o :: log) h ∅ (occurrence_time o) Hd) as [_ H]; [done| |done|].
  - constructor; [lia|]. by apply sorted_times_cons in Hsorted as [? _].
  - apply H.
Qed.

Lemma accepted_events_spaced_twice :
  (100 + debounce_delay Examples.horizon ≤ 1700)%Z.
Proof.
  apply (accepted_events_spaced Examples.horizon
           [Arrives 100 "a.png"; Arrives 900 "a.png"; Cleans 1000; Arrives 1700 "a.png"]
           0 1 100 1700 "a.png").
  - evaluated.
  - evaluated.
  - lia.
  - evaluated.
  - evaluated.
Defined.

(** X8: the cleanup keeps an entry of the cache exactly when it is newer
    than five times the delay, and changes the answer to no later event. *)
Theorem cleanup_keeps_debounce (h : handler) (cleanup_time current_time : Z)
    (file_path : string) :
  (0 ≤ debounce_delay h)%Z → (cleanup_time ≤ current_time)%Z →
  (∀ p v, last_event_time (Corrected._cleanup_cache h cleanup_time) !! p = Some v ↔
          last_event_time h !! p = Some v ∧ (cleanup_time - debounce_delay h * 5 < v)%Z) ∧
  (Corrected._debounced_process (Corrected._cleanup_cache h cleanup_time)
     current_time file_path).2
  = (Corrected._debounced_process h current_time file_path).2.
Proof.
  intros Hd Ht. split; [intros p v; apply cleanup_lookup|].
  unfold Corrected._debounced_process.
  change (debounce_delay (Corrected._cleanup_cache h cleanup_time)) with (debounce_delay h).
  destruct (last_event_time (Corrected._cleanup_cache h cleanup_time) !! file_path)
    as [v|] eqn:Hv.
  - apply cleanup_lookup in Hv as [-> _]. by destruct (_ <? _)%Z.
  - destruct (last_event_time h !! file_path) as [last|] eqn:Hl; [|done].
    pose proof (proj1 (cleanup_lookup_None h cleanup_time file_path) Hv last Hl).
    destruct (Z.ltb_spec (current_time - last) (debounce_delay h)); [lia|done].
Qed.

Lemma cleanup_keeps_debounce_remembering :
  last_event_time Scenes.remembering !! "old.png" = Some 1000%Z ∧
  last_event_time (Corrected._cleanup_cache Scenes.remembering 10000) !! "old.png" = None ∧
  last_event_time (Corrected._cleanup_cache Scenes.remembering 10000) !! "new.png"
    = Some 9000%Z ∧
  (Corrected._debounced_process (Corrected._cleanup_cache Scenes.remembering 10000)
     10200 "new.png").2
  = (Corrected._debounced_process Scenes.remembering 10200 "new.png").2 ∧
  (Corrected._debounced_process Scenes.remembering 10200 "new.png").2 = false.
Proof.
  destruct (cleanup_keeps_debounce Scenes.remembering 10000 10200 "new.png")
    as [Hkept Hsame]; [evaluated|lia|].
  split_and!.
  - evaluated.
  - destruct (last_event_time (Corrected._cleanup_cache Scenes.remembering 10000)
                !! "old.png") as [v|] eqn:Hv; [|done].
    apply Hkept in Hv as [Hv Hnew]. exfalso.
    assert (v = 1000%Z) as -> by (apply (inj Some); rewrite <-Hv; evaluated).
    revert Hnew. evaluated.
  - apply Hkept. split; evaluated.
  - exact Hsame.
  - evaluated.
Defined.

(** ** Temporary names and the handlers *)

Section temp_facts.
Import FS.
Variable refuses : dir → string → string → bool.

Lemma temp_name_marked (pfx : string) (i : nat) (name : string) :
  Text.startswith (temp_name pfx i name) "TEMP_" = true.
Proof.
  unfold Text.startswith, temp_name.
  by destruct (Text.fmt_02d (i + 1) +:+ "_" +:+ pfx +:+ Text.lower (PurePath.suffix name)).
Qed.

Lemma plan_temps_marked (pfx : string) (i : nat) (files : list string) (e : entry) :
  e ∈ plan_from pfx i files → Text.startswith (e_temp e) "TEMP_" = true.
Proof. intros (k & name & _ & _ & ->)%elem_of_plan_from. apply temp_name_marked. Qed.

Lemma phase1_temp_files (plan : list entry) (st : run) (x : string) :
  x ∈ r_temp_files (Corrected.phase1 refuses plan st) →
  x ∈ r_temp_files st ∨ x ∈ e_temp <$> plan.
Proof.
  revert st. induction plan as [|[[p t] f] plan IH]; intros st; [by left|].
  cbn [Corrected.phase1].
  destruct (rename refuses (r_fs st) p t); intros [Hx|Hx]%IH; cbn in Hx |- *;
    try (right; by right);
    apply elem_of_union in Hx as [->%elem_of_singleton|Hx]; auto; right; by left.
Qed.

Lemma phase2_temp_files (todo : list entry) (st : run) (x : string) :
  x ∈ r_temp_files (flow_run (Corrected.phase2 refuses todo st)) → x ∈ r_temp_files st.
Proof.
  revert st. induction todo as [|[[p t] f] todo IH]; intros st; [done|].
  cbn [Corrected.phase2]. destruct (exists_ _ _) as [[|]|]; [|apply IH|done].
  destruct (rename refuses (r_fs st) t f); intros Hx%IH; cbn in Hx; [|done].
  by apply elem_of_difference in Hx as [? _].
Qed.

Lemma original_phase1_temp_files (plan : list entry) (st : run) (x : string) :
  x ∈ r_temp_files (flow_run (Original.phase1 refuses plan st)) →
  x ∈ r_temp_files st ∨ x ∈ e_temp <$> plan.
Proof.
  revert st. induction plan as [|[[p t] f] plan IH]; intros st; [by left|].
  cbn [Original.phase1 r_fs].
  destruct (rename refuses (r_fs st) p t).
  - intros [Hx|Hx]%IH; cbn in Hx |- *; [|right; by right].
    apply elem_of_union in Hx as [->%elem_of_singleton|Hx]; auto. right; by left.
  - cbn. intros [->%elem_of_singleton|Hx]%elem_of_union; auto. right; by left.
Qed.

Lemma original_phase2_temp_files (plan : list entry) (st : run) (x : string) :
  x ∈ r_temp_files (flow_run (Original.phase2 refuses plan st)) →
  x ∈ r_temp_files st.
Proof.
  revert st. induction plan as [|[[p t] f] plan IH]; intros st; [done|].
  cbn [Original.phase2 r_fs].
  destruct (rename refuses (r_fs st) t f) as [d1|]; [|done].
  destruct (Original.get_creation_time d1 f).
  - intros Hx%IH. cbn in Hx. by apply elem_of_difference in Hx as [? _].
  - cbn. by intros [? _]%elem_of_difference.
Qed.

End temp_facts.

(** X9: a handler of the corrected implementation starts [process_new_file]
    only for an event that is not about a directory, on a path with an
    image extension that neither begins with [TEMP_] nor is in
    [temp_files]; the time of the event is then in the cache.  So no
    temporary name of a plan ever starts a pass. *)
Theorem handlers_skip_temporary_files (re_match_renamed : string → string → option bool)
    (h h' : handler) (current_time : Z) (ev : event) (file_path : string) :
  CorrectedEvents.on_created h current_time ev = (h', Some file_path) ∨
  CorrectedEvents.on_modified re_match_renamed h current_time ev
    = Some (h', Some file_path) ∨
  CorrectedEvents.on_moved h current_time ev = (h', Some file_path) →
  is_directory ev = false ∧
  (file_path = src_path ev ∨ file_path = dest_path ev) ∧
  image_name file_path = true ∧
  Text.startswith file_path "TEMP_" = false ∧
  (file_path ∉ temp_files h) ∧
  (∀ pfx i name, file_path ≠ temp_name pfx i name) ∧
  last_event_time h' !! file_path = Some current_time.
Proof.
  assert (∀ p, CorrectedEvents._handle_file_event h current_time p = (h', Some file_path) →
               p = file_path ∧ image_name p = true ∧ Text.startswith p "TEMP_" = false ∧
               (p ∉ temp_files h) ∧ last_event_time h' !! p = Some current_time) as Hstart.
  { intros p. unfold CorrectedEvents._handle_file_event, Corrected._should_process_file.
    destruct (image_name p); cbn [negb]; [|done].
    destruct (Text.startswith p "TEMP_"); cbn [orb negb]; [done|].
    case_bool_decide as Hin; cbn [negb]; [done|].
    unfold Corrected._debounced_process.
    destruct (last_event_time h !! p) as [last|].
    - destruct (_ <? _)%Z; [done|]. intros [= <- <-]. cbn. by rewrite lookup_insert_eq.
    - intros [= <- <-]. cbn. by rewrite lookup_insert_eq. }
  unfold CorrectedEvents.on_created, CorrectedEvents.on_modified, CorrectedEvents.on_moved.
  intros H.
  assert (is_directory ev = false ∧
          (CorrectedEvents._handle_file_event h current_time (src_path ev)
             = (h', Some file_path) ∨
           CorrectedEvents._handle_file_event h current_time (dest_path ev)
             = (h', Some file_path))) as [Hdir Hev].
  { destruct (is_directory ev); cbn [negb andb] in H; [by destruct H as [|[|]]|].
    split; [done|]. destruct H as [H|[H|H]]; [by left| |by right].
    destruct (Corrected.is_already_renamed _ _ _) as [[|]|]; [done| |done].
    injection H as H. by left. }
  assert (∃ p, (p = src_path ev ∨ p = dest_path ev) ∧
               CorrectedEvents._handle_file_event h current_time p = (h', Some file_path))
    as (p & Hp & Hh) by (destruct Hev; eauto).
  apply Hstart in Hh as (-> & Himg & Htemp & Hin & Hl).
  split_and!; try done.
  intros pfx i name ->. by rewrite temp_name_marked in Htemp.
Qed.

Lemma handlers_skip_temporary_files_shot :
  image_name "shot.png" = true.
Proof.
  apply (handlers_skip_temporary_files (λ _ _, Some false) Examples.horizon
           (set_last_event_time {[ "shot.png" := 0%Z ]} Examples.horizon) 0
           {| is_directory := false; src_path := "shot.png"; dest_path := "" |} "shot.png").
  left. evaluated.
Defined.

(** X10: a pass of either implementation adds to [temp_files] nothing but
    names that begin with [TEMP_]. *)
Theorem temp_files_stay_marked (refuses : FS.dir → string → string → bool)
    (impl : implementation) (h : handler) (d : FS.dir) (items : list string) (x : string) :
  x ∈ r_temp_files (Either.reorganize_all_files refuses impl h d items) →
  x ∈ temp_files h ∨ Text.startswith x "TEMP_" = true.
Proof.
  assert (∀ files, x ∈ e_temp <$> plan_from (prefix h) 0 files →
                   Text.startswith x "TEMP_" = true) as Hplan.
  { intros files (e & -> & He)%list_elem_of_fmap. by eapply plan_temps_marked. }
  destruct impl as [cs|]; cbn [Either.reorganize_all_files].
  - unfold Original.reorganize_all_files.
    case_bool_decide; [by left|].
    destruct (Sort.sort_by_key _ _) as [files|]; [|by left].
    rewrite original_plan_loop, !app_nil_l.
    case_bool_decide; [by left|].
    set (st0 := Corrected.say _ _).
    pose proof (original_phase1_temp_files refuses (plan_from (prefix h) 0 files) st0 x) as H1.
    destruct (Original.phase1 refuses _ st0) as [st1|st1]; cbn [flow_run] in H1.
    + pose proof (original_phase2_temp_files refuses (plan_from (prefix h) 0 files) st1 x)
        as H2.
      destruct (Original.phase2 refuses _ st1) as [st2|st2]; cbn [flow_run] in H2;
        cbn; intros Hx; destruct (H1 (H2 Hx)) as [?|?]; eauto.
    + cbn. intros Hx. destruct (H1 Hx) as [?|?]; eauto.
  - unfold Corrected.reorganize_all_files.
    case_bool_decide; [by left|].
    destruct (Sort.sort_by_key _ _) as [files|]; [|by left].
    unfold Corrected.compute_plan. rewrite corrected_plan_loop, app_nil_l.
    case_bool_decide; [by left|].
    set (st1 := Corrected.phase1 refuses _ _).
    pose proof (phase2_temp_files refuses (r_phase1 st1) st1 x) as H2.
    destruct (Corrected.phase2 refuses (r_phase1 st1) st1) as [st2|st2];
      cbn [flow_run Corrected.say r_temp_files] in H2 |- *;
      intros Hx%H2; apply phase1_temp_files in Hx as [Hx|Hx]; eauto.
Qed.

Lemma temp_files_stay_marked_blocked :
  "TEMP_01_Horizon.png" ∈ temp_files Examples.horizon ∨
  Text.startswith "TEMP_01_Horizon.png" "TEMP_" = true.
Proof.
  apply (temp_files_stay_marked FS.windows_refuses corrected Examples.horizon
           Examples.blocked Examples.blocked_listing "TEMP_01_Horizon.png").
  evaluated.
Defined.

(** X11: the handlers of the two implementations do the same: [on_created]
    always; [on_moved] as long as [temp_files] holds names that begin with
    [TEMP_] only, which the passes maintain; [on_modified] whenever the
    pattern of [is_already_renamed] is a regular expression.  When it is
    not, the corrected [on_modified] raises on every event that is not about
    a directory, the original only on those that pass its filters. *)
Theorem handlers_agree (re_match_renamed : string → string → option bool) (h : handler)
    (current_time : Z) (ev : event) :
  (∀ p, OriginalEvents._debounced_process h current_time p
        = Corrected._debounced_process h current_time p) ∧
  OriginalEvents._cleanup_event_cache h current_time = Corrected._cleanup_cache h current_time ∧
  OriginalEvents.on_created h current_time ev = CorrectedEvents.on_created h current_time ev ∧
  (is_Some (re_match_renamed (prefix h) (src_path ev)) →
   OriginalEvents.on_modified re_match_renamed h current_time ev
   = CorrectedEvents.on_modified re_match_renamed h current_time ev) ∧
  (re_match_renamed (prefix h) (src_path ev) = None →
   CorrectedEvents.on_modified re_match_renamed h current_time ev
   = (if is_directory ev then Some (h, None) else None) ∧
   OriginalEvents.on_modified re_match_renamed h current_time ev
   = (if is_directory ev || negb (Corrected._should_process_file h (src_path ev))
      then Some (h, None) else None)) ∧
  ((∀ x, x ∈ temp_files h → Text.startswith x "TEMP_" = true) →
   OriginalEvents.on_moved h current_time ev = CorrectedEvents.on_moved h current_time ev).
Proof.
  split_and!.
  - done.
  - done.
  - unfold OriginalEvents.on_created, CorrectedEvents.on_created.
    unfold CorrectedEvents._handle_file_event, Corrected._should_process_file.
    destruct (is_directory ev); cbn [negb]; [done|].
    destruct (image_name (src_path ev)); cbn [negb]; [|done].
    destruct (_ || _); cbn [negb]; [done|].
    unfold OriginalEvents.start.
    change (OriginalEvents._debounced_process h current_time)
      with (Corrected._debounced_process h current_time).
    by destruct (Corrected._debounced_process _ _ _).
  - intros [b Hb].
    unfold OriginalEvents.on_modified, CorrectedEvents.on_modified.
    unfold CorrectedEvents._handle_file_event, Corrected._should_process_file.
    unfold OriginalEvents.is_already_renamed, Corrected.is_already_renamed. rewrite Hb.
    destruct (is_directory ev); cbn [negb andb]; [done|].
    destruct (image_name (src_path ev)); cbn [negb]; [|by destruct b].
    destruct (_ || _); cbn [negb]; [by destruct b|].
    destruct b; [done|].
    unfold OriginalEvents.start.
    change (OriginalEvents._debounced_process h current_time)
      with (Corrected._debounced_process h current_time).
    by destruct (Corrected._debounced_process _ _ _).
  - intros Hb.
    unfold OriginalEvents.on_modified, CorrectedEvents.on_modified.
    unfold Corrected._should_process_file.
    unfold OriginalEvents.is_already_renamed, Corrected.is_already_renamed. rewrite Hb.
    destruct (is_directory ev); cbn [negb orb]; [done|]. split; [done|].
    destruct (image_name (src_path ev)); cbn [negb]; [|done].
    by destruct (_ || _).
  - intros Hmarked.
    unfold OriginalEvents.on_moved, CorrectedEvents.on_moved.
    unfold CorrectedEvents._handle_file_event, Corrected._should_process_file.
    destruct (is_directory ev); cbn [negb]; [done|].
    destruct (image_name (dest_path ev)); cbn [negb]; [|done].
    destruct (Text.startswith (dest_path ev) "TEMP_") eqn:Ht; cbn [orb negb]; [done|].
    rewrite bool_decide_eq_false_2.
    + cbn [negb]. unfold OriginalEvents.start.
      change (OriginalEvents._debounced_process h current_time)
        with (Corrected._debounced_process h current_time).
      by destruct (Corrected._debounced_process _ _ _).
    + intros Hin%Hmarked. congruence.
Qed.

(** X12: [process_new_file] leaves the prefix and the delay as it found
    them, and the flag too unless [exists()] or the pattern of
    [is_already_renamed] raises: the handler of the exception resets the
    flag even when another thread holds it.  The directory changes only
    through a pass: when the file is found, at once or a second later, is
    not named as renamed, the flag was free and the probe answered true,
    the directory is the one the pass leaves; otherwise it is as it was
    seen. *)
Theorem process_new_file_restores_flag (refuses : FS.dir → string → string → bool)
    (re_match_renamed : string → string → option bool) (h h' : handler)
    (d d_late d' : FS.dir) (file_path : string) (all_items : option (list string))
    (start_time : Z) (script : list Probe.tick) (end_time : Z) (out : list msg) :
  Corrected.process_new_file refuses re_match_renamed h d d_late file_path all_items
    start_time script end_time = Some (h', d', out) →
  let seen := seen_directory d d_late file_path in
  let raises := leaves_by_exception re_match_renamed h d d_late file_path in
  prefix h' = prefix h ∧
  debounce_delay h' = debounce_delay h ∧
  processing h' = (if raises then false else processing h) ∧
  if bool_decide (FS.exists_ seen file_path = Some true) &&
     bool_decide (re_match_renamed (prefix h) file_path = Some false) &&
     negb (processing h) &&
     bool_decide (Corrected._wait_file_stable start_time script = Some true)
  then d' = r_fs (Corrected.reorganize_all_files refuses h seen all_items)
  else d' = seen ∧ h' = (if raises then set_processing false h else h).
Proof.
  cbn zeta.
  unfold Corrected.process_new_file, Corrected.is_already_renamed.
  unfold leaves_by_exception, seen_directory.
  assert (∀ (cur : FS.dir) (pre : list msg),
    match re_match_renamed (prefix h) file_path with
    | Some true => Some (h, cur, pre ++ [MsgAlreadyRenamed file_path])
    | Some false =>
        if processing h then Some (h, cur, pre ++ [MsgBusy file_path])
        else
          stable ← Corrected._wait_file_stable start_time script;
          (if negb stable
           then Some (set_processing false (set_processing true h), cur,
                      pre ++ [MsgWaiting file_path; MsgNotStable file_path])
           else Some (set_processing false
                        (Corrected._cleanup_cache
                           (set_temp_files
                              (r_temp_files (Corrected.reorganize_all_files refuses
                                               (set_processing true h) cur all_items))
                              (set_processing true h)) end_time),
                      r_fs (Corrected.reorganize_all_files refuses
                              (set_processing true h) cur all_items),
                      pre ++ [MsgWaiting file_path; MsgNewFile file_path] ++
                        r_out (Corrected.reorganize_all_files refuses
                                 (set_processing true h) cur all_items)))
    | None => Some (set_processing false h, cur, pre ++ [MsgProcessError file_path])
    end = Some (h', d', out) →
    prefix h' = prefix h ∧ debounce_delay h' = debounce_delay h ∧
    processing h' = (if bool_decide (re_match_renamed (prefix h) file_path = None)
                     then false else processing h) ∧
    if true && bool_decide (re_match_renamed (prefix h) file_path = Some false) &&
       negb (processing h) &&
       bool_decide (Corrected._wait_file_stable start_time script = Some true)
    then d' = r_fs (Corrected.reorganize_all_files refuses h cur all_items)
    else d' = cur ∧ h' = (if bool_decide (re_match_renamed (prefix h) file_path = None)
                          then set_processing false h else h)) as Hfound.
  { intros cur pre.
    destruct (re_match_renamed (prefix h) file_path) as [[|]|];
      rewrite ?bool_decide_eq_false_2, ?bool_decide_eq_true_2 by done; cbn [andb].
    - by intros [= <- <- <-].
    - destruct (processing h) eqn:Hp; cbn [negb andb]; [by intros [= <- <- <-]|].
      destruct (Corrected._wait_file_stable start_time script) as [[|]|]; cbn; [| |done].
      + intros [= <- <- <-]. by rewrite bool_decide_eq_true_2.
      + intros [= <- <- <-]. rewrite bool_decide_eq_false_2 by done.
        split_and!; try done. destruct h. cbn in *. by subst.
    - by intros [= <- <- <-]. }
  destruct (FS.exists_ d file_path) as [[|]|] eqn:Hd; rewrite ?Hd.
  - rewrite (bool_decide_eq_true_2 (Some true = Some true)) by done. apply Hfound.
  - destruct (FS.exists_ d_late file_path) as [[|]|] eqn:Hl.
    + rewrite (bool_decide_eq_true_2 (Some true = Some true)) by done. apply Hfound.
    + rewrite (bool_decide_eq_false_2 (Some false = Some true)) by done.
      by intros [= <- <- <-].
    + rewrite (bool_decide_eq_false_2 (None = Some true)) by done. by intros [= <- <- <-].
  - rewrite (bool_decide_eq_false_2 (None = Some true)) by done. by intros [= <- <- <-].
Qed.

Lemma process_new_file_restores_flag_late :
  ∃ h' d' out,
    Corrected.process_new_file FS.windows_refuses (λ _ _, Some false) Examples.horizon
      ∅ Examples.holiday "vacation.png" (Some Examples.holiday_listing)
      0 Examples.slow_copy 7000 = Some (h', d', out) ∧
    processing h' = false ∧
    d' = r_fs (Corrected.reorganize_all_files FS.windows_refuses Examples.horizon
                 Examples.holiday (Some Examples.holiday_listing)).
Proof.
  destruct (Corrected.process_new_file FS.windows_refuses (λ _ _, Some false)
              Examples.horizon ∅ Examples.holiday "vacation.png"
              (Some Examples.holiday_listing) 0 Examples.slow_copy 7000)
    as [[[h' d'] out]|] eqn:Heq.
  - exists h', d', out. split; [done|].
    destruct (process_new_file_restores_flag _ _ _ _ _ _ _ _ _ _ _ _ _ Heq)
      as (_ & _ & Hflag & Hdir).
    split; [exact Hflag|exact Hdir].
  - vm_compute in Heq. discriminate.
Defined.

(** ** What a pass does to the entries of the directory *)

Section contents_facts.
Import FS.
Variable refuses : dir → string → string → bool.
Hypothesis careful : never_overwrites refuses.

Lemma timeless_renamed (nd : node) : timeless (renamed nd) = timeless nd.
Proof.
  unfold renamed. destruct (n_ctimes nd); [done|].
  unfold timeless. cbn. f_equal. by destruct (n_stat nd).
Qed.

(** A rename moves one entry and leaves the others. *)
Lemma rename_contents (d d' : dir) (src dst : string) :
  rename refuses d src dst = Some d' →
  ∃ nd rest, contents d ≡ₚ nd :: rest ∧ contents d' ≡ₚ renamed nd :: rest.
Proof.
  unfold rename, contents. destruct (d !! src) as [nd|] eqn:Hsrc; [|done].
  destruct (refuses d src dst) eqn:Href; [done|]. intros [= <-].
  exists nd, (map_to_list (delete src d)).*2. split.
  { by rewrite <-(map_to_list_delete d src nd Hsrc), fmap_cons. }
  destruct (decide (src = dst)) as [<-|Hne].
  { rewrite map_to_list_insert by apply lookup_delete_eq. by rewrite fmap_cons. }
  assert (d !! dst = None) as Hdst.
  { destruct (d !! dst) as [nd'|] eqn:Hd; [|done].
    rewrite (careful d src dst Hne) in Href; [done|by eexists]. }
  rewrite map_to_list_insert by (by rewrite lookup_delete_ne). by rewrite fmap_cons.
Qed.

Lemma rename_timeless (d d' : dir) (src dst : string) :
  rename refuses d src dst = Some d' →
  timeless <$> contents d' ≡ₚ timeless <$> contents d.
Proof.
  intros (nd & rest & -> & ->)%rename_contents.
  by rewrite !fmap_cons, timeless_renamed.
Qed.

Lemma rename_kept (d d' : dir) (src dst : string) :
  keeps_ctime d → rename refuses d src dst = Some d' →
  keeps_ctime d' ∧ contents d' ≡ₚ contents d.
Proof.
  intros Hd Hr. split; [by eapply rename_keeps_ctime|].
  pose proof Hr as (nd' & Hnd' & _)%rename_Some.
  pose proof (renamed_keeps d src nd' Hd Hnd') as Hsame.
  unfold rename in Hr. rewrite Hnd' in Hr. destruct (refuses d src dst) eqn:Href; [done|].
  injection Hr as <-. rewrite Hsame. unfold contents.
  destruct (decide (src = dst)) as [<-|Hne].
  { by rewrite insert_delete_eq, insert_id. }
  assert (d !! dst = None) as Hdst.
  { destruct (d !! dst) as [nd''|] eqn:Hd'; [|done].
    rewrite (careful d src dst Hne) in Href; [done|by eexists]. }
  rewrite map_to_list_insert by (by rewrite lookup_delete_ne).
  rewrite <-(map_to_list_delete d src nd' Hnd'). by rewrite !fmap_cons.
Qed.

Lemma kept_refl (d : dir) : kept d d.
Proof. by split. Qed.

Lemma kept_rename (d d1 d2 : dir) (src dst : string) :
  rename refuses d src dst = Some d1 → kept d1 d2 → kept d d2.
Proof.
  intros Hr [Ht Hk]. split.
  - by rewrite Ht, (rename_timeless _ _ _ _ Hr).
  - intros Hd. destruct (rename_kept _ _ _ _ Hd Hr) as [Hd1 Hc1].
    destruct (Hk Hd1) as [? Hc2]. split; [done|]. by rewrite Hc2.
Qed.

Lemma phase1_contents (plan : list entry) (st : run) :
  kept (r_fs st) (r_fs (Corrected.phase1 refuses plan st)).
Proof.
  revert st. induction plan as [|[[p t] f] plan IH]; intros st; [apply kept_refl|].
  cbn [Corrected.phase1].
  destruct (rename refuses (r_fs st) p t) as [d1|] eqn:Hr.
  - eapply kept_rename; [exact Hr|].
    match goal with |- context [Corrected.phase1 refuses plan ?s] => exact (IH s) end.
  - match goal with |- context [Corrected.phase1 refuses plan ?s] => exact (IH s) end.
Qed.

Lemma phase2_contents (todo : list entry) (st : run) :
  kept (r_fs st) (r_fs (flow_run (Corrected.phase2 refuses todo st))).
Proof.
  revert st. induction todo as [|[[p t] f] todo IH]; intros st; [apply kept_refl|].
  cbn [Corrected.phase2].
  destruct (exists_ _ _) as [[|]|]; [|apply IH|apply kept_refl].
  destruct (rename refuses (r_fs st) t f) as [d1|] eqn:Hr.
  - eapply kept_rename; [exact Hr|].
    match goal with |- context [Corrected.phase2 refuses todo ?s] => exact (IH s) end.
  - match goal with |- context [Corrected.phase2 refuses todo ?s] => exact (IH s) end.
Qed.

Lemma original_phase1_contents (plan : list entry) (st : run) :
  kept (r_fs st) (r_fs (flow_run (Original.phase1 refuses plan st))).
Proof.
  revert st. induction plan as [|[[p t] f] plan IH]; intros st; [apply kept_refl|].
  cbn [Original.phase1 r_fs].
  destruct (rename refuses (r_fs st) p t) as [d1|] eqn:Hr; [|apply kept_refl].
  eapply kept_rename; [exact Hr|].
  match goal with |- context [Original.phase1 refuses plan ?s] => exact (IH s) end.
Qed.

Lemma original_phase2_contents (plan : list entry) (st : run) :
  kept (r_fs st) (r_fs (flow_run (Original.phase2 refuses plan st))).
Proof.
  revert st. induction plan as [|[[p t] f] plan IH]; intros st; [apply kept_refl|].
  cbn [Original.phase2 r_fs].
  destruct (rename refuses (r_fs st) t f) as [d1|] eqn:Hr; [|apply kept_refl].
  eapply kept_rename; [exact Hr|].
  destruct (Original.get_creation_time d1 f); [|apply kept_refl].
  match goal with |- context [Original.phase2 refuses plan ?s] => exact (IH s) end.
Qed.

Lemma kept_trans (d1 d2 d3 : dir) : kept d1 d2 → kept d2 d3 → kept d1 d3.
Proof.
  intros [Ht1 Hk1] [Ht2 Hk2]. split; [by rewrite Ht2|].
  intros Hd. destruct (Hk1 Hd) as [Hd2 Hc1]. destruct (Hk2 Hd2) as [? Hc2].
  split; [done|]. by rewrite Hc2.
Qed.

End contents_facts.

Lemma windows_never_overwrites : never_overwrites FS.windows_refuses.
Proof.
  intros d src dst Hne Hdst. unfold FS.windows_refuses.
  rewrite bool_decide_eq_true_2 by done.
  by destruct (String.eqb_spec src dst).
Qed.

(** X13: where a rename never takes the place of another entry (as on
    Windows), a pass of either implementation, whatever fails in it, leaves
    the directory with the entries it had: names change, nothing is lost
    and nothing is written over.  The entries are the same up to what a
    rename makes of [st_ctime], and the same altogether where renames keep
    the creation time. *)
Theorem pass_keeps_every_entry (refuses : FS.dir → string → string → bool)
    (impl : implementation) (h : handler) (d : FS.dir) (items : list string) :
  never_overwrites refuses →
  let d' := r_fs (Either.reorganize_all_files refuses impl h d items) in
  size d' = size d ∧
  timeless <$> contents d' ≡ₚ timeless <$> contents d ∧
  (FS.keeps_ctime d → contents d' ≡ₚ contents d).
Proof.
  intros Hcareful. cbn zeta.
  assert (kept d (r_fs (Either.reorganize_all_files refuses impl h d items))) as [Ht Hk].
  { destruct impl as [cs|]; cbn [Either.reorganize_all_files].
    - unfold Original.reorganize_all_files.
      case_bool_decide; [apply kept_refl|].
      destruct (Sort.sort_by_key _ _) as [files|]; [|apply kept_refl].
      destruct (Original.plan_loop _ _ _ _ _) as [temp_names files_to_rename].
      case_bool_decide; [apply kept_refl|].
      set (st0 := Corrected.say _ _).
      pose proof (original_phase1_contents refuses Hcareful temp_names st0) as H1.
      destruct (Original.phase1 refuses temp_names st0) as [st1|st1];
        cbn [flow_run] in H1; [|done].
      pose proof (original_phase2_contents refuses Hcareful temp_names st1) as H2.
      destruct (Original.phase2 refuses temp_names st1) as [st2|st2];
        cbn [flow_run] in H2; by apply (kept_trans _ _ _ H1).
    - unfold Corrected.reorganize_all_files.
      case_bool_decide; [apply kept_refl|].
      destruct (Sort.sort_by_key _ _) as [files|]; [|apply kept_refl].
      case_bool_decide; [apply kept_refl|].
      set (st0 := Corrected.say _ _).
      pose proof (phase1_contents refuses Hcareful
                    (Corrected.compute_plan (prefix h) files) st0) as H1.
      set (st1 := Corrected.phase1 refuses _ st0) in *.
      pose proof (phase2_contents refuses Hcareful (r_phase1 st1) st1) as H2.
      destruct (Corrected.phase2 refuses (r_phase1 st1) st1) as [st2|st2];
        cbn [flow_run] in H2; by apply (kept_trans _ _ _ H1). }
  split_and!.
  - apply Permutation_length in Ht. unfold contents in Ht.
    by rewrite !length_fmap, !length_map_to_list in Ht.
  - done.
  - intros Hd. by destruct (Hk Hd).
Qed.

Lemma pass_keeps_every_entry_holiday :
  size (r_fs (Either.reorganize_all_files FS.windows_refuses corrected Examples.horizon
                Examples.holiday Examples.holiday_listing)) = size Examples.holiday.
Proof.
  apply (pass_keeps_every_entry FS.windows_refuses corrected Examples.horizon
           Examples.holiday Examples.holiday_listing).
  intros d src dst Hne Hdst. unfold FS.windows_refuses.
  rewrite bool_decide_eq_true_2 by done.
  by destruct (String.eqb_spec src dst).
Defined.

(** X14: on a directory where the names the six patterns match (with the
    case) are exactly the accessible images, on none of whose listed
    entries [is_file()] raises, and whose images have pairwise distinct
    creation times, the original implementation numbers the files in the
    order of the corrected one and plans the same renames. *)
Theorem clean_directory_same_plan (h : handler) (d : FS.dir) (listing files : list string) :
  NoDup listing →
  Forall (λ x, is_Some (FS.is_file d x)) listing →
  Forall (λ x, matched true x = accessible d x) listing →
  Corrected.sorted_files d (Some listing) = Some files →
  NoDup (FS.getctime d <$> files) →
  Original.sorted_files true d listing = Some files ∧
  Original.rename_plan true h d listing = Corrected.rename_plan h d (Some listing).
Proof.
  intros Hnd Hanswers Hsame Hfiles Hct.
  assert (Original.sorted_files true d listing = Some files) as Horig.
  { apply (sorted_files_enumeration d _ files Hfiles); [|done].
    apply NoDup_Permutation; [by apply get_real_image_files_NoDup|by apply image_files_NoDup|].
    intros x. rewrite elem_of_image_files, elem_of_get_real_image_files. split.
    - intros (its & [= <-] & Hin & Hacc). rewrite reached_Forall in Hin by done.
      split; [done|]. by rewrite (proj1 (Forall_forall _ _) Hsame x Hin).
    - intros [Hin Hm]. exists listing. rewrite reached_Forall by done.
      split_and!; [done..|].
      by rewrite <-(proj1 (Forall_forall _ _) Hsame x Hin). }
  split; [done|].
  by rewrite (original_rename_plan_sorted true h d listing files Horig),
             (rename_plan_sorted h d (Some listing) files Hfiles).
Qed.

Lemma clean_directory_same_plan_holiday :
  Original.rename_plan true Examples.horizon Examples.holiday Examples.holiday_listing
  = Corrected.rename_plan Examples.horizon Examples.holiday (Some Examples.holiday_listing).
Proof.
  apply (clean_directory_same_plan Examples.horizon Examples.holiday Examples.holiday_listing
           ["vacation.png"; "IMG_002.jpg"; "Horizon_01.jpeg"]); evaluated.
Defined.

(** X15: [get_real_image_files] looks at the listed names in order, up to
    the first one on which [is_file()] raises.  It returns, in that order,
    those of them that are regular files with an image extension (in any
    case), that exist, whose [stat] answers with a positive size and of
    which a byte can be read; nothing when the listing fails.  The names
    after one on which [is_file()] raises are not looked at, accessible or
    not. *)
Theorem resolver_retains_accessible_images (d : FS.dir) (items : list string) :
  Corrected.get_real_image_files d None = [] ∧
  Corrected.get_real_image_files d (Some items) `sublist_of` items ∧
  (NoDup items → NoDup (Corrected.get_real_image_files d (Some items))) ∧
  (∀ x, x ∈ Corrected.get_real_image_files d (Some items) ↔
        (∃ pre post, items = pre ++ x :: post ∧
                     Forall (λ y, is_Some (FS.is_file d y)) (pre ++ [x])) ∧
        ∃ nd st, d !! x = Some nd ∧ FS.n_is_file nd = Some true ∧ image_name x = true ∧
                 FS.n_exists nd = Some true ∧ FS.n_stat nd = Some st ∧
                 (0 < FS.st_size st)%Z ∧ FS.n_readable nd = true) ∧
  (∀ pre y post, items = pre ++ y :: post → FS.is_file d y = None →
     Corrected.get_real_image_files d (Some items)
     = Corrected.get_real_image_files d (Some pre)) ∧
  (Forall (λ y, is_Some (FS.is_file d y)) items →
   Corrected.get_real_image_files d (Some items) = filter (λ x, accessible d x) items).
Proof.
  split_and!.
  - done.
  - rewrite get_real_image_files_filter.
    transitivity (reached d items); [apply sublist_filter|apply reached_sublist].
  - apply get_real_image_files_NoDup.
  - intros x. rewrite elem_of_get_real_image_files, <-accessible_inv, <-elem_of_reached.
    split.
    + by intros (its & [= <-] & ? & ?).
    + intros [? ?]. by exists items.
  - intros pre y post -> Hy. by rewrite !get_real_image_files_filter, reached_app_raises.
  - intros Hall. by rewrite get_real_image_files_filter, reached_Forall.
Qed.

(** The resolver on a listing that holds an entry on which [is_file()]
    raises: [b.png], listed after it, is accessible and is not returned.
    The pass numbers [a.png] alone, counts every rename it planned, and
    leaves [b.png] under its name. *)
Example resolver_stops_at_error :
  accessible Scenes.denied "b.png" = true ∧
  Corrected.get_real_image_files Scenes.denied (Some Scenes.denied_listing) = ["a.png"] ∧
  Corrected.get_real_image_files Scenes.denied (Some ["b.png"; "link.txt"; "a.png"])
    = ["b.png"] ∧
  (let st := Corrected.reorganize_all_files FS.posix_refuses Examples.horizon Scenes.denied
               (Some Scenes.denied_listing) in
   r_count st = length (Corrected.rename_plan Examples.horizon Scenes.denied
                          (Some Scenes.denied_listing)) ∧
   r_fs st !! "Horizon_01.png" = Scenes.denied !! "a.png" ∧
   r_fs st !! "b.png" = Scenes.denied !! "b.png").
Proof. cbn zeta. split_and!; evaluated. Qed.

(** ** The sort that raises *)

Lemma sort_by_key_None {A} (key : A → option Z) (l : list A) (x : A) :
  x ∈ l → key x = None → Sort.sort_by_key key l = None.
Proof.
  intros Hin Hx. destruct (Sort.sort_by_key key l) as [l'|] eqn:Hs; [|done].
  apply sort_by_key_Some in Hs as [Hall _].
  destruct (proj1 (Forall_forall _ _) Hall x Hin) as [c Hc]. congruence.
Qed.

(** X16: in the original implementation one entry among those [glob]
    returns whose creation time cannot be read stops the whole pass before
    any rename; the corrected implementation sorts accessible files only,
    and its sort never fails. *)
Theorem unreadable_entry_blocks_original_pass (refuses : FS.dir → string → string → bool)
    (case_sensitive : bool) (h : handler) (d : FS.dir) (listing : list string) (x : string) :
  x ∈ Original.image_files case_sensitive listing → FS.getctime d x = None →
  r_fs (Original.reorganize_all_files refuses case_sensitive h d listing) = d ∧
  r_count (Original.reorganize_all_files refuses case_sensitive h d listing) = 0 ∧
  r_out (Original.reorganize_all_files refuses case_sensitive h d listing)
    = [MsgReorganizeError] ∧
  Original.rename_plan case_sensitive h d listing = [] ∧
  is_Some (Corrected.sorted_files d (Some listing)) ∧
  (x ∉ Corrected.get_real_image_files d (Some listing)).
Proof.
  intros Hin Hx.
  pose proof (sort_by_key_None (Original.get_creation_time d) _ x Hin Hx) as Hsort.
  unfold Original.reorganize_all_files, Original.rename_plan, Original.sorted_files.
  cbn zeta. rewrite Hsort.
  rewrite bool_decide_eq_false_2 by (intros Hnil; rewrite Hnil in Hin; by apply elem_of_nil in Hin).
  split_and!; try done.
  - destruct (sorted_files_Some d (Some listing)) as [files ->]. by eexists.
  - intros (_ & _ & _ & [c Hc]%accessible_getctime)%elem_of_get_real_image_files. congruence.
Qed.

Lemma unreadable_entry_blocks_original_pass_dangling :
  r_fs (Original.reorganize_all_files FS.posix_refuses true Examples.horizon
          Scenes.dangling Scenes.dangling_listing) = Scenes.dangling.
Proof.
  apply (unreadable_entry_blocks_original_pass FS.posix_refuses true Examples.horizon
           Scenes.dangling Scenes.dangling_listing "link.png"); evaluated.
Defined.

(** ** The configuration file *)

Section config_facts.
Import Config.

Lemma dict_get_set {V} (key key' : string) (v : V) (m : dict V) :
  dict_get key' (dict_set key v m)
  = if decide (key' = key) then Some v else dict_get key' m.
Proof.
  induction m as [|[k v'] m IH]; cbn.
  - destruct (String.eqb_spec key key'); case_decide; congruence.
  - destruct (String.eqb_spec k key) as [->|Hk]; cbn.
    + destruct (String.eqb_spec key key'); case_decide; congruence.
    + rewrite IH. destruct (String.eqb_spec k key'); case_decide; congruence.
Qed.

Lemma dict_set_keys {V} (key : string) (v : V) (m : dict V) :
  (dict_set key v m).*1 = if bool_decide (key ∈ m.*1) then m.*1 else m.*1 ++ [key].
Proof.
  induction m as [|[k v'] m IH]; [done|]. cbn [dict_set].
  destruct (String.eqb_spec k key) as [->|Hk].
  - rewrite bool_decide_eq_true_2; [done|]. cbn. by left.
  - rewrite !fmap_cons, IH. cbn [fst].
    destruct (decide (key ∈ m.*1)) as [Hin|Hin].
    + rewrite !bool_decide_eq_true_2; [done|by right|done].
    + rewrite !bool_decide_eq_false_2; [done| |done].
      intros [?|?]%elem_of_cons; congruence.
Qed.

Lemma dict_set_NoDup {V} (key : string) (v : V) (m : dict V) :
  NoDup m.*1 → NoDup (dict_set key v m).*1.
Proof.
  intros Hnd. rewrite dict_set_keys. case_bool_decide as Hin; [done|].
  apply NoDup_app. split_and!; [done| |apply NoDup_singleton].
  intros x Hx ->%list_elem_of_singleton. done.
Qed.

Lemma dict_get_Some {V} (key : string) (v : V) (m : dict V) :
  dict_get key m = Some v → (key, v) ∈ m.
Proof.
  induction m as [|[k v'] m IH]; [done|]. cbn.
  destruct (String.eqb_spec k key) as [->|_].
  - intros [= ->]. by left.
  - intros ?%IH. by right.
Qed.

Lemma dict_get_is_Some {V} (key : string) (m : dict V) :
  is_Some (dict_get key m) ↔ key ∈ m.*1.
Proof.
  induction m as [|[k v'] m IH]; cbn.
  - split; [by intros [? ?]|by intros ?%elem_of_nil].
  - rewrite elem_of_cons. destruct (String.eqb_spec k key) as [->|Hk].
    + split; [by left|by eexists].
    + rewrite IH. cbn. split; [by right|]. intros [?|?]; [congruence|done].
Qed.

(** One entry of the comprehension of [get_paths]: it is taken when its
    name and its path are given and not empty. *)
Lemma collect_paths_cons (config : config) (values : list Config.config)
    (paths : dict string) :
  (∃ name path, c_name config = Some name ∧ name ≠ "" ∧
                c_path config = Some path ∧ path ≠ "" ∧
                collect_paths (config :: values) paths
                = collect_paths values (dict_set name path paths)) ∨
  ((∀ name path, ¬ (c_name config = Some name ∧ name ≠ "" ∧
                    c_path config = Some path ∧ path ≠ "")) ∧
   collect_paths (config :: values) paths = collect_paths values paths).
Proof.
  cbn [collect_paths]. destruct (c_name config) as [n|]; [|right; by split; [intros ? ? [? _]|]].
  destruct (c_path config) as [p|]; [|right; by split; [intros ? ? (_ & _ & ? & _)|]].
  unfold truthy. destruct (String.eqb_spec n "") as [->|Hn]; cbn [negb andb].
  { right. split; [|done]. by intros ? ? ([= <-] & ? & _). }
  destruct (String.eqb_spec p "") as [->|Hp]; cbn [negb].
  { right. split; [|done]. by intros ? ? (_ & _ & [= <-] & ?). }
  left. by exists n, p.
Qed.

Lemma collect_paths_spec (values : list config) (paths : dict string) :
  NoDup paths.*1 →
  NoDup (collect_paths values paths).*1 ∧
  (∀ name, name ∈ (collect_paths values paths).*1 ↔
     name ∈ paths.*1 ∨
     ∃ config path, config ∈ values ∧ c_name config = Some name ∧ name ≠ "" ∧
                    c_path config = Some path ∧ path ≠ "") ∧
  (∀ name path, dict_get name (collect_paths values paths) = Some path →
     dict_get name paths = Some path ∨
     ∃ config, config ∈ values ∧ c_name config = Some name ∧ name ≠ "" ∧
               c_path config = Some path ∧ path ≠ "").
Proof.
  revert paths. induction values as [|config values IH]; intros paths Hnd.
  { cbn. split_and!; [done| |by left]. intros name. split; [by left|].
    intros [?|(? & ? & ?%elem_of_nil & _)]; done. }
  destruct (collect_paths_cons config values paths)
    as [(n & p & Hn & Hn' & Hp & Hp' & ->)|[Hskip ->]].
  - destruct (IH (dict_set n p paths) (dict_set_NoDup _ _ _ Hnd)) as (H1 & H2 & H3).
    split_and!; [done| |].
    + intros name. rewrite H2, dict_set_keys. split.
      * intros [Hin|(c & q & ? & ?)]; [|right; exists c, q; split; [by right|done]].
        case_bool_decide; [by left|]. apply elem_of_app in Hin as [?| ->%list_elem_of_singleton];
          [by left|right]. exists config, p. split; [by left|done].
      * intros [Hin|(c & q & [->|?]%elem_of_cons & Hc)].
        -- left. case_bool_decide; [done|]. apply elem_of_app. by left.
        -- left. destruct Hc as (Hc & _). rewrite Hn in Hc. injection Hc as <-.
           case_bool_decide; [done|]. apply elem_of_app. right. by left.
        -- right. by exists c, q.
    + intros name path [Hget|(c & ? & ?)]%H3; [|right; exists c; split; [by right|done]].
      rewrite dict_get_set in Hget. case_decide as Heq; [|by left].
      injection Hget as <-. subst name. right. exists config. split; [by left|done].
  - destruct (IH paths Hnd) as (H1 & H2 & H3). split_and!; [done| |].
    + intros name. rewrite H2. split.
      * intros [?|(c & q & ? & ?)]; [by left|right]. exists c, q. split; [by right|done].
      * intros [?|(c & q & [->|?]%elem_of_cons & Hc)]; [by left| |right; by exists c, q].
        by destruct (Hskip name q).
    + intros name path [?|(c & ? & ?)]%H3; [by left|right].
      exists c. split; [by right|done].
Qed.

End config_facts.


(** X18: [get_paths] gives one path to each name: a name is listed exactly
    when an entry of the file has that name and a path, neither empty, and
    the path listed is that of such an entry. *)
Theorem listed_paths_come_from_entries (writable : bool) (f : Config.file) :
  let configs := (Config.load_configs writable f).2 in
  let paths := (Config.get_paths writable f).2 in
  NoDup paths.*1 ∧
  (∀ name, is_Some (Config.dict_get name paths) ↔
     ∃ key config path, (key, config) ∈ configs ∧ Config.c_name config = Some name ∧
                        name ≠ "" ∧ Config.c_path config = Some path ∧ path ≠ "") ∧
  (∀ name path, Config.dict_get name paths = Some path →
     ∃ key config, (key, config) ∈ configs ∧ Config.c_name config = Some name ∧
                   name ≠ "" ∧ Config.c_path config = Some path ∧ path ≠ "").
Proof.
  cbn zeta. unfold Config.get_paths.
  destruct (Config.load_configs writable f) as [f1 configs]. cbn [snd].
  destruct (collect_paths_spec configs.*2 [] (NoDup_nil_2)) as (H1 & H2 & H3).
  assert (∀ config : Config.config, config ∈ configs.*2 ↔ ∃ key, (key, config) ∈ configs)
    as Hvalues.
  { intros config. rewrite list_elem_of_fmap. split.
    - intros ([key c] & -> & ?). by exists key.
    - intros [key ?]. by exists (key, config). }
  split_and!; [done| |].
  - intros name. rewrite dict_get_is_Some, H2. split.
    + intros [?%elem_of_nil|(c & p & [key ?]%Hvalues & ?)]; [done|]. by exists key, c, p.
    + intros (key & c & p & ? & ?). right. exists c, p. split; [|done].
      apply Hvalues. by exists key.
  - intros name path [?|(c & [key ?]%Hvalues & ?)]%H3; [done|]. by exists key, c.
Qed.

(** ** The final names of a plan *)

(** X19: in the plan of either implementation no two entries have the same
    final name, and no entry renames a file to the name it has. *)
Theorem final_names_distinct (pfx : string) (files : list string) :
  Original.compute_plan pfx files = Corrected.compute_plan pfx files ∧
  NoDup (e_final <$> Corrected.compute_plan pfx files) ∧
  Forall (λ e, e_path e ≠ e_final e) (Corrected.compute_plan pfx files).
Proof.
  unfold Original.compute_plan, Corrected.compute_plan.
  rewrite original_plan_loop, corrected_plan_loop, app_nil_l. split_and!.
  - done.
  - apply plan_from_finals_NoDup.
  - apply Forall_forall. by intros e (i & name & _ & Hne & ->)%elem_of_plan_from.
Qed.

(** ** What [glob] returns on each platform *)

(** X20: the six [glob] calls of the original return the entries that match
    one of the patterns.  Where names are compared with the case, an
    enumeration without repetition gives a list without repetition; where
    they are compared without the case, the list repeats an entry as soon
    as it is not empty. *)
Theorem glob_repeats_without_case (case_sensitive : bool) (listing : list string) :
  (∀ x, x ∈ Original.image_files case_sensitive listing ↔
        x ∈ listing ∧ matched case_sensitive x = true) ∧
  (∀ x, matched case_sensitive x = true → image_name x = true) ∧
  (case_sensitive = true → NoDup listing → NoDup (Original.image_files true listing)) ∧
  (case_sensitive = false → Original.image_files false listing ≠ [] →
   ¬ NoDup (Original.image_files false listing)).
Proof.
  split_and!.
  - intros x. apply elem_of_image_files.
  - intros x. apply matched_image_name.
  - intros _. apply image_files_NoDup.
  - intros _ Hne Hnd. by apply Hne, image_files_twice.
Qed.
